(** * Disaster-adaptive last-mile logistics simulator

    A shallow embedding of the Monte Carlo simulation core
    (Parallelized-Monte-Carlo-Simulation-V2): [SimulationWorker.py],
    [MonteCarlo.py], the worker entry point and the collection loop of
    [monte_carlo_organized.py] and the point selection of
    [NetworkMap.py], together with the part of networkx the worker
    calls ([DiGraph] accessors and [shortest_path]).

    Conventions.
    - Python floats are modelled by exact rationals [Q]; the IEEE special
      values that the code creates on purpose ([float('inf')]) and the ones
      arithmetic can derive from it live in [xnum].  Rounding is not
      modelled: a sum is exact here where the code rounds, so the
      properties state a sum as the additions the code performs, in
      its order, and none rests on regrouping a sum.
    - Node identifiers are integers (OSM ids), so Python truthiness of a
      node is [n <> 0].
    - Exceptions are values of [exn]; fallible code runs in [res].
    - The two random generators ([random.random] and [numpy.random]) are
      explicit streams threaded through the code that draws from them. *)

From Stdlib Require Import ZArith QArith Qminmax Lia Lqa.
From stdpp Require Import gmap strings list sorting.

Local Open Scope Z_scope.

(** ** Numbers *)

(** [x < y] on finite numbers. *)
Definition Qltb (x y : Q) : bool := negb (Qle_bool y x).

(** Python floats as far as the worker can produce them: finite values,
    both infinities and NaN ([0 * inf], [inf - inf]). *)
Inductive xnum : Type :=
| Fin (q : Q)
| PInf
| NInf
| NaN.

(** [Lt] for a positive number, [Gt] for a negative one. *)
Definition Qsign (q : Q) : comparison := (0 ?= q)%Q.

(** [x * y] on floats. *)
Definition xmul (x y : xnum) : xnum :=
  match x, y with
  | NaN, _ | _, NaN => NaN
  | Fin a, Fin b => Fin (a * b)
  | Fin a, PInf | PInf, Fin a =>
      match Qsign a with Lt => PInf | Gt => NInf | Eq => NaN end
  | Fin a, NInf | NInf, Fin a =>
      match Qsign a with Lt => NInf | Gt => PInf | Eq => NaN end
  | PInf, PInf | NInf, NInf => PInf
  | PInf, NInf | NInf, PInf => NInf
  end.

(** [x + y] on floats. *)
Definition xadd (x y : xnum) : xnum :=
  match x, y with
  | NaN, _ | _, NaN => NaN
  | Fin a, Fin b => Fin (a + b)
  | PInf, NInf | NInf, PInf => NaN
  | PInf, _ | _, PInf => PInf
  | NInf, _ | _, NInf => NInf
  end.

(** [x / d] for a finite divisor.  The only division on a possibly
    infinite value is by [max(0.1, speed_multiplier)], which is positive;
    a zero divisor would raise in Python and is given NaN here. *)
Definition xdivq (x : xnum) (d : Q) : xnum :=
  match Qsign d with
  | Eq => NaN
  | Lt => match x with
          | Fin a => Fin (a / d) | PInf => PInf | NInf => NInf | NaN => NaN
          end
  | Gt => match x with
          | Fin a => Fin (a / d) | PInf => NInf | NInf => PInf | NaN => NaN
          end
  end.

(** [x < y] on floats: every comparison with NaN is false. *)
Definition xltb (x y : xnum) : bool :=
  match x, y with
  | NaN, _ | _, NaN => false
  | Fin a, Fin b => Qltb a b
  | Fin _, PInf => true
  | NInf, Fin _ | NInf, PInf => true
  | _, _ => false
  end.

(** [x == y] on floats. *)
Definition xeqb (x y : xnum) : bool :=
  match x, y with
  | Fin a, Fin b => Qeq_bool a b
  | PInf, PInf | NInf, NInf => true
  | _, _ => false
  end.

(** ** Exceptions *)

(** The Python exceptions the modelled code can raise.  [LoopBound] is not
    one of them: it marks the exhaustion of the iteration bound given to
    the model of a [while] loop. *)
Inductive exn : Type :=
| KeyError
| ValueError
| ZeroDivisionError
| UnboundLocalError
| NetworkXNoPath
| NodeNotFound
| LoopBound.

Inductive res (A : Type) : Type :=
| Ok (a : A)
| Raise (e : exn).
Arguments Ok {A} a.
Arguments Raise {A} e.

#[global] Instance res_ret : MRet res := fun _ a => Ok a.
#[global] Instance res_bind : MBind res := fun _ _ k m =>
  match m with
  | Ok a => k a
  | Raise e => Raise e
  end.

(** ** The road graph (networkx [DiGraph]) *)

Definition node := Z.

(** The attribute dictionary of an edge.  [flood_prone] and
    [landslide_prone] are read with [data[...]], the other three with
    [data.get(..., default)], so those may be missing. *)
Record edge_attrs : Type := mk_attrs {
  edge_length : option Q;
  flood_prone : Q;
  landslide_prone : Q;
  currently_flooded : option bool;
  currently_landslide : option bool
}.

Definition edge : Type := node * node * edge_attrs.

Definition e_src (e : edge) : node := fst (fst e).
Definition e_dst (e : edge) : node := snd (fst e).
Definition e_data (e : edge) : edge_attrs := snd e.

(** [nodes] is the node dictionary in insertion order and [edges] is the
    sequence [G.edges(data=True)] yields. *)
Record DiGraph : Type := mk_graph {
  nodes : list node;
  edges : list edge
}.

Definition has_node (G : DiGraph) (n : node) : bool :=
  bool_decide (n ∈ nodes G).

Definition get_edge_data (G : DiGraph) (u v : node) : option edge_attrs :=
  e_data <$> List.find (fun e => bool_decide (e_src e = u) && bool_decide (e_dst e = v)) (edges G).

Definition has_edge (G : DiGraph) (u v : node) : bool :=
  match get_edge_data G u v with Some _ => true | None => false end.

(** [data.get('currently_flooded', False)] and its landslide twin. *)
Definition is_flooded (d : edge_attrs) : bool := default false (currently_flooded d).
Definition is_landslide (d : edge_attrs) : bool := default false (currently_landslide d).

(** ** networkx: [shortest_path] with a weight attribute

    [nx.shortest_path(G, source, target, weight)] with both endpoints and
    the default method returns the path of
    [bidirectional_dijkstra(G, source, target, weight)], transcribed here.
    The weighted graph is given by its nodes and the triples
    [(u, v, data[weight])], in the order of [G.edges]; the successors
    and the predecessors of a node are met in that order.  The search
    skips an edge only when its weight is [None], which a stored number,
    [float('inf')] included, never is. *)

Module NX.

Definition wedge : Type := node * node * xnum.

(** A heap entry [(distance, counter, node)]. *)
Definition entry : Type := xnum * nat * node.

(** Tuple comparison [a < b]: the first components that differ decide.
    The counters of two entries always differ, so the nodes are never
    compared.  (A NaN distance cannot arise from positive lengths; with
    one, the model keeps the comparison Python makes between two
    distinct NaN objects.) *)
Definition entry_lt (a b : entry) : bool :=
  let '(d1, c1, v1) := a in
  let '(d2, c2, v2) := b in
  if xeqb d1 d2 then
    if (c1 =? c2)%nat then bool_decide (v1 < v2) else (c1 <? c2)%nat
  else xltb d1 d2.

Definition heappush (h : list entry) (x : entry) : list entry := h ++ [x].

(** [heappop]: the least entry and the remaining heap. *)
Fixpoint heappop (h : list entry) : option (entry * list entry) :=
  match h with
  | [] => None
  | x :: t =>
      match heappop t with
      | None => Some (x, [])
      | Some (m, rest) =>
          if entry_lt m x then Some (m, x :: rest) else Some (x, t)
      end
  end.

(** The two-element lists indexed by [dir]: [false] is 0 (forward),
    [true] is 1 (backward). *)
Definition sel {A} (dir : bool) (p : A * A) : A := if dir then p.2 else p.1.
Definition upd {A} (dir : bool) (x : A) (p : A * A) : A * A :=
  if dir then (p.1, x) else (x, p.2).

Record bd_state : Type := mk_bd {
  dists : gmap node xnum * gmap node xnum;
  paths : gmap node (list node) * gmap node (list node);
  fringe : list entry * list entry;
  seen : gmap node xnum * gmap node xnum;
  c : nat;
  finaldist : option xnum;
  finalpath : list node;
  dir : bool
}.

(** [neighs[dir][v].items()] with the weight of each edge:
    successors forward, predecessors backward. *)
Definition neighs (es : list wedge) (d : bool) (v : node) : list (node * xnum) :=
  if d then
    omap (fun e : wedge => let '(u, w, k) := e in
                           if bool_decide (w = v) then Some (u, k) else None) es
  else
    omap (fun e : wedge => let '(u, w, k) := e in
                           if bool_decide (u = v) then Some (w, k) else None) es.

(** One pass of the body of [for w, d in neighs[dir][v].items()]. *)
Definition relax (v : node) (st : bd_state) (wc : node * xnum) : res bd_state :=
  let '(w, cost) := wc in
  let d := dir st in
  dv ← from_option Ok (Raise KeyError) (sel d (dists st) !! v);
  let vwLength := xadd dv cost in
  match sel d (dists st) !! w with
  | Some dw => if xltb vwLength dw then Raise ValueError else Ok st
  | None =>
      if match sel d (seen st) !! w with
         | None => true
         | Some sw => xltb vwLength sw
         end
      then
        pv ← from_option Ok (Raise KeyError) (sel d (paths st) !! v);
        let seen' := upd d (<[w := vwLength]> (sel d (seen st))) (seen st) in
        let fringe' := upd d (heappush (sel d (fringe st)) (vwLength, c st, w)) (fringe st) in
        let paths' := upd d (<[w := pv ++ [w]]> (sel d (paths st))) (paths st) in
        let st' := mk_bd (dists st) paths' fringe' seen' (S (c st))
                         (finaldist st) (finalpath st) d in
        match seen'.1 !! w, seen'.2 !! w with
        | Some s0, Some s1 =>
            let totaldist := xadd s0 s1 in
            better ← match finalpath st with
                     | [] => Ok true
                     | _ :: _ =>
                         fd ← from_option Ok (Raise UnboundLocalError) (finaldist st);
                         Ok (xltb totaldist fd)
                     end;
            if (better : bool) then
              p0 ← from_option Ok (Raise KeyError) (paths'.1 !! w);
              p1 ← from_option Ok (Raise KeyError) (paths'.2 !! w);
              Ok (mk_bd (dists st) paths' fringe' seen' (S (c st))
                        (Some totaldist) (p0 ++ drop 1 (reverse p1)) d)
            else Ok st'
        | _, _ => Ok st'
        end
      else Ok st
  end.

Fixpoint relax_all (v : node) (st : bd_state) (ns : list (node * xnum)) : res bd_state :=
  match ns with
  | [] => Ok st
  | wc :: ns' => st' ← relax v st wc; relax_all v st' ns'
  end.

(** The [while fringe[0] and fringe[1]] loop; [fuel] bounds the number
    of iterations.  ([heappop] cannot fail on the non-empty heap.) *)
Fixpoint bd_loop (es : list wedge) (fuel : nat) (st : bd_state) : res (xnum * list node) :=
  match fuel with
  | O => Raise LoopBound
  | S fuel' =>
      match (fringe st).1, (fringe st).2 with
      | [], _ | _, [] => Raise NetworkXNoPath
      | _ :: _, _ :: _ =>
          let d := negb (dir st) in
          match heappop (sel d (fringe st)) with
          | None => Raise NetworkXNoPath
          | Some ((dist, _, v), rest) =>
              let fringe' := upd d rest (fringe st) in
              match sel d (dists st) !! v with
              | Some _ =>
                  bd_loop es fuel' (mk_bd (dists st) (paths st) fringe' (seen st) (c st)
                                          (finaldist st) (finalpath st) d)
              | None =>
                  let dists' := upd d (<[v := dist]> (sel d (dists st))) (dists st) in
                  let st1 := mk_bd dists' (paths st) fringe' (seen st) (c st)
                                   (finaldist st) (finalpath st) d in
                  match sel (negb d) dists' !! v with
                  | Some _ =>
                      fd ← from_option Ok (Raise UnboundLocalError) (finaldist st);
                      Ok (fd, finalpath st)
                  | None =>
                      st2 ← relax_all v st1 (neighs es d v);
                      bd_loop es fuel' st2
                  end
              end
          end
      end
  end.

Definition bd_init (source target : node) : bd_state :=
  mk_bd (∅, ∅)
        ({[source := [source]]}, {[target := [target]]})
        ([(Fin 0, 0%nat, source)], [(Fin 0, 1%nat, target)])
        ({[source := Fin 0]}, {[target := Fin 0]})
        2 None [] true.

(** Every iteration pops one entry, and an entry is pushed at most once
    per edge and direction. *)
Definition bd_fuel (es : list wedge) : nat := (2 * length es + 3)%nat.

Definition bidirectional_dijkstra (ns : list node) (es : list wedge) (source target : node)
  : res (xnum * list node) :=
  if negb (bool_decide (source ∈ ns)) then Raise NodeNotFound
  else if negb (bool_decide (target ∈ ns)) then Raise NodeNotFound
  else if bool_decide (source = target) then Ok (Fin 0, [source])
  else bd_loop es (bd_fuel es) (bd_init source target).

Definition shortest_path (ns : list node) (es : list wedge) (source target : node)
  : res (list node) :=
  '(_, p) ← bidirectional_dijkstra ns es source target; Ok p.

End NX.

(** ** Rain intensity table *)

Record rain_params : Type := mk_rain {
  flood_activation : Q;
  landslide_activation : Q;
  speed_multiplier : Q
}.

Definition rain_effects : gmap Z rain_params :=
  {[ 1 := mk_rain 0.10 0.00 1.0;
     2 := mk_rain 0.30 0.05 0.8;
     3 := mk_rain 0.60 0.15 0.6;
     4 := mk_rain 0.90 0.30 0.4;
     5 := mk_rain 1.00 1.00 0.0 ]}.

Definition rain_intensity_effects (rain_intensity : Z) : rain_params :=
  default (mk_rain 0.10 0.00 1.0) (rain_effects !! rain_intensity).

(** ** Random draws *)

(** The state of a generator: the infinite sequence of its draws and the
    number of draws already taken. *)
Record rng : Type := mk_rng {
  stream : nat -> Q;
  cursor : nat
}.

Definition random_random (r : rng) : Q * rng :=
  (stream r (cursor r), mk_rng (stream r) (S (cursor r))).

(** [random.random()] yields values in [[0, 1)]. *)
Definition unit_draws (r : rng) : Prop :=
  forall n, (0 <= stream r n)%Q /\ (stream r n < 1)%Q.

(** ** SimulationWorker.py *)

(** A [{'floods': _, 'landslides': _}] counter dictionary. *)
Record counts : Type := mk_counts {
  floods : Z;
  landslides : Z
}.

(** Values stored in a trial-result dictionary. *)
Inductive pyval : Type :=
| VBool (b : bool)
| VNum (q : Q)
| VInt (z : Z)
| VStr (s : string)
| VDict (d : gmap string Z).

Definition counts_dict (k : counts) : gmap string Z :=
  {[ "floods" := floods k; "landslides" := landslides k ]}.

(** The fields of a [MonteCarloSimulationWorker]. *)
Record worker : Type := mk_worker {
  G : DiGraph;
  start_node : node;
  delivery_nodes : list node;
  base_speed : Q
}.

Module Worker.

Definition MonteCarloSimulationWorker (graph_data : DiGraph) (start : node)
    (deliveries : list node) (speed : Q) : worker :=
  mk_worker graph_data start deliveries speed.

Definition rainfall_table : gmap Z (list Q) :=
  {[ 1 := [0.92; 0.06; 0.015; 0.004; 0.001]%Q;
     2 := [0.55; 0.25; 0.12; 0.06; 0.02]%Q;
     3 := [0.25; 0.25; 0.25; 0.15; 0.10]%Q;
     4 := [0.05; 0.10; 0.20; 0.30; 0.35]%Q;
     5 := [0.005; 0.02; 0.075; 0.35; 0.55]%Q ]}.

Definition get_rainfall_probability_by_condition (weather_severity : Z) : res (list Q) :=
  from_option Ok (Raise KeyError) (rainfall_table !! weather_severity).

Definition flood_threshold (rain_intensity : Z) : Q :=
  let t := flood_activation (rain_intensity_effects rain_intensity) in
  if bool_decide (4 <= rain_intensity) then (t * 1.2)%Q else t.

Definition landslide_threshold (rain_intensity : Z) : Q :=
  let t := landslide_activation (rain_intensity_effects rain_intensity) in
  if bool_decide (4 <= rain_intensity) then (t * 1.3)%Q else t.

(** The body of the loop of [activate_disasters] for one edge. *)
Definition activate_edge (ft lt : Q) (e : edge) (acc : counts) (r : rng)
  : edge * counts * rng :=
  let '(u, v, data) := e in
  let '(x1, r1) := random_random r in
  let hit_f := Qltb x1 (flood_prone data * ft) in
  let '(x2, r2) := random_random r1 in
  let hit_l := Qltb x2 (landslide_prone data * lt) in
  let data' := mk_attrs (edge_length data) (flood_prone data) (landslide_prone data)
                        (Some hit_f) (Some hit_l) in
  let acc' := mk_counts (if hit_f then floods acc + 1 else floods acc)
                        (if hit_l then landslides acc + 1 else landslides acc) in
  ((u, v, data'), acc', r2).

Fixpoint activate_loop (ft lt : Q) (es : list edge) (acc : counts) (r : rng)
  : list edge * counts * rng :=
  match es with
  | [] => ([], acc, r)
  | e :: es' =>
      let '(e', acc', r') := activate_edge ft lt e acc r in
      let '(rest, acc'', r'') := activate_loop ft lt es' acc' r' in
      (e' :: rest, acc'', r'')
  end.

(** [activate_disasters] mutates the edge dictionaries of [self.G] in
    place: the worker with the new graph is returned with the counters
    and the generator state. *)
Definition activate_disasters (self : worker) (rain_intensity : Z) (r : rng)
  : worker * counts * rng :=
  let '(es, acc, r') :=
    activate_loop (flood_threshold rain_intensity) (landslide_threshold rain_intensity)
                  (edges (G self)) (mk_counts 0 0) r in
  (mk_worker (mk_graph (nodes (G self)) es) (start_node self) (delivery_nodes self)
             (base_speed self),
   acc, r').

Definition is_edge_blocked (edge_data : edge_attrs) (rain_intensity : Z) : bool :=
  if is_flooded edge_data && bool_decide (5 <= rain_intensity) then true
  else if is_landslide edge_data && bool_decide (4 <= rain_intensity) then true
  else false.

(** *** Path search *)

(** The weight written to [G_temp.edges[u, v]['adjusted_weight']]. *)
Definition adjusted_weight (data : edge_attrs) (rain_intensity : Z) : xnum :=
  let edge_weight := default 1%Q (edge_length data) in
  let penalty0 := Fin 1 in
  let penalty1 :=
    if is_flooded data then
      if bool_decide (5 <= rain_intensity) then PInf else xmul penalty0 (Fin 5)
    else penalty0 in
  let penalty2 :=
    if is_landslide data then
      if bool_decide (4 <= rain_intensity) then PInf else xmul penalty1 (Fin 10)
    else penalty1 in
  let penalty3 :=
    xdivq penalty2 (Qmax 0.1 (speed_multiplier (rain_intensity_effects rain_intensity))) in
  xmul (Fin edge_weight) penalty3.

Definition G_temp_weights (g : DiGraph) (rain_intensity : Z) : list NX.wedge :=
  (fun e : edge => (e_src e, e_dst e, adjusted_weight (e_data e) rain_intensity)) <$> edges g.

(** The loop that sums the original lengths along [path]; [None] is the
    early [return None, float('inf')]. *)
Fixpoint path_length_loop (g : DiGraph) (path : list node) (path_length : Q) : option Q :=
  match path with
  | u :: (v :: _) as rest =>
      match get_edge_data g u v with
      | Some edge_data =>
          path_length_loop g rest
            (match edge_length edge_data with
             | Some l => path_length + l
             | None => path_length + 1
             end)%Q
      | None => None
      end
  | _ => Some path_length
  end.

Definition find_danger_aware_shortest_path (self : worker) (source_id target_id : node)
    (rain_intensity : Z) : res (option (list node) * xnum) :=
  let ws := G_temp_weights (G self) rain_intensity in
  if negb (has_node (G self) source_id) || negb (has_node (G self) target_id)
  then Ok (None, PInf)
  else
    match NX.shortest_path (nodes (G self)) ws source_id target_id with
    | Ok path =>
        match path_length_loop (G self) path 0 with
        | Some path_length => Ok (Some path, Fin path_length)
        | None => Ok (None, PInf)
        end
    | Raise NetworkXNoPath | Raise NodeNotFound => Ok (None, PInf)
    | Raise e => Raise e
    end.

(** *** Nearest-neighbour route *)

(** Python truthiness of a list-or-None and of a node-or-None. *)
Definition truthy_list {A} (l : option (list A)) : bool :=
  match l with Some (_ :: _) => true | _ => false end.
Definition truthy_node (n : option node) : bool :=
  match n with Some k => negb (bool_decide (k = 0)) | None => false end.

(** The scan [for node in unvisited] with its three loop variables
    [(next_node, shortest_distance, shortest_path)]. *)
Fixpoint nearest (self : worker) (current_node : node) (rain_intensity : Z)
    (candidates : list node) (best : option node * xnum * option (list node))
  : res (option node * xnum * option (list node)) :=
  match candidates with
  | [] => Ok best
  | n :: rest =>
      '(path, distance) ← find_danger_aware_shortest_path self current_node n rain_intensity;
      let '(next_node, shortest_distance, shortest_path) := best in
      if truthy_list path && xltb distance shortest_distance
      then nearest self current_node rain_intensity rest (Some n, distance, path)
      else nearest self current_node rain_intensity rest best
  end.

(** The [while unvisited] loop.  The order in which Python iterates a
    set is not fixed by the language; the scan here reads the nodes in
    the order [elements] gives, which need not be CPython's (for the
    set of 2 and 3 it is 3 first).  On a tie of distances the first
    node scanned wins, so the stop chosen can differ from the one
    CPython chooses; the properties below use only which nodes are
    scanned, never their order.  Every round removes one node, so
    [fuel] is the size of the delivery set. *)
Fixpoint route_loop (self : worker) (rain_intensity : Z) (fuel : nat)
    (unvisited : gset node) (current_node : node)
    (route path_sequence : list node) (total_distance : xnum)
  : res (option (list node) * xnum * option (list node)) :=
  if bool_decide (unvisited = ∅) then Ok (Some route, total_distance, Some path_sequence)
  else
    match fuel with
    | O => Raise LoopBound
    | S fuel' =>
        '(next_node, shortest_distance, shortest_path) ←
          nearest self current_node rain_intensity (elements unvisited) (None, PInf, None);
        match next_node with
        | Some n =>
            if truthy_node next_node then
              route_loop self rain_intensity fuel' (unvisited ∖ {[n]}) n
                         (route ++ [n])
                         (path_sequence ++ drop 1 (default [] shortest_path))
                         (xadd total_distance shortest_distance)
            else Ok (None, Fin 0, None)
        | None => Ok (None, Fin 0, None)
        end
    end.

Definition find_disaster_aware_route (self : worker) (start : node)
    (deliveries : list node) (rain_intensity : Z)
  : res (option (list node) * xnum * option (list node)) :=
  let unvisited : gset node := list_to_set deliveries in
  route_loop self rain_intensity (size unvisited) unvisited start [start] [start] (Fin 0).

(** *** Movement *)

(** What [simulate_movement] returns:
    [(success, distance, time, deliveries_made, disaster_encounters, reason)]. *)
Definition movement : Type := bool * Q * Q * Z * counts * string.

Record move_state : Type := mk_move {
  total_distance : Q;
  total_time : Q;
  disaster_encounters : counts;
  visited_delivery_nodes : gset node;
  remaining_delivery_nodes : gset node
}.

Definition fail_at (st : move_state) (reason : string) : movement :=
  (false, total_distance st, total_time st,
   Z.of_nat (size (visited_delivery_nodes st)), disaster_encounters st, reason).

(** The [while current_path_idx < len(path_sequence) - 1] loop, walking
    the consecutive pairs of [path_sequence]. *)
Fixpoint move_loop (self : worker) (rain_intensity : Z) (delivery_nodes_set : gset node)
    (path_sequence : list node) (st : move_state) : movement :=
  match path_sequence with
  | u :: (v :: _) as rest =>
      match get_edge_data (G self) u v with
      | None => fail_at st "Edge no longer exists"
      | Some edge_data =>
          if is_edge_blocked edge_data rain_intensity
          then fail_at st "Encountered blocked road"
          else
            let enc := mk_counts
                         (if is_flooded edge_data
                          then floods (disaster_encounters st) + 1
                          else floods (disaster_encounters st))
                         (if is_landslide edge_data
                          then landslides (disaster_encounters st) + 1
                          else landslides (disaster_encounters st)) in
            let speed0 := (base_speed self
                           * speed_multiplier (rain_intensity_effects rain_intensity))%Q in
            let speed1 := if is_flooded edge_data then (speed0 * 0.5)%Q else speed0 in
            let adjusted_speed :=
              if is_landslide edge_data then (speed1 * 0.3)%Q else speed1 in
            if Qle_bool adjusted_speed 0
            then fail_at (mk_move (total_distance st) (total_time st) enc
                                  (visited_delivery_nodes st) (remaining_delivery_nodes st))
                         "Speed dropped to zero"
            else
              let edge_len := default 0%Q (edge_length edge_data) in
              let travel_time := (edge_len / adjusted_speed)%Q in
              let arrived := bool_decide (v ∈ delivery_nodes_set) in
              move_loop self rain_intensity delivery_nodes_set rest
                (mk_move (total_distance st + edge_len)%Q (total_time st + travel_time)%Q enc
                   (if arrived then {[v]} ∪ visited_delivery_nodes st
                    else visited_delivery_nodes st)
                   (if arrived then remaining_delivery_nodes st ∖ {[v]}
                    else remaining_delivery_nodes st))
      end
  | _ =>
      let success := bool_decide (size (remaining_delivery_nodes st) = 0%nat) in
      (success, total_distance st, total_time st,
       Z.of_nat (size (visited_delivery_nodes st)), disaster_encounters st,
       if success then "All deliveries completed" else "Some deliveries missed")
  end.

Definition simulate_movement (self : worker) (route path_sequence : list node)
    (rain_intensity : Z) : movement :=
  move_loop self rain_intensity (list_to_set (drop 1 route)) path_sequence
    (mk_move 0 0 (mk_counts 0 0) ∅ (list_to_set (delivery_nodes self))).

(** *** One trial *)

Definition no_route_result : gmap string pyval :=
  {[ "success" := VBool false;
     "distance" := VNum 0;
     "time" := VNum 0;
     "reroutes" := VInt 0;
     "disaster_encounters" := VDict ∅;
     "reason" := VStr "No valid route found initially" ]}.

Definition simulate_delivery (self : worker) (rain_intensity : Z)
  : res (gmap string pyval) :=
  '(route, _, path_sequence) ←
    find_disaster_aware_route self (start_node self) (delivery_nodes self) rain_intensity;
  if negb (truthy_list route) then Ok no_route_result
  else
    let '(success, distance, time, deliveries_made, encounters, reason) :=
      simulate_movement self (default [] route) (default [] path_sequence) rain_intensity in
    Ok {[ "reroutes" := VInt 0;
          "success" := VBool success;
          "distance" := VNum distance;
          "time" := VNum time;
          "deliveries_made" := VInt deliveries_made;
          "disaster_encounters" := VDict (counts_dict encounters);
          "reason" := VStr reason ]}.

End Worker.

(** ** MonteCarlo.py *)

(** The fields of a [MonteCarloSimulation]; [all_runs] is
    [simulation_results['all_runs']].  The graph is the object the
    trial worker mutates. *)
Record simulation : Type := mk_simulation {
  sim_base_speed : Q;
  num_delivery_points : Z;
  sim_G : DiGraph;
  completed_simulations : Z;
  sim_start_node : node;
  sim_delivery_nodes : list node;
  ideal_delivery_time : Q;
  weather_severity : option Z;
  all_runs : list (gmap string pyval);
  worker_name : string
}.

(** The generators a run draws from: numpy's for the rain intensity and
    Python's [random] for the disasters. *)
Record rngs : Type := mk_rngs {
  np_random : rng;
  py_random : rng
}.

Module MonteCarlo.

(** [MonteCarloSimulation.__init__]: assignments only, no check of the
    arguments. *)
Definition MonteCarloSimulation (graph : DiGraph) (start : node) (deliveries : list node)
    (ideal : Q) (name : string) (base_speed_mpm : Q) (points : Z) : res simulation :=
  Ok (mk_simulation base_speed_mpm points graph 0 start deliveries ideal None [] name).

(** [p.cumsum()]. *)
Fixpoint cumsum (acc : Q) (p : list Q) : list Q :=
  match p with
  | [] => []
  | x :: p' => (acc + x)%Q :: cumsum (acc + x)%Q p'
  end.

(** [np.random.choice(range(1, 6), p=p)] for one uniform draw [u]:
    the index is [cdf.searchsorted(u, side='right')], the number of
    entries of the cumulative sums that are at most [u].  (The rows of
    the rainfall table sum to 1, so dividing the sums by the last one
    changes nothing.) *)
Definition choice (p : list Q) (u : Q) : Z :=
  1 + Z.of_nat (length (filter (fun x => Qle_bool x u = true) (cumsum 0 p))).

Definition with_trial (self : simulation) (g : DiGraph) (result : gmap string pyval)
    (done : Z) : simulation :=
  mk_simulation (sim_base_speed self) (num_delivery_points self) g done
                (sim_start_node self) (sim_delivery_nodes self) (ideal_delivery_time self)
                (weather_severity self) (all_runs self ++ [result]) (worker_name self).

(** The body of [for i in range(num_simulations)]; the mutated object
    and generators are returned also when the body raises. *)
Definition trial (self : simulation) (severity : Z) (i : Z) (rs : rngs)
  : simulation * rngs * res unit :=
  match Worker.get_rainfall_probability_by_condition severity with
  | Raise e => (self, rs, Raise e)
  | Ok probs =>
      let '(u, np') := random_random (np_random rs) in
      let rain_intensity := choice probs u in
      let simulator :=
        Worker.MonteCarloSimulationWorker (sim_G self) (sim_start_node self)
                                          (sim_delivery_nodes self) (sim_base_speed self) in
      let '(simulator', activated_disasters, py') :=
        Worker.activate_disasters simulator rain_intensity (py_random rs) in
      let self1 := mk_simulation (sim_base_speed self) (num_delivery_points self)
                     (G simulator') (completed_simulations self)
                     (sim_start_node self) (sim_delivery_nodes self)
                     (ideal_delivery_time self) (weather_severity self)
                     (all_runs self) (worker_name self) in
      match Worker.simulate_delivery simulator' rain_intensity with
      | Raise e => (self1, mk_rngs np' py', Raise e)
      | Ok result =>
          let result' :=
            <["activated_disasters" := VDict (counts_dict activated_disasters)]>
              (<["rain_intensity" := VInt rain_intensity]> result) in
          (with_trial self1 (G simulator') result' (i + 1), mk_rngs np' py', Ok ())
      end
  end.

Fixpoint trials (self : simulation) (severity : Z) (i : Z) (n : nat) (rs : rngs)
  : simulation * rngs * res unit :=
  match n with
  | O => (self, rs, Ok ())
  | S n' =>
      match trial self severity i rs with
      | (self', rs', Ok _) => trials self' severity (i + 1) n' rs'
      | failed => failed
      end
  end.

(** [run_simulation]; after the trials the success rate is printed,
    which divides by the number of recorded runs. *)
Definition run_simulation (self : simulation) (num_simulations severity : Z) (rs : rngs)
  : simulation * rngs * res unit :=
  let self0 := mk_simulation (sim_base_speed self) (num_delivery_points self) (sim_G self)
                 (completed_simulations self) (sim_start_node self) (sim_delivery_nodes self)
                 (ideal_delivery_time self) (Some severity) (all_runs self)
                 (worker_name self) in
  match trials self0 severity 0 (Z.to_nat num_simulations) rs with
  | (self', rs', Ok _) =>
      (self', rs', if bool_decide (all_runs self' = []) then Raise ZeroDivisionError else Ok ())
  | failed => failed
  end.

End MonteCarlo.

(** ** monte_carlo_organized.py *)

Module Coordinator.

(** [process_worker]: the messages put on [main_queue], in order, and how
    the process ends.  Deserialising the graph gives the worker its own
    copy; [simulation_var] is the local variable [simulation], unbound
    until the constructor returns. *)
Definition process_worker (G_serialized : DiGraph) (start : node) (deliveries : list node)
    (ideal : Q) (severity num_simulations : Z) (name : string) (rs : rngs)
  : list (option simulation) * res unit :=
  let '(simulation_var, outcome) :=
    match MonteCarlo.MonteCarloSimulation G_serialized start deliveries ideal name 500 7 with
    | Raise e => (None, Raise e)
    | Ok s =>
        let '(s', _, o) := MonteCarlo.run_simulation s num_simulations severity rs in
        (Some s', o)
    end in
  let queue1 := match outcome with Raise _ => [None] | Ok _ => [] end in
  match simulation_var with
  | None => (queue1, Raise UnboundLocalError)
  | Some s => (queue1 ++ [Some s], Ok ())
  end.

(** The collection loop of the main process on the messages in arrival
    order: one [get] per started process, [None] skipped. *)
Definition collect (processes : nat) (arrivals : list (option simulation)) : list simulation :=
  omap id (take processes arrivals).

End Coordinator.

(** ** NetworkMap.py *)

Module NetworkMap.

(** How [select_fixed_points] ends: with the start node and the
    delivery nodes, or with the exception of [all_nodes[0]] on an empty
    list or of the division by [num_delivery_points + 1]. *)
Inductive selection : Type :=
| Points (start : node) (deliveries : list node)
| RaisesIndexError
| RaisesZeroDivisionError.

(** [select_fixed_points]: [sorted] gives the node identifiers in
    ascending order, [//] is floor division, and the loop runs over
    [range(1, num_delivery_points + 1)].  (The index is never negative
    when the loop runs, so no lookup counts from the end.)  The pair
    returned is also what the method stores in [self.start_node] and
    [self.delivery_nodes], which the main process hands to every
    worker. *)
Definition select_fixed_points (g : DiGraph) (num_delivery_points : Z) : selection :=
  let all_nodes := merge_sort Z.le (nodes g) in
  let node_count := Z.of_nat (length all_nodes) in
  if bool_decide (num_delivery_points + 1 = 0) then RaisesZeroDivisionError
  else
    let interval := node_count `div` (num_delivery_points + 1) in
    match all_nodes with
    | [] => RaisesIndexError
    | start :: _ =>
        Points start
          (omap (fun i => let index := i * interval in
                          if bool_decide (index < node_count)
                          then all_nodes !! Z.to_nat index else None)
                (seqZ 1 num_delivery_points))
    end.

End NetworkMap.

(** * Vocabulary of the properties *)

(** ** Example road networks *)

Module Examples.

(** Nodes A = 1 and B = 2 joined by one edge A -> B of length 1000. *)
Definition road (flood land : Q) (flooded landslide : option bool) : edge :=
  (1, 2, mk_attrs (Some 1000%Q) flood land flooded landslide).

Definition two_nodes (flood land : Q) (flooded landslide : option bool) : DiGraph :=
  mk_graph [1; 2] [road flood land flooded landslide].

Definition courier (g : DiGraph) (deliveries : list node) : worker :=
  Worker.MonteCarloSimulationWorker g 1 deliveries 500.

(** A generator whose draws are all [x]. *)
Definition constant (x : Q) : rng := mk_rng (fun _ => x) 0.

(** The road is flooded and the courier must reach B. *)
Definition flooded_run : worker :=
  courier (two_nodes 1 0 (Some true) (Some false)) [2].

(** A road that always floods when it can, before any trial. *)
Definition fresh_run : worker := courier (two_nodes 1 0 None None) [2].

End Examples.

Module Scenarios.

Import Examples.

(** Nobody to deliver to. *)
Definition idle_orchestrator : res simulation :=
  MonteCarlo.MonteCarloSimulation (two_nodes 0 0 None None) 1 [] 2 "Process-1" 500 7.

Definition idle : simulation :=
  mk_simulation 500 7 (two_nodes 0 0 None None) 0 1 [] 2 None [] "Process-1".

Definition half : rngs := mk_rngs (constant 0.5) (constant 0.5).

(** Two places and no road between them. *)
Definition no_road : DiGraph := mk_graph [1; 2] [].

Definition stranded : simulation :=
  mk_simulation 500 7 no_road 0 1 [2] 2 None [] "Process-1".

(** A third place C = 3 beyond B. *)
Definition three_nodes : DiGraph :=
  mk_graph [1; 2; 3]
           [(1, 2, mk_attrs (Some 1000%Q) 0 0 None None);
            (2, 3, mk_attrs (Some 1000%Q) 0 0 None None)].

(** A dry road and a delivery to B; the same with a third place. *)
Definition dry_run : worker := courier (two_nodes 0 0 None None) [2].
Definition long_run : worker := courier three_nodes [2].

End Scenarios.

(** The endpoint of an edge a search direction leaves from. *)
Definition tail_of (d : bool) (e : NX.wedge) : node := if d then e.1.2 else e.1.1.

(** Edges whose tail is not settled yet in direction [d]. *)
Definition unsettled (es : list NX.wedge) (d : bool) (st : NX.bd_state) : nat :=
  length (filter (fun e => NX.sel d (NX.dists st) !! tail_of d e = None) es).

(** The entries still to pop plus the entries that may still be pushed. *)
Definition pending (es : list NX.wedge) (st : NX.bd_state) : nat :=
  (length (NX.fringe st).1 + length (NX.fringe st).2
   + unsettled es false st + unsettled es true st)%nat.

(** The consecutive pairs [(path[i], path[i+1])]. *)
Fixpoint hops (path : list node) : list (node * node) :=
  match path with
  | u :: (v :: _) as rest => (u, v) :: hops rest
  | _ => []
  end.

(** The stored [length] of the edge [u -> v], 1 when the attribute is
    missing, as the summation loop counts it. *)
Definition original_length (g : DiGraph) (uv : node * node) : Q :=
  match get_edge_data g uv.1 uv.2 with
  | Some d => default 1%Q (edge_length d)
  | None => 0%Q
  end.

Definition sum_original (g : DiGraph) (path : list node) : Q :=
  fold_left Qplus (original_length g <$> hops path) 0%Q.

(** Two edges that agree on everything but the transient flags. *)
Definition same_static (e e' : edge) : Prop :=
  e_src e = e_src e' /\ e_dst e = e_dst e'
  /\ edge_length (e_data e) = edge_length (e_data e')
  /\ flood_prone (e_data e) = flood_prone (e_data e')
  /\ landslide_prone (e_data e) = landslide_prone (e_data e').

Definition flags_written (e : edge) : Prop :=
  is_Some (currently_flooded (e_data e)) /\ is_Some (currently_landslide (e_data e)).

(** The same edge with the flags a previous trial may have left. *)
Definition reflag_edge (left_over : edge -> option bool * option bool) (e : edge) : edge :=
  (e_src e, e_dst e,
   mk_attrs (edge_length (e_data e)) (flood_prone (e_data e)) (landslide_prone (e_data e))
            (left_over e).1 (left_over e).2).

Definition reflag (left_over : edge -> option bool * option bool) (self : worker) : worker :=
  mk_worker (mk_graph (nodes (G self)) (reflag_edge left_over <$> edges (G self)))
            (start_node self) (delivery_nodes self) (base_speed self).

(** The transient flags of every edge, in edge order. *)
Definition flags_of (self : worker) : list (option bool * option bool) :=
  (fun e => (currently_flooded (e_data e), currently_landslide (e_data e))) <$> edges (G self).

(** The record of a trial whose walk ended at once with nothing to
    deliver. *)
Definition nothing_to_deliver : gmap string pyval :=
  {[ "reroutes" := VInt 0;
     "success" := VBool true;
     "distance" := VNum 0;
     "time" := VNum 0;
     "deliveries_made" := VInt 0;
     "disaster_encounters" := VDict (counts_dict (mk_counts 0 0));
     "reason" := VStr "All deliveries completed" ]}.

(** The components of a movement outcome. *)
Definition m_success (m : Worker.movement) : bool := m.1.1.1.1.1.
Definition m_deliveries_made (m : Worker.movement) : Z := m.1.1.2.
Definition m_reason (m : Worker.movement) : string := m.2.

(** The walk reached the end of the path: none of the three failure
    exits was taken. *)
Definition completed (m : Worker.movement) : Prop :=
  m_reason m = "All deliveries completed" \/ m_reason m = "Some deliveries missed".

(** The number of (distinct) delivery nodes. *)
Definition delivery_count (self : worker) : Z :=
  Z.of_nat (size (list_to_set (delivery_nodes self) : gset node)).

(** ** Outcomes of the walk, plans and invariants *)

Definition m_distance (m : Worker.movement) : Q := m.1.1.1.1.2.
Definition m_time (m : Worker.movement) : Q := m.1.1.1.2.
Definition m_encounters (m : Worker.movement) : counts := m.1.2.

(** [edge_data.get('length', 0)] of the hop, as the walk adds it. *)
Definition walked_length (g : DiGraph) (uv : node * node) : Q :=
  match get_edge_data g uv.1 uv.2 with
  | Some d => default 0%Q (edge_length d)
  | None => 0%Q
  end.

(** One round of the loop of [simulate_movement] over the hop [u -> v]:
    the returned outcome of a failure exit, or the state for the next
    round. *)
Definition move_step (self : worker) (rain_intensity : Z) (delivery_nodes_set : gset node)
    (u v : node) (st : Worker.move_state) : Worker.movement + Worker.move_state :=
  match get_edge_data (G self) u v with
  | None => inl (Worker.fail_at st "Edge no longer exists")
  | Some edge_data =>
      if Worker.is_edge_blocked edge_data rain_intensity
      then inl (Worker.fail_at st "Encountered blocked road")
      else
        let enc := mk_counts
                     (if is_flooded edge_data
                      then floods (Worker.disaster_encounters st) + 1
                      else floods (Worker.disaster_encounters st))
                     (if is_landslide edge_data
                      then landslides (Worker.disaster_encounters st) + 1
                      else landslides (Worker.disaster_encounters st)) in
        let speed0 := (base_speed self
                       * speed_multiplier (rain_intensity_effects rain_intensity))%Q in
        let speed1 := if is_flooded edge_data then (speed0 * 0.5)%Q else speed0 in
        let adjusted_speed :=
          if is_landslide edge_data then (speed1 * 0.3)%Q else speed1 in
        if Qle_bool adjusted_speed 0
        then inl (Worker.fail_at
                    (Worker.mk_move (Worker.total_distance st) (Worker.total_time st) enc
                       (Worker.visited_delivery_nodes st) (Worker.remaining_delivery_nodes st))
                    "Speed dropped to zero")
        else
          let edge_len := default 0%Q (edge_length edge_data) in
          let travel_time := (edge_len / adjusted_speed)%Q in
          let arrived := bool_decide (v ∈ delivery_nodes_set) in
          inr (Worker.mk_move (Worker.total_distance st + edge_len)%Q
                 (Worker.total_time st + travel_time)%Q enc
                 (if arrived then {[v]} ∪ Worker.visited_delivery_nodes st
                  else Worker.visited_delivery_nodes st)
                 (if arrived then Worker.remaining_delivery_nodes st ∖ {[v]}
                  else Worker.remaining_delivery_nodes st))
  end.

(** The record [simulate_delivery] builds from the outcome of the walk. *)
Definition movement_record (m : Worker.movement) : gmap string pyval :=
  {[ "reroutes" := VInt 0;
     "success" := VBool (m_success m);
     "distance" := VNum (m_distance m);
     "time" := VNum (m_time m);
     "deliveries_made" := VInt (m_deliveries_made m);
     "disaster_encounters" := VDict (counts_dict (m_encounters m));
     "reason" := VStr (m_reason m) ]}.

(** The number of edges whose flag reads true. *)
Definition flooded_edges (g : DiGraph) : nat :=
  length (filter (fun e => is_flooded (e_data e) = true) (edges g)).
Definition landslide_edges (g : DiGraph) : nat :=
  length (filter (fun e => is_landslide (e_data e) = true) (edges g)).

(** What a run never changes in the orchestrator: the configuration and
    the node set of its graph. *)
Definition same_configuration (s s' : simulation) : Prop :=
  sim_base_speed s' = sim_base_speed s
  /\ num_delivery_points s' = num_delivery_points s
  /\ sim_start_node s' = sim_start_node s
  /\ sim_delivery_nodes s' = sim_delivery_nodes s
  /\ ideal_delivery_time s' = ideal_delivery_time s
  /\ worker_name s' = worker_name s
  /\ nodes (sim_G s') = nodes (sim_G s)
  /\ length (edges (sim_G s')) = length (edges (sim_G s)).

(** A stored trial record: it has a verdict and carries the sampled rain
    intensity, one of 1..5, and the activation counters. *)
Definition stored_record (record : gmap string pyval) : Prop :=
  (exists b, record !! "success" = Some (VBool b))
  /\ (exists k, record !! "rain_intensity" = Some (VInt k) /\ 1 <= k <= 5)
  /\ (exists d, record !! "activated_disasters" = Some (VDict d)
                /\ is_Some (d !! "floods") /\ is_Some (d !! "landslides")).

(** A list of nodes that starts at [s] and ends at [t]. *)
Definition joins (s t : node) (p : list node) : Prop :=
  head p = Some s /\ last p = Some t.

(** What the search keeps about its partial paths: a forward path to [x]
    joins the source to [x], a backward path to [x] joins the target to
    [x], and the best path found so far, once there is one, joins the
    source to the target. *)
Definition paths_ok (source target : node) (st : NX.bd_state) : Prop :=
  (forall x p, (NX.paths st).1 !! x = Some p -> joins source x p)
  /\ (forall x p, (NX.paths st).2 !! x = Some p -> joins target x p)
  /\ (NX.finalpath st = [] \/ joins source target (NX.finalpath st))
  /\ (is_Some (NX.finaldist st) -> NX.finalpath st <> []).

(** A walk of the graph from [s] to [t]: it joins them and its
    consecutive nodes are joined by edges. *)
Definition walk (g : DiGraph) (s t : node) (p : list node) : Prop :=
  joins s t p /\ Forall (fun uv => has_edge g uv.1 uv.2 = true) (hops p).

(** The legs of a route: one path per stop, each a walk of the graph
    from the stop before it (the start node for the first) to that
    stop. *)
Fixpoint legs_between (g : DiGraph) (current : node) (stops : list node)
    (legs : list (list node)) : Prop :=
  match stops, legs with
  | [], [] => True
  | n :: stops', leg :: legs' => walk g current n leg /\ legs_between g n stops' legs'
  | _, _ => False
  end.

(** [path_sequence.extend(shortest_path[1:])] and
    [total_distance += shortest_distance] over the legs, in the order
    the router finds them; the length of a leg is the sum the
    pathfinder returns for it. *)
Definition extend_path (ps : list node) (legs : list (list node)) : list node :=
  fold_left (fun ps leg => ps ++ drop 1 leg) legs ps.
Definition add_legs (g : DiGraph) (total : xnum) (legs : list (list node)) : xnum :=
  fold_left (fun total leg => xadd total (Fin (sum_original g leg))) legs total.

(** What the router hands to the walk: the path sequence joins the start
    node to the last stop of the route along edges of the graph; it is
    the legs between consecutive stops joined in order, and the total
    is their lengths added in that order, starting from 0. *)
Definition planned (g : DiGraph) (start : node) (route ps : list node) (total : xnum) : Prop :=
  head route = Some start
  /\ (exists c, last route = Some c /\ walk g start c ps)
  /\ exists legs, legs_between g start (drop 1 route) legs
       /\ ps = extend_path [start] legs
       /\ total = add_legs g (Fin 0) legs.

(** The reasons a trial can report. *)
Definition trial_reasons : list string :=
  ["No valid route found initially"; "Encountered blocked road"; "Speed dropped to zero";
   "All deliveries completed"; "Some deliveries missed"].

(** Distances the search can order: a non-negative number or [+inf]. *)
Definition good (x : xnum) : Prop :=
  match x with Fin q => (0 <= q)%Q | PInf => True | _ => False end.

(** [not (y < x)] on floats. *)
Definition xle (x y : xnum) : Prop := xltb y x = false.

(** One direction of the search: settled distances, heap, seen
    distances and partial paths. *)
Definition side_ok (D : gmap node xnum) (F : list NX.entry) (S : gmap node xnum)
    (P : gmap node (list node)) : Prop :=
  (forall w x, D !! w = Some x -> good x)
  /\ (forall e, e ∈ F -> good e.1.1 /\ is_Some (S !! e.2))
  /\ (forall w x e, D !! w = Some x -> e ∈ F -> xle x e.1.1)
  /\ (forall w, is_Some (S !! w) -> is_Some (P !! w))
  /\ (forall w, is_Some (D !! w) -> is_Some (S !! w)).

Definition search_ok (st : NX.bd_state) : Prop :=
  side_ok (NX.dists st).1 (NX.fringe st).1 (NX.seen st).1 (NX.paths st).1
  /\ side_ok (NX.dists st).2 (NX.fringe st).2 (NX.seen st).2 (NX.paths st).2
  /\ (NX.finalpath st <> [] -> is_Some (NX.finaldist st))
  /\ (forall w, is_Some ((NX.seen st).1 !! w) -> is_Some ((NX.seen st).2 !! w) ->
                is_Some (NX.finaldist st)).

(** The node being expanded is settled in the current direction, no
    settled distance exceeding its own. *)
Definition ready (v : node) (st : NX.bd_state) : Prop :=
  exists dv, NX.sel (NX.dir st) (NX.dists st) !! v = Some dv
    /\ forall w x, NX.sel (NX.dir st) (NX.dists st) !! w = Some x -> xle x dv.

(** Every stored length is positive. *)
Definition positive_lengths (g : DiGraph) : Prop :=
  Forall (fun e => forall l, edge_length (e_data e) = Some l -> (0 < l)%Q) (edges g).

(** The failure markers among the messages. *)
Definition markers (msgs : list (option simulation)) : nat :=
  length (omap (fun m : option simulation =>
                  match m with None => Some tt | Some _ => None end) msgs).

(** ** Further cases *)

Module Cases.

Import Examples Scenarios.

(** The record of the trial of [dry_run] along its only route. *)
Definition dry_trial (rain : Z) : gmap string pyval :=
  movement_record (Worker.simulate_movement dry_run [1; 2] [1; 2] rain).

(** The hub is node 1 and the only delivery node is node 0, one road
    away. *)
Definition zero_run : worker :=
  Worker.MonteCarloSimulationWorker
    (mk_graph [0; 1] [(1, 0, mk_attrs (Some 1000%Q) 0 0 None None)]) 1 [0] 500.

(** An orchestrator for the dry road. *)
Definition dry_simulation : simulation :=
  mk_simulation 500 7 (two_nodes 0 0 None None) 0 1 [2] 2 None [] "Process-3".

Definition empty_map : DiGraph := mk_graph [] [].

(** Deliveries to B and to C, one road beyond B, and the record of the
    trial along the route A, B, C. *)
Definition two_stop_run : worker := courier three_nodes [3; 2].

Definition two_stop_trial (rain : Z) : gmap string pyval :=
  movement_record (Worker.simulate_movement two_stop_run [1; 2; 3] [1; 2; 3] rain).

End Cases.

(** * Properties *)

(** Closes [lhs = rhs] between closed terms by evaluating both sides. *)
Ltac vm_refl :=
  lazymatch goal with
  | |- _ = ?rhs => vm_cast_no_check (@eq_refl _ rhs)
  end.

(** ** Comparisons *)

Lemma Qltb_lt (x y : Q) : Qltb x y = true <-> (x < y)%Q.
Proof.
  unfold Qltb. rewrite negb_true_iff. split.
  - intros H. apply Qnot_le_lt. intros Hle.
    apply Qle_bool_iff in Hle. congruence.
  - intros H. destruct (Qle_bool y x) eqn:E; [|reflexivity].
    apply Qle_bool_iff in E. exfalso. apply (Qlt_not_le _ _ H E).
Qed.

(** ** The shortest-path search stays within its iteration bound *)

Section Termination.

Import NX.

Lemma heappop_length (h rest : list entry) (x : entry) :
  heappop h = Some (x, rest) -> length h = S (length rest).
Proof.
  revert x rest. induction h as [|y h IH]; intros x rest H; [discriminate|].
  cbn [heappop] in H. destruct (heappop h) as [[m r]|] eqn:E.
  - specialize (IH _ _ eq_refl). destruct (entry_lt m y); injection H as <- <-; cbn; lia.
  - destruct h; [|cbn in E; destruct (heappop h) as [[? ?]|]; [destruct (entry_lt _ _)|]; discriminate].
    injection H as <- <-. reflexivity.
Qed.

Lemma neighs_length (es : list wedge) (d : bool) (v : node) :
  length (neighs es d v) = length (filter (fun e => tail_of d e = v) es).
Proof.
  unfold neighs, tail_of.
  destruct d; induction es as [|[[u w] k] es IH]; try reflexivity.
  - rewrite filter_cons. cbn [omap list_omap fst snd].
    case_bool_decide; case_decide; try contradiction; cbn [length]; by rewrite IH.
  - rewrite filter_cons. cbn [omap list_omap fst snd].
    case_bool_decide; case_decide; try contradiction; cbn [length]; by rewrite IH.
Qed.

Lemma settle_count (es : list wedge) (d : bool) (D : gmap node xnum) (v : node) (x : xnum) :
  D !! v = None ->
  (length (filter (fun e => <[v := x]> D !! tail_of d e = None) es)
   + length (filter (fun e => tail_of d e = v) es))%nat
  = length (filter (fun e => D !! tail_of d e = None) es).
Proof.
  intros Hv. induction es as [|e es IH]; [reflexivity|].
  rewrite !filter_cons.
  destruct (decide (tail_of d e = v)) as [Heq|Hne]; repeat case_decide;
    cbn [length]; try lia; exfalso.
  all: try (rewrite Heq in *).
  all: rewrite ?lookup_insert_eq, ?lookup_insert_ne in * by congruence; congruence.
Qed.

Ltac split_result H :=
  repeat match type of H with
         | context [match ?x with _ => _ end] => destruct x eqn:?; try discriminate H
         end.

Lemma relax_shape (v : node) (st st' : bd_state) (wc : node * xnum) :
  relax v st wc = Ok st' ->
  dists st' = dists st /\ dir st' = dir st
  /\ sel (negb (dir st)) (fringe st') = sel (negb (dir st)) (fringe st)
  /\ (length (sel (dir st) (fringe st')) <= S (length (sel (dir st) (fringe st))))%nat.
Proof.
  unfold relax, mbind, res_bind, from_option. intros H. split_result H.
  all: injection H as <-; cbn [dists dir fringe].
  all: try (repeat split; try reflexivity; lia).
  all: destruct (dir st); cbn [sel upd negb fst snd]; unfold heappush;
    rewrite ?length_app; cbn [length]; repeat split; try reflexivity; lia.
Qed.

Lemma relax_no_bound (v : node) (st : bd_state) (wc : node * xnum) :
  relax v st wc <> Raise LoopBound.
Proof.
  unfold relax, mbind, res_bind, from_option. intros H. split_result H.
  all: injection H as ->.
  all: repeat match goal with
              | Hx : context [match ?x with _ => _ end] |- _ =>
                  destruct x eqn:?; try discriminate Hx
              end.
  all: congruence.
Qed.

Lemma relax_all_shape (v : node) (ns : list (node * xnum)) (st st' : bd_state) :
  relax_all v st ns = Ok st' ->
  dists st' = dists st /\ dir st' = dir st
  /\ sel (negb (dir st)) (fringe st') = sel (negb (dir st)) (fringe st)
  /\ (length (sel (dir st) (fringe st')) <= length ns + length (sel (dir st) (fringe st)))%nat.
Proof.
  revert st. induction ns as [|wc ns IH]; intros st H.
  - injection H as <-. repeat split; first [reflexivity | cbn; lia].
  - cbn [relax_all] in H. unfold mbind, res_bind in H.
    destruct (relax v st wc) as [st1|] eqn:E; [|discriminate].
    apply relax_shape in E as (Hd & Hdir & Hother & Hlen).
    apply IH in H as (Hd' & Hdir' & Hother' & Hlen').
    rewrite Hdir in *. repeat split; try congruence. cbn [length]. lia.
Qed.

Lemma relax_all_no_bound (v : node) (ns : list (node * xnum)) (st : bd_state) :
  relax_all v st ns <> Raise LoopBound.
Proof.
  revert st. induction ns as [|wc ns IH]; intros st; [discriminate|].
  cbn [relax_all]. unfold mbind, res_bind.
  destruct (relax v st wc) as [st1|e] eqn:E; [apply IH|].
  intros [= ->]. by apply relax_no_bound in E.
Qed.

(** The loop never reaches its iteration bound: every iteration lowers
    [pending]. *)
Lemma bd_loop_bound (es : list wedge) (fuel : nat) (st : bd_state) :
  (pending es st < fuel)%nat -> bd_loop es fuel st <> Raise LoopBound.
Proof.
  revert st. induction fuel as [|fuel IH]; intros st Hp; [lia|].
  cbn [bd_loop].
  destruct (fringe st).1 as [|x0 f0] eqn:F0; [discriminate|].
  destruct (fringe st).2 as [|x1 f1] eqn:F1; [discriminate|].
  destruct (heappop (sel (negb (dir st)) (fringe st))) as [[[[dist cnt] v] rest]|] eqn:Hpop;
    [|discriminate].
  apply heappop_length in Hpop.
  destruct (sel (negb (dir st)) (dists st) !! v) as [dv|] eqn:Hv.
  - apply IH. unfold pending, unsettled in *. cbn [fringe dists].
    destruct (dir st); cbn [negb sel upd fst snd] in *; rewrite ?F0, ?F1 in *;
      cbn [length] in *; lia.
  - destruct (sel (negb (negb (dir st))) _ !! v); [unfold mbind, res_bind, from_option;
      destruct (finaldist st); discriminate|].
    unfold mbind, res_bind.
    destruct (relax_all v _ (neighs es (negb (dir st)) v)) as [st2|e] eqn:Er.
    2:{ intros [= ->]. by apply relax_all_no_bound in Er. }
    apply IH. apply relax_all_shape in Er as (Hd & Hdir & Hother & Hlen).
    cbn [dists dir fringe] in Hd, Hdir, Hother, Hlen.
    rewrite neighs_length in Hlen.
    pose proof (settle_count es (negb (dir st)) (sel (negb (dir st)) (dists st)) v dist Hv)
      as Hcount.
    unfold pending, unsettled in *. rewrite Hd. cbn [dists].
    destruct (dir st); cbn [negb sel upd fst snd] in *; rewrite ?F0, ?F1 in *;
      cbn [length] in *; rewrite ?Hother in *; cbn [length] in *; lia.
Qed.

Lemma bidirectional_dijkstra_terminates (ns : list node) (es : list wedge) (s t : node) :
  bidirectional_dijkstra ns es s t <> Raise LoopBound.
Proof.
  unfold bidirectional_dijkstra.
  destruct (negb _); [discriminate|]. destruct (negb _); [discriminate|].
  case_bool_decide; [discriminate|].
  apply bd_loop_bound. unfold pending, unsettled, bd_fuel, bd_init.
  cbn [fringe dists sel fst snd length].
  repeat match goal with
         | |- context [length (filter ?P es)] =>
             let n := fresh "n" in
             let Hn := fresh "Hn" in
             pose proof (length_filter P es) as Hn;
             set (n := length (filter P es)) in *; clearbody n
         end.
  lia.
Qed.

End Termination.

(** ** Path search *)

Section PathSearch.

Import Worker.

Variable self : worker.

Lemma path_length_loop_sum (g : DiGraph) (path : list node) (acc total : Q) :
  path_length_loop g path acc = Some total ->
  total = fold_left Qplus (original_length g <$> hops path) acc
  /\ Forall (fun uv => has_edge g uv.1 uv.2 = true) (hops path).
Proof.
  revert acc. induction path as [|u [|v rest] IH]; intros acc H.
  - injection H as <-. split; [reflexivity | constructor].
  - injection H as <-. split; [reflexivity | constructor].
  - change (hops (u :: v :: rest)) with ((u, v) :: hops (v :: rest)).
    cbn [path_length_loop] in H.
    destruct (get_edge_data g u v) as [d|] eqn:E; [|discriminate].
    apply IH in H as [-> HF]. split.
    + cbn [fmap list_fmap fold_left]. f_equal.
      unfold original_length. cbn [fst snd]. rewrite E.
      destruct (edge_length d); reflexivity.
    + constructor; [|exact HF]. unfold has_edge. cbn [fst snd]. by rewrite E.
Qed.

Lemma find_path_inv (s t : node) (rain : Z) (path : list node) (len : xnum) :
  find_danger_aware_shortest_path self s t rain = Ok (Some path, len) ->
  NX.shortest_path (nodes (G self)) (G_temp_weights (G self) rain) s t = Ok path
  /\ exists total, path_length_loop (G self) path 0 = Some total /\ len = Fin total.
Proof.
  unfold find_danger_aware_shortest_path.
  destruct (negb (has_node (G self) s) || negb (has_node (G self) t)); [discriminate|].
  destruct (NX.shortest_path _ _ s t) as [p|e].
  - destruct (path_length_loop (G self) p 0) as [total|] eqn:E; [|discriminate].
    intros [= <- <-]. split; [reflexivity|]. by exists total.
  - destruct e; discriminate.
Qed.

(** C8: whenever [find_danger_aware_shortest_path] returns a path, every
    consecutive pair of it is an edge of the graph and the returned
    length is the sum of the stored, unadjusted [length] of those edges
    (1 for an edge without the attribute); the adjusted weight that
    selected the path does not enter it. *)
Theorem returned_length_is_original (s t : node) (rain : Z)
    (path : list node) (len : xnum) :
  find_danger_aware_shortest_path self s t rain = Ok (Some path, len) ->
  len = Fin (sum_original (G self) path)
  /\ Forall (fun uv => has_edge (G self) uv.1 uv.2 = true) (hops path).
Proof.
  intros H. apply find_path_inv in H as (_ & total & Hloop & ->).
  apply path_length_loop_sum in Hloop as [-> HF]. by split.
Qed.

(** C10: for a node [s] of the graph and any rain intensity, the search
    from [s] to [s] returns the single-node path [[s]] with length 0. *)
Theorem same_source_target (s : node) (rain : Z) :
  s ∈ nodes (G self) ->
  find_danger_aware_shortest_path self s s rain = Ok (Some [s], Fin 0).
Proof.
  intros Hs. unfold find_danger_aware_shortest_path, has_node.
  rewrite (bool_decide_eq_true_2 _ Hs). cbn [negb orb].
  unfold NX.shortest_path, NX.bidirectional_dijkstra.
  rewrite (bool_decide_eq_true_2 _ Hs). cbn [negb].
  rewrite (bool_decide_eq_true_2 (s = s) eq_refl). reflexivity.
Qed.

End PathSearch.

Lemma returned_length_is_original_witness :
  Worker.find_danger_aware_shortest_path Examples.flooded_run 1 2 3
  = Ok (Some [1; 2], Fin 1000)
  /\ Fin 1000 = Fin (sum_original (G Examples.flooded_run) [1; 2])
  /\ Worker.adjusted_weight (e_data (Examples.road 1 0 (Some true) (Some false))) 3
     = Fin (1000 * (1 * 5 / 0.6)).
Proof.
  assert (H : Worker.find_danger_aware_shortest_path Examples.flooded_run 1 2 3
              = Ok (Some [1; 2], Fin 1000))
    by vm_refl.
  split; [exact H|]. split; [|vm_refl].
  exact (proj1 (returned_length_is_original Examples.flooded_run 1 2 3 [1; 2] (Fin 1000) H)).
Defined.

Lemma same_source_target_witness :
  1 ∈ nodes (G Examples.flooded_run)
  /\ Worker.find_danger_aware_shortest_path Examples.flooded_run 1 1 5
     = Ok (Some [1], Fin 0).
Proof.
  assert (H : 1 ∈ nodes (G Examples.flooded_run)) by (vm_compute; apply list_elem_of_here).
  split; [exact H | exact (same_source_target Examples.flooded_run 1 5 H)].
Defined.

(** ** Disaster activation *)

Section Activation.

Import Worker.

Lemma activate_edge_reflag ft lt left_over e acc r :
  activate_edge ft lt (reflag_edge left_over e) acc r = activate_edge ft lt e acc r.
Proof. destruct e as [[u v] d]. reflexivity. Qed.

Lemma activate_loop_reflag ft lt left_over es acc r :
  activate_loop ft lt (reflag_edge left_over <$> es) acc r = activate_loop ft lt es acc r.
Proof.
  revert acc r. induction es as [|e es IH]; intros acc r; [reflexivity|].
  cbn [fmap list_fmap activate_loop]. rewrite activate_edge_reflag.
  destruct (activate_edge ft lt e acc r) as [[e' acc'] r'].
  change (list_fmap _ _ (reflag_edge left_over) es) with (reflag_edge left_over <$> es).
  by rewrite IH.
Qed.

Lemma activate_edge_static ft lt e acc r :
  same_static e (activate_edge ft lt e acc r).1.1
  /\ flags_written (activate_edge ft lt e acc r).1.1.
Proof.
  destruct e as [[u v] d]. unfold same_static, flags_written. cbn.
  repeat split; eauto.
Qed.

Lemma activate_loop_static ft lt es acc r :
  Forall2 (fun e e' => same_static e e' /\ flags_written e')
          es (activate_loop ft lt es acc r).1.1.
Proof.
  revert acc r. induction es as [|e es IH]; intros acc r; [constructor|].
  cbn [activate_loop].
  pose proof (activate_edge_static ft lt e acc r) as He.
  destruct (activate_edge ft lt e acc r) as [[e' acc'] r'].
  specialize (IH acc' r').
  destruct (activate_loop ft lt es acc' r') as [[rest acc''] r''].
  constructor; assumption.
Qed.

(** The flags written to the [i]-th edge are decided by draws [2i] and
    [2i + 1] after the cursor and by the edge's own proneness. *)
Lemma activate_loop_flags ft lt es acc r i e :
  es !! i = Some e ->
  exists e', (activate_loop ft lt es acc r).1.1 !! i = Some e'
    /\ currently_flooded (e_data e')
       = Some (Qltb (stream r (cursor r + 2 * i)%nat) (flood_prone (e_data e) * ft))
    /\ currently_landslide (e_data e')
       = Some (Qltb (stream r (cursor r + 2 * i + 1)%nat) (landslide_prone (e_data e) * lt)).
Proof.
  revert acc r i. induction es as [|x es IH]; intros acc r i Hi; [discriminate|].
  cbn [activate_loop].
  destruct (activate_edge ft lt x acc r) as [[x' acc'] r'] eqn:Ex.
  specialize (IH acc' r').
  destruct (activate_loop ft lt es acc' r') as [[rest acc''] r''] eqn:El.
  destruct x as [[u v] d]. injection Ex as <- <- <-.
  destruct i as [|i].
  - injection Hi as <-. eexists. split; [reflexivity|]. cbn.
    rewrite ?Nat.add_0_r, ?Nat.add_1_r. by split.
  - cbn in Hi. destruct (IH i Hi) as (e' & He' & Hf & Hl). exists e'.
    split; [exact He'|]. cbn [cursor stream] in Hf, Hl. rewrite Hf, Hl.
    replace (cursor r + 2 * S i)%nat with (S (S (cursor r)) + 2 * i)%nat by lia.
    replace (cursor r + 2 * S i + 1)%nat with (S (S (cursor r)) + 2 * i + 1)%nat by lia.
    by split.
Qed.

(** C9: a call to [activate_disasters] leaves the nodes, the worker's
    other fields and every static edge attribute as they were, writes
    both transient flags of every edge, and yields the same graph,
    counters and generator state whatever flags a previous trial left
    on the edges: no flag of an earlier trial survives the call. *)
Theorem activate_disasters_overwrites_every_flag (self : worker) (rain : Z) (r : rng)
    (left_over : edge -> option bool * option bool) :
  nodes (G (activate_disasters self rain r).1.1) = nodes (G self)
  /\ start_node (activate_disasters self rain r).1.1 = start_node self
  /\ delivery_nodes (activate_disasters self rain r).1.1 = delivery_nodes self
  /\ base_speed (activate_disasters self rain r).1.1 = base_speed self
  /\ Forall2 (fun e e' => same_static e e' /\ flags_written e')
             (edges (G self)) (edges (G (activate_disasters self rain r).1.1))
  /\ activate_disasters (reflag left_over self) rain r = activate_disasters self rain r.
Proof.
  unfold activate_disasters.
  pose proof (activate_loop_static (flood_threshold rain) (landslide_threshold rain)
                (edges (G self)) (mk_counts 0 0) r) as Hst.
  pose proof (activate_loop_reflag (flood_threshold rain) (landslide_threshold rain)
                left_over (edges (G self)) (mk_counts 0 0) r) as Hre.
  cbn [reflag G edges nodes start_node delivery_nodes base_speed]. rewrite Hre.
  destruct (activate_loop _ _ (edges (G self)) _ r) as [[es acc] r'].
  repeat split; try reflexivity. exact Hst.
Qed.

End Activation.

(** ** Rain intensities outside 1..5 *)

Section InvalidIntensity.

Import Worker.

Lemma rain_effects_invalid (rain : Z) :
  ~ (1 <= rain <= 5) -> rain_effects !! rain = None.
Proof.
  intros H. unfold rain_effects.
  rewrite !lookup_insert_ne by lia. apply lookup_singleton_ne. lia.
Qed.

Lemma rain_effects_level_1 : rain_intensity_effects 1 = mk_rain 0.10 0.00 1.0.
Proof. reflexivity. Qed.

(** C6, where the code departs from it: an intensity outside 1..5 gets
    the level-1 row of the table, and below 4 [activate_disasters]
    behaves exactly as at intensity 1, as the claim says.  From 4
    upwards, so for every invalid intensity above 5, the guard
    [rain_intensity >= 4] reads the raw value and amplifies the level-1
    row: the flood threshold is 0.10 * 1.2 instead of 0.10 (and the
    landslide threshold 0.00 * 1.3), so with draws of 0.11 the road of
    proneness 1 is flooded at that intensity and stays dry at
    intensity 1. *)
Theorem invalid_intensity_uses_level_1_row (rain : Z) :
  ~ (1 <= rain <= 5) ->
  rain_intensity_effects rain = rain_intensity_effects 1
  /\ (rain < 4 ->
      forall self r, activate_disasters self rain r = activate_disasters self 1 r)
  /\ (4 <= rain ->
      flood_threshold rain = (0.10 * 1.2)%Q /\ landslide_threshold rain = (0.00 * 1.3)%Q
      /\ flood_threshold 1 = 0.10%Q /\ landslide_threshold 1 = 0.00%Q
      /\ flags_of (activate_disasters Examples.fresh_run rain (Examples.constant 0.11)).1.1
         = [(Some true, Some false)]
      /\ flags_of (activate_disasters Examples.fresh_run 1 (Examples.constant 0.11)).1.1
         = [(Some false, Some false)]).
Proof.
  intros Hbad.
  assert (Hrow : rain_intensity_effects rain = rain_intensity_effects 1).
  { unfold rain_intensity_effects at 1. rewrite (rain_effects_invalid rain Hbad).
    symmetry. apply rain_effects_level_1. }
  split; [exact Hrow|]. split.
  - intros Hlow self r. unfold activate_disasters, flood_threshold, landslide_threshold.
    rewrite Hrow. rewrite (bool_decide_eq_false_2 (4 <= rain)) by lia. reflexivity.
  - intros Hhigh.
    assert (Hft : flood_threshold rain = (0.10 * 1.2)%Q).
    { unfold flood_threshold. by rewrite Hrow, (bool_decide_eq_true_2 (4 <= rain) Hhigh). }
    assert (Hlt : landslide_threshold rain = (0.00 * 1.3)%Q).
    { unfold landslide_threshold.
      by rewrite Hrow, (bool_decide_eq_true_2 (4 <= rain) Hhigh). }
    split; [exact Hft|]. split; [exact Hlt|].
    split; [reflexivity|]. split; [reflexivity|].
    split; [|vm_refl]. unfold activate_disasters. rewrite Hft, Hlt. vm_refl.
Qed.

End InvalidIntensity.

Lemma invalid_intensity_uses_level_1_row_witness :
  ~ (1 <= 6 <= 5)
  /\ rain_intensity_effects 6 = rain_intensity_effects 1
  /\ Worker.flood_threshold 6 = (0.10 * 1.2)%Q
  /\ flags_of (Worker.activate_disasters Examples.fresh_run 6 (Examples.constant 0.11)).1.1
     = [(Some true, Some false)]
  /\ flags_of (Worker.activate_disasters Examples.fresh_run 1 (Examples.constant 0.11)).1.1
     = [(Some false, Some false)]
  /\ ~ (1 <= 0 <= 5)
  /\ Worker.activate_disasters Examples.fresh_run 0 (Examples.constant 0.11)
     = Worker.activate_disasters Examples.fresh_run 1 (Examples.constant 0.11).
Proof.
  assert (H6 : ~ (1 <= 6 <= 5)) by lia.
  assert (H0 : ~ (1 <= 0 <= 5)) by lia.
  assert (H46 : 4 <= 6) by lia.
  assert (H04 : 0 < 4) by lia.
  pose proof (invalid_intensity_uses_level_1_row 6 H6) as (Hrow & _ & Hhigh).
  pose proof (invalid_intensity_uses_level_1_row 0 H0) as (_ & Hlow & _).
  destruct (Hhigh H46) as (Hft & _ & _ & _ & Hwet & Hdry).
  split; [exact H6|]. split; [exact Hrow|]. split; [exact Hft|].
  split; [exact Hwet|]. split; [exact Hdry|]. split; [exact H0|].
  exact (Hlow H04 Examples.fresh_run (Examples.constant 0.11)).
Defined.

(** ** A flooded road at rain intensity 5 *)

Section FloodedRoad.

Import Worker Examples.

(** C1, on the code: at rain intensity 5 the only road A -> B is flooded
    and its adjusted weight is +inf, yet the search from A to B returns
    the path A, B over that road with length 1000 rather than no path:
    an edge of infinite weight stays an edge for the shortest-path
    search. *)
Theorem flooded_road_is_still_routed :
  Forall (fun e => is_flooded (e_data e) = true) (edges (G flooded_run))
  /\ G_temp_weights (G flooded_run) 5 = [(1, 2, PInf)]
  /\ NX.shortest_path (nodes (G flooded_run)) [(1, 2, PInf)] 1 2 = Ok [1; 2]
  /\ find_danger_aware_shortest_path flooded_run 1 2 5 = Ok (Some [1; 2], Fin 1000).
Proof.
  split; [repeat constructor|].
  split; [vm_refl|]. split; vm_refl.
Qed.

Lemma flooding_is_certain (r : rng) :
  unit_draws r ->
  (activate_disasters fresh_run 5 r).1.1 = flooded_run
  /\ (activate_disasters fresh_run 5 r).1.2 = mk_counts 1 0.
Proof.
  intros Hr. destruct (Hr (cursor r)) as [_ Hlt1]. destruct (Hr (S (cursor r))) as [Hge0 _].
  assert (Hf : Qltb (stream r (cursor r)) (1 * flood_threshold 5) = true).
  { apply Qltb_lt. eapply Qlt_le_trans; [exact Hlt1|]. vm_compute. discriminate. }
  assert (Hl : Qltb (stream r (S (cursor r))) (0 * landslide_threshold 5) = false).
  { clear Hf. destruct (Qltb _ _) eqn:E; [|reflexivity]. apply Qltb_lt in E.
    exfalso. apply (Qlt_not_le _ _ E). eapply Qle_trans; [|exact Hge0].
    vm_compute. discriminate. }
  unfold activate_disasters, fresh_run, flooded_run, courier, two_nodes, road,
    MonteCarloSimulationWorker.
  cbn [G edges nodes start_node delivery_nodes base_speed activate_loop activate_edge
       random_random flood_prone landslide_prone edge_length stream cursor fst snd].
  rewrite Hf, Hl. split; reflexivity.
Qed.

(** C2, on the code: in the two-node scenario at rain intensity 5
    [activate_disasters] always floods the road (and never sets the
    landslide flag), and the trial that follows fails; the route A, B is
    built over the flooded road, so the trial fails while moving, with
    reason "Encountered blocked road", zero distance and time and no
    delivery, not with "No valid route found initially". *)
Theorem flooded_scenario_trial (r : rng) :
  unit_draws r ->
  flags_of (activate_disasters fresh_run 5 r).1.1 = [(Some true, Some false)]
  /\ find_disaster_aware_route (activate_disasters fresh_run 5 r).1.1 1 [2] 5
     = Ok (Some [1; 2], Fin 1000, Some [1; 2])
  /\ simulate_delivery (activate_disasters fresh_run 5 r).1.1 5
     = Ok {[ "reroutes" := VInt 0;
             "success" := VBool false;
             "distance" := VNum 0;
             "time" := VNum 0;
             "deliveries_made" := VInt 0;
             "disaster_encounters" := VDict (counts_dict (mk_counts 0 0));
             "reason" := VStr "Encountered blocked road" ]}.
Proof.
  intros Hr. destruct (flooding_is_certain r Hr) as [-> _].
  split; [reflexivity|]. split; vm_refl.
Qed.

End FloodedRoad.

Lemma flooded_scenario_trial_witness :
  unit_draws (Examples.constant 0.5)
  /\ flags_of (Worker.activate_disasters Examples.fresh_run 5 (Examples.constant 0.5)).1.1
     = [(Some true, Some false)].
Proof.
  assert (H : unit_draws (Examples.constant 0.5)).
  { intros n. split; vm_compute; [discriminate | reflexivity]. }
  split; [exact H | exact (proj1 (flooded_scenario_trial (Examples.constant 0.5) H))].
Defined.

(** ** Building the route *)

Section Routing.

Import Worker.

Variable self : worker.
Variable rain : Z.

Lemma find_path_needs_endpoints (s t : node) (path : option (list node)) (len : xnum) :
  find_danger_aware_shortest_path self s t rain = Ok (path, len) ->
  truthy_list path = true ->
  s ∈ nodes (G self) /\ t ∈ nodes (G self).
Proof.
  unfold find_danger_aware_shortest_path, has_node.
  destruct (bool_decide (s ∈ nodes (G self))) eqn:Es;
    destruct (bool_decide (t ∈ nodes (G self))) eqn:Et; cbn [negb orb];
    try (intros [= <- <-]; discriminate).
  intros _ _. apply bool_decide_eq_true in Es, Et. by split.
Qed.

(** The scan only ever selects one of the candidates, a node of the
    graph reached from a current node of the graph. *)
Lemma nearest_selects (current : node) (cands : list node)
    (best best' : option node * xnum * option (list node)) (n : node) :
  nearest self current rain cands best = Ok best' ->
  best'.1.1 = Some n ->
  best.1.1 = Some n \/ (current ∈ nodes (G self) /\ n ∈ nodes (G self) /\ n ∈ cands).
Proof.
  revert best. induction cands as [|c cands IH]; intros best H Hn.
  - injection H as <-. by left.
  - cbn [nearest] in H.
    destruct (find_danger_aware_shortest_path self current c rain) as [[p d]|e] eqn:E;
      [|discriminate].
    cbn [mbind res_bind] in H. destruct best as [[bn bd] bp].
    destruct (truthy_list p && xltb d bd) eqn:T.
    + apply andb_true_iff in T as [Tp _].
      destruct (find_path_needs_endpoints _ _ _ _ E Tp) as [Hc Hcn].
      destruct (IH _ H Hn) as [Hb | (? & ? & ?)].
      * cbn in Hb. injection Hb as <-. right. repeat split; try assumption. set_solver.
      * right. repeat split; try assumption. set_solver.
    + destruct (IH _ H Hn) as [Hb | (? & ? & ?)]; [by left|].
      right. repeat split; try assumption. set_solver.
Qed.

Lemma nearest_from_nothing (current : node) (cands : list node)
    (best' : option node * xnum * option (list node)) (n : node) :
  nearest self current rain cands (None, PInf, None) = Ok best' ->
  best'.1.1 = Some n ->
  current ∈ nodes (G self) /\ n ∈ nodes (G self) /\ n ∈ cands.
Proof.
  intros H Hn.
  destruct (nearest_selects current cands _ _ n H Hn) as [Hb|Hb];
    [discriminate Hb | exact Hb].
Qed.

(** With a current node outside the graph the scan selects nothing. *)
Lemma nearest_from_outside (current : node) (cands : list node) :
  current ∉ nodes (G self) ->
  nearest self current rain cands (None, PInf, None) = Ok (None, PInf, None).
Proof.
  intros Hout. induction cands as [|c cands IH]; [reflexivity|].
  cbn [nearest]. unfold find_danger_aware_shortest_path at 1, has_node.
  rewrite (bool_decide_eq_false_2 _ Hout). cbn [negb orb mbind res_bind truthy_list andb].
  exact IH.
Qed.

(** What the loop maintains: the stops it appends are the nodes that
    were still to visit, each a node of the graph. *)
Lemma route_loop_stops (fuel : nat) (unvisited : gset node) (current : node)
    (route path_sequence : list node) (total : xnum)
    (route' : list node) (total' : xnum) (ps' : option (list node)) :
  route_loop self rain fuel unvisited current route path_sequence total
  = Ok (Some route', total', ps') ->
  exists extra, route' = route ++ extra
    /\ (list_to_set extra : gset node) = unvisited
    /\ Forall (fun n => n ∈ nodes (G self)) extra.
Proof.
  revert unvisited current route path_sequence total.
  induction fuel as [|fuel IH]; intros unvisited current route ps total H.
  - cbn [route_loop] in H. case_bool_decide as Hu; [|discriminate].
    injection H as <- <- <-. exists []. rewrite app_nil_r. by repeat split.
  - cbn [route_loop] in H. case_bool_decide as Hu.
    { injection H as <- <- <-. exists []. rewrite app_nil_r. by repeat split. }
    destruct (nearest self current rain (elements unvisited) (None, PInf, None))
      as [[[nn sd] sp]|e] eqn:En; [|discriminate].
    cbn [mbind res_bind] in H.
    destruct nn as [n|]; [|discriminate].
    destruct (truthy_node (Some n)); [|discriminate].
    destruct (nearest_from_nothing _ _ _ n En eq_refl) as (_ & Hnode & Hin).
    apply elem_of_elements in Hin.
    apply IH in H as (extra & -> & Hset & Hall).
    exists (n :: extra). split; [by rewrite <- app_assoc|]. split.
    + cbn [list_to_set foldr]. rewrite Hset. apply set_eq. intros x.
      rewrite elem_of_union, elem_of_difference, !elem_of_singleton.
      destruct (decide (x = n)) as [->|Hne]; split.
      * intros _. exact Hin.
      * intros _. by left.
      * intros [Heq|[Hx _]]; [contradiction | exact Hx].
      * intros Hx. right. by split.
    + by constructor.
Qed.

(** A route that is built lists, after the start node, exactly the
    delivery nodes, all of them nodes of the graph. *)
Lemma route_stops_are_deliveries (start : node) (deliveries route : list node)
    (total : xnum) (ps : option (list node)) :
  find_disaster_aware_route self start deliveries rain = Ok (Some route, total, ps) ->
  (forall n, n ∈ drop 1 route <-> n ∈ deliveries)
  /\ Forall (fun n => n ∈ nodes (G self)) deliveries.
Proof.
  unfold find_disaster_aware_route. intros H.
  apply route_loop_stops in H as (extra & -> & Hset & Hall).
  cbn [app drop]. split.
  - intros n. rewrite <- (elem_of_list_to_set (C := gset node) n extra), Hset.
    apply elem_of_list_to_set.
  - apply Forall_forall. intros d Hd.
    assert (Hx : d ∈ extra).
    { apply (elem_of_list_to_set (C := gset node)). rewrite Hset.
      by apply elem_of_list_to_set. }
    rewrite Forall_forall in Hall. by apply Hall.
Qed.

(** No route is built from a start node outside the graph. *)
Lemma no_route_from_outside (start : node) (deliveries : list node) :
  deliveries <> [] ->
  start ∉ nodes (G self) ->
  find_disaster_aware_route self start deliveries rain = Ok (None, Fin 0, None).
Proof.
  intros Hne Hout. unfold find_disaster_aware_route.
  assert (Hset : (list_to_set deliveries : gset node) <> ∅).
  { destruct deliveries as [|d ds]; [done|]. set_solver. }
  destruct (size (list_to_set deliveries : gset node)) as [|k] eqn:Hk.
  { apply size_empty_inv in Hk. exfalso. apply Hset. by apply leibniz_equiv. }
  cbn [route_loop]. rewrite (bool_decide_eq_false_2 _ Hset).
  rewrite (nearest_from_outside start _ Hout). reflexivity.
Qed.

End Routing.

(** ** The route loop stays within its iteration bound *)

Section RouteTermination.

Import Worker.

Variable self : worker.
Variable rain : Z.

Lemma shortest_path_terminates (ns : list node) (es : list NX.wedge) (s t : node) :
  NX.shortest_path ns es s t <> Raise LoopBound.
Proof.
  unfold NX.shortest_path, mbind, res_bind.
  destruct (NX.bidirectional_dijkstra ns es s t) as [[d p]|e] eqn:E; [discriminate|].
  intros [= ->]. by apply bidirectional_dijkstra_terminates in E.
Qed.

Lemma find_path_terminates (s t : node) :
  find_danger_aware_shortest_path self s t rain <> Raise LoopBound.
Proof.
  unfold find_danger_aware_shortest_path.
  destruct (_ || _); [discriminate|].
  destruct (NX.shortest_path _ _ s t) as [p|e] eqn:E.
  - destruct (path_length_loop _ _ _); discriminate.
  - destruct e; try discriminate. by apply shortest_path_terminates in E.
Qed.

Lemma nearest_terminates (current : node) (cands : list node)
    (best : option node * xnum * option (list node)) :
  nearest self current rain cands best <> Raise LoopBound.
Proof.
  revert best. induction cands as [|c cands IH]; intros best; [discriminate|].
  cbn [nearest]. unfold mbind, res_bind.
  destruct (find_danger_aware_shortest_path self current c rain) as [[p d]|e] eqn:E.
  - destruct best as [[bn bd] bp]. destruct (_ && _); apply IH.
  - intros [= ->]. by apply find_path_terminates in E.
Qed.

Lemma route_loop_terminates (fuel : nat) (unvisited : gset node) (current : node)
    (route path_sequence : list node) (total : xnum) :
  (size unvisited <= fuel)%nat ->
  route_loop self rain fuel unvisited current route path_sequence total <> Raise LoopBound.
Proof.
  revert unvisited current route path_sequence total.
  induction fuel as [|fuel IH]; intros unvisited current route ps total Hsize.
  - cbn [route_loop]. case_bool_decide as Hu; [discriminate|].
    exfalso. apply Hu. apply leibniz_equiv, size_empty_inv. lia.
  - cbn [route_loop]. case_bool_decide as Hu; [discriminate|].
    unfold mbind, res_bind.
    destruct (nearest self current rain (elements unvisited) (None, PInf, None))
      as [[[nn sd] sp]|e] eqn:En.
    2:{ intros [= ->]. by apply nearest_terminates in En. }
    destruct nn as [n|]; [|discriminate].
    destruct (truthy_node (Some n)); [|discriminate].
    destruct (nearest_from_nothing self rain _ _ _ n En eq_refl) as (_ & _ & Hin).
    apply elem_of_elements in Hin. apply IH.
    assert (Hs : size unvisited = S (size (unvisited ∖ {[n]}))).
    { rewrite (union_difference_L {[n]} unvisited) at 1
        by (by apply singleton_subseteq_l).
      rewrite size_union by (apply disjoint_difference_r1; reflexivity).
      by rewrite size_singleton. }
    lia.
Qed.

(** A trial never stops at an iteration bound of the model. *)
Lemma simulate_delivery_terminates :
  simulate_delivery self rain <> Raise LoopBound.
Proof.
  unfold simulate_delivery, find_disaster_aware_route, mbind, res_bind.
  destruct (route_loop _ _ _ _ _ _ _ _) as [[[route total] ps]|e] eqn:E.
  - destruct (negb _); [discriminate|].
    destruct (simulate_movement _ _ _ _) as [[[[[? ?] ?] ?] ?] ?]. discriminate.
  - intros [= ->]. apply route_loop_terminates in E; [exact E | reflexivity].
Qed.

End RouteTermination.

(** ** Trials and the orchestrator *)

Section Trials.

Import Worker.

Lemma empty_delivery_set_succeeds (self : worker) (rain : Z) :
  delivery_nodes self = [] ->
  simulate_delivery self rain = Ok nothing_to_deliver.
Proof.
  intros He. unfold simulate_delivery, find_disaster_aware_route, simulate_movement.
  rewrite He. reflexivity.
Qed.

Lemma absent_start_gives_no_route (self : worker) (rain : Z) :
  delivery_nodes self <> [] ->
  start_node self ∉ nodes (G self) ->
  simulate_delivery self rain = Ok no_route_result.
Proof.
  intros Hne Hout. unfold simulate_delivery.
  rewrite (no_route_from_outside self rain _ _ Hne Hout). reflexivity.
Qed.

Lemma absent_delivery_gives_no_route (self : worker) (rain : Z) (d : node)
    (result : gmap string pyval) :
  d ∈ delivery_nodes self ->
  d ∉ nodes (G self) ->
  simulate_delivery self rain = Ok result ->
  result = no_route_result.
Proof.
  intros Hd Hout. unfold simulate_delivery.
  destruct (find_disaster_aware_route self (start_node self) (delivery_nodes self) rain)
    as [[[route total] ps]|e] eqn:E; [|discriminate].
  cbn [mbind res_bind].
  destruct route as [route|]; [|by intros [= <-]].
  apply route_stops_are_deliveries in E as [_ Hall].
  rewrite Forall_forall in Hall. destruct (Hout (Hall d Hd)).
Qed.

(** C5, as the code has it: constructing an orchestrator stores its
    arguments and cannot fail, whatever the delivery set and the nodes
    are.  The trials then run: with an empty delivery set a trial reports
    success ("All deliveries completed", nothing delivered); with a
    non-empty delivery set and a start node outside the graph a trial
    reports "No valid route found initially", and so does every trial
    that returns when a delivery node is outside the graph. *)
Theorem construction_validates_nothing (g : DiGraph) (start : node)
    (deliveries : list node) (ideal : Q) (name : string) (speed : Q) (points rain : Z) :
  MonteCarlo.MonteCarloSimulation g start deliveries ideal name speed points
  = Ok (mk_simulation speed points g 0 start deliveries ideal None [] name)
  /\ (deliveries = [] ->
      simulate_delivery (MonteCarloSimulationWorker g start deliveries speed) rain
      = Ok nothing_to_deliver)
  /\ (deliveries <> [] -> start ∉ nodes g ->
      simulate_delivery (MonteCarloSimulationWorker g start deliveries speed) rain
      = Ok no_route_result)
  /\ (forall d result, d ∈ deliveries -> d ∉ nodes g ->
      simulate_delivery (MonteCarloSimulationWorker g start deliveries speed) rain
      = Ok result ->
      result = no_route_result).
Proof.
  split; [reflexivity|]. split; [|split].
  - intros He. by apply empty_delivery_set_succeeds.
  - intros Hne Hout. by apply absent_start_gives_no_route.
  - intros d result Hd Hout. by apply absent_delivery_gives_no_route with (d := d).
Qed.

End Trials.

Lemma construction_validates_nothing_witness :
  Worker.simulate_delivery
    (Worker.MonteCarloSimulationWorker (Examples.two_nodes 0 0 None None) 1 [] 500) 3
  = Ok nothing_to_deliver
  /\ Worker.simulate_delivery
       (Worker.MonteCarloSimulationWorker Scenarios.no_road 3 [2] 500) 3
     = Ok Worker.no_route_result.
Proof.
  split.
  - apply (construction_validates_nothing (Examples.two_nodes 0 0 None None) 1 [] 2
             "Process-1" 500 7 3). reflexivity.
  - apply (construction_validates_nothing Scenarios.no_road 3 [2] 2 "Process-1" 500 7 3).
    + discriminate.
    + cbn [Scenarios.no_road nodes]. rewrite !not_elem_of_cons.
      repeat split; [discriminate..|apply not_elem_of_nil].
Defined.

(** C5 as stated fails: an orchestrator for an empty delivery set is
    constructed without error, and its run of one trial returns and
    records a success. *)
Lemma empty_delivery_set_is_accepted :
  Scenarios.idle_orchestrator = Ok Scenarios.idle
  /\ (MonteCarlo.run_simulation Scenarios.idle 1 1 Scenarios.half).2 = Ok ()
  /\ (fun record : gmap string pyval => (record !! "success", record !! "reason"))
       <$> all_runs (MonteCarlo.run_simulation Scenarios.idle 1 1 Scenarios.half).1.1
     = [(Some (VBool true), Some (VStr "All deliveries completed"))].
Proof. split; [reflexivity|]. split; vm_refl. Qed.

(** ** The record of a trial without route *)

(** C4, on the code: with no road from A to B the trial returns the
    no-route record: success false, distance 0 and time 0, but no
    [deliveries_made] entry and an empty [disaster_encounters], without
    floods or landslides count; the record the orchestrator stores for
    the trial only adds [rain_intensity] and [activated_disasters]. *)
Theorem no_route_record_lacks_fields :
  Worker.simulate_delivery (Examples.courier Scenarios.no_road [2]) 1
  = Ok Worker.no_route_result
  /\ Worker.no_route_result !! "success" = Some (VBool false)
  /\ Worker.no_route_result !! "distance" = Some (VNum 0)
  /\ Worker.no_route_result !! "time" = Some (VNum 0)
  /\ Worker.no_route_result !! "deliveries_made" = None
  /\ Worker.no_route_result !! "disaster_encounters" = Some (VDict ∅)
  /\ MonteCarlo.MonteCarloSimulation Scenarios.no_road 1 [2] 2 "Process-1" 500 7
     = Ok Scenarios.stranded
  /\ (fun record : gmap string pyval =>
        (record !! "rain_intensity", record !! "activated_disasters",
         record !! "deliveries_made", record !! "disaster_encounters"))
       <$> all_runs (MonteCarlo.run_simulation Scenarios.stranded 1 1 Scenarios.half).1.1
     = [(Some (VInt 1), Some (VDict (counts_dict (mk_counts 0 0))), None, Some (VDict ∅))].
Proof.
  split; [vm_refl|]. do 5 (split; [vm_refl|]). split; [reflexivity | vm_refl].
Qed.

(** ** The worker process *)

Section WorkerProcess.

Import Coordinator.

(** C3, on the code: when the orchestrator run raises, the worker puts
    the failure marker on the queue and then, falling through to the
    statement after the handler, the simulation object as well: the
    queue receives both, the marker first. *)
Theorem failed_run_queues_marker_and_object (g : DiGraph) (start : node)
    (deliveries : list node) (ideal : Q) (severity num_simulations : Z) (name : string)
    (rs : rngs) (s : simulation) (e : exn) :
  MonteCarlo.MonteCarloSimulation g start deliveries ideal name 500 7 = Ok s ->
  (MonteCarlo.run_simulation s num_simulations severity rs).2 = Raise e ->
  process_worker g start deliveries ideal severity num_simulations name rs
  = ([None; Some (MonteCarlo.run_simulation s num_simulations severity rs).1.1], Ok ()).
Proof.
  intros Hs Hrun. unfold process_worker. rewrite Hs.
  destruct (MonteCarlo.run_simulation s num_simulations severity rs) as [[s' rs'] o].
  cbn [fst snd] in *. subst o. reflexivity.
Qed.

(** A run that returns queues the simulation object alone. *)
Lemma finished_run_queues_object (g : DiGraph) (start : node)
    (deliveries : list node) (ideal : Q) (severity num_simulations : Z) (name : string)
    (rs : rngs) (s : simulation) :
  MonteCarlo.MonteCarloSimulation g start deliveries ideal name 500 7 = Ok s ->
  (MonteCarlo.run_simulation s num_simulations severity rs).2 = Ok () ->
  process_worker g start deliveries ideal severity num_simulations name rs
  = ([Some (MonteCarlo.run_simulation s num_simulations severity rs).1.1], Ok ()).
Proof.
  intros Hs Hrun. unfold process_worker. rewrite Hs.
  destruct (MonteCarlo.run_simulation s num_simulations severity rs) as [[s' rs'] o].
  cbn [fst snd] in *. subst o. reflexivity.
Qed.

(** What the two messages do to the collection loop: with two
    processes started it reads the marker and the object of the failed
    run, and never the message of the other process. *)
Lemma failed_run_displaces_sibling (bad good : simulation) :
  collect 2 [None; Some bad; Some good] = [bad].
Proof. reflexivity. Qed.

End WorkerProcess.

(** Weather severity 6 has no row in the rainfall table: the first trial
    raises [KeyError], and the queue receives the marker followed by the
    simulation object, which still holds no trial. *)
Lemma failed_run_queues_marker_and_object_witness :
  (MonteCarlo.run_simulation
     (mk_simulation 500 7 Scenarios.no_road 0 1 [2] 2 None [] "Process-6") 1 6
     Scenarios.half).2 = Raise KeyError
  /\ Coordinator.process_worker Scenarios.no_road 1 [2] 2 6 1 "Process-6" Scenarios.half
     = ([None; Some (mk_simulation 500 7 Scenarios.no_road 0 1 [2] 2 (Some 6) [] "Process-6")],
        Ok ()).
Proof.
  assert (H : (MonteCarlo.run_simulation
                 (mk_simulation 500 7 Scenarios.no_road 0 1 [2] 2 None [] "Process-6") 1 6
                 Scenarios.half).2 = Raise KeyError) by vm_refl.
  split; [exact H|].
  exact (failed_run_queues_marker_and_object Scenarios.no_road 1 [2] 2 6 1 "Process-6"
           Scenarios.half _ KeyError eq_refl H).
Defined.

(** ** Movement *)

Section Movement.

Import Worker.

Variable self : worker.
Variable rain : Z.

Lemma fail_at_not_completed (st : move_state) (reason : string) :
  reason <> "All deliveries completed" -> reason <> "Some deliveries missed" ->
  ~ completed (fail_at st reason).
Proof. intros H1 H2 [H|H]; cbn in H; contradiction. Qed.

Lemma remaining_step (R dset X : gset node) (v : node) :
  (if bool_decide (v ∈ dset) then R ∖ {[v]} else R) ∖ (dset ∩ X)
  = R ∖ (dset ∩ ({[v]} ∪ X)).
Proof.
  apply set_eq. intros x. case_bool_decide as Hv; set_unfold.
  - split; [intros [[HR Hx] Hn] | intros [HR Hn]].
    + split; [exact HR|]. intros [Hd [->|HX]]; [by apply Hx | apply Hn; by split].
    + split; [split; [exact HR|] |].
      * intros ->. apply Hn. split; [exact Hv | by left].
      * intros [Hd HX]. apply Hn. split; [exact Hd | by right].
  - split; intros [HR Hn]; (split; [exact HR|]).
    + intros [Hd [->|HX]]; [contradiction | apply Hn; by split].
    + intros [Hd HX]. apply Hn. split; [exact Hd | by right].
Qed.

Lemma visited_step (V dset X : gset node) (v : node) :
  (if bool_decide (v ∈ dset) then {[v]} ∪ V else V) ∪ (dset ∩ X)
  = V ∪ (dset ∩ ({[v]} ∪ X)).
Proof.
  apply set_eq. intros x. case_bool_decide as Hv; set_unfold.
  - split.
    + intros [[->|HV]|[Hd HX]]; [right; split; [exact Hv | by left] | by left | right; split; [exact Hd | by right]].
    + intros [HV|[Hd [->|HX]]]; [left; by right | left; by left | right; by split].
  - split.
    + intros [HV|[Hd HX]]; [by left | right; split; [exact Hd | by right]].
    + intros [HV|[Hd [->|HX]]]; [by left | contradiction | right; by split].
Qed.

(** At the end of a completed walk, the visited set has gained, and the
    remaining set has lost, the stops of the route arrived at. *)
Lemma move_loop_completed (dset : gset node) (path : list node) (st : move_state) :
  completed (move_loop self rain dset path st) ->
  m_success (move_loop self rain dset path st)
  = bool_decide (size (remaining_delivery_nodes st ∖ (dset ∩ list_to_set (drop 1 path))) = 0%nat)
  /\ m_deliveries_made (move_loop self rain dset path st)
     = Z.of_nat (size (visited_delivery_nodes st ∪ (dset ∩ list_to_set (drop 1 path)))).
Proof.
  revert st. induction path as [|u [|v rest] IH]; intros st Hc.
  - cbn [drop list_to_set foldr].
    rewrite intersection_empty_r_L, difference_empty_L, union_empty_r_L. by split.
  - cbn [drop list_to_set foldr].
    rewrite intersection_empty_r_L, difference_empty_L, union_empty_r_L. by split.
  - cbn [move_loop] in Hc |- *.
    destruct (get_edge_data (G self) u v) as [d|].
    2:{ exfalso. revert Hc. by apply fail_at_not_completed. }
    destruct (is_edge_blocked d rain).
    { exfalso. revert Hc. by apply fail_at_not_completed. }
    destruct (Qle_bool _ 0).
    { exfalso. revert Hc. by apply fail_at_not_completed. }
    destruct (IH _ Hc) as [Hs Hm]. split.
    + etrans; [exact Hs|]. cbn [remaining_delivery_nodes drop].
      by rewrite remaining_step, list_to_set_cons.
    + etrans; [exact Hm|]. cbn [visited_delivery_nodes drop].
      by rewrite visited_step, list_to_set_cons.
Qed.

Lemma move_loop_success_completed (dset : gset node) (path : list node) (st : move_state) :
  m_success (move_loop self rain dset path st) = true ->
  m_reason (move_loop self rain dset path st) = "All deliveries completed".
Proof.
  revert st. induction path as [|u [|v rest] IH]; intros st.
  - cbn. by intros ->.
  - cbn. by intros ->.
  - cbn [move_loop]. destruct (get_edge_data (G self) u v) as [d|]; [|discriminate].
    destruct (is_edge_blocked d rain); [discriminate|].
    destruct (Qle_bool _ 0); [discriminate|]. apply IH.
Qed.

(** The outcome of a completed walk in terms of the delivery set, the
    stops of the route and the nodes arrived at. *)
Lemma simulate_movement_completed (route path : list node) :
  completed (simulate_movement self route path rain) ->
  m_success (simulate_movement self route path rain)
  = bool_decide (size ((list_to_set (delivery_nodes self) : gset node)
                       ∖ (list_to_set (drop 1 route) ∩ list_to_set (drop 1 path))) = 0%nat)
  /\ m_deliveries_made (simulate_movement self route path rain)
     = Z.of_nat (size ((list_to_set (drop 1 route) : gset node) ∩ list_to_set (drop 1 path))).
Proof.
  unfold simulate_movement. intros Hc.
  destruct (move_loop_completed _ _ _ Hc) as [Hs Hm]. rewrite Hs, Hm.
  cbn [remaining_delivery_nodes visited_delivery_nodes].
  by rewrite union_empty_l_L.
Qed.

(** Set facts behind the success test: nothing remains of [D] once the
    arrived stops are removed exactly when the walk covers [D]. *)
Lemma nothing_remains_iff (D P : gset node) :
  size (D ∖ (D ∩ P)) = 0%nat <-> D ⊆ P.
Proof.
  rewrite size_empty_iff. split.
  - intros He x Hx. destruct (decide (x ∈ P)) as [HP|HP]; [exact HP|].
    exfalso. apply (not_elem_of_empty (C := gset node) x). apply He.
    apply elem_of_difference. split; [exact Hx|]. rewrite elem_of_intersection. tauto.
  - intros Hsub x. split; [|intros Hx; by apply not_elem_of_empty in Hx].
    rewrite elem_of_difference, elem_of_intersection. intros [Hx Hn].
    exfalso. apply Hn. split; [exact Hx | by apply Hsub].
Qed.

Lemma covered_intersection (D P : gset node) : D ⊆ P -> D ∩ P = D.
Proof.
  intros Hsub. apply set_eq. intros x. rewrite elem_of_intersection.
  split; [tauto|]. intros Hx. split; [exact Hx | by apply Hsub].
Qed.

(** C7: for a route of the delivery set (its stops after the start
    node are exactly the delivery nodes, as in every route the router
    builds) and a walk that reaches the end of the path, success holds
    if and only if every delivery node is arrived at along the walk; a
    success made as many deliveries as there are delivery nodes, and
    fewer deliveries than that mean failure.  The number of delivery
    nodes is the size of the delivery set, which is [len(delivery_nodes)]
    for a list without repetition. *)
Theorem success_iff_every_delivery_reached (route path : list node) :
  completed (simulate_movement self route path rain) ->
  (forall n, n ∈ drop 1 route <-> n ∈ delivery_nodes self) ->
  (m_success (simulate_movement self route path rain) = true
   <-> forall d, d ∈ delivery_nodes self -> d ∈ drop 1 path)
  /\ (m_success (simulate_movement self route path rain) = true ->
      m_deliveries_made (simulate_movement self route path rain) = delivery_count self)
  /\ (m_deliveries_made (simulate_movement self route path rain) < delivery_count self ->
      m_success (simulate_movement self route path rain) = false)
  /\ (NoDup (delivery_nodes self) ->
      delivery_count self = Z.of_nat (length (delivery_nodes self))).
Proof.
  intros Hc Hroute.
  assert (Hlen : NoDup (delivery_nodes self) ->
                 delivery_count self = Z.of_nat (length (delivery_nodes self))).
  { intros Hnd. unfold delivery_count. by rewrite size_list_to_set. }
  cut ((m_success (simulate_movement self route path rain) = true
        <-> forall d, d ∈ delivery_nodes self -> d ∈ drop 1 path)
       /\ (m_success (simulate_movement self route path rain) = true ->
           m_deliveries_made (simulate_movement self route path rain) = delivery_count self)
       /\ (m_deliveries_made (simulate_movement self route path rain) < delivery_count self ->
           m_success (simulate_movement self route path rain) = false)).
  { intros (H1 & H2 & H3). exact (conj H1 (conj H2 (conj H3 Hlen))). }
  clear Hlen.
  destruct (simulate_movement_completed route path Hc) as [Hs Hm].
  rewrite Hs, Hm. unfold delivery_count.
  set (D := list_to_set (delivery_nodes self) : gset node).
  set (P := list_to_set (drop 1 path) : gset node).
  assert (HSD : (list_to_set (drop 1 route) : gset node) = D).
  { apply set_eq. intros x. unfold D. rewrite !elem_of_list_to_set. apply Hroute. }
  rewrite HSD.
  assert (Hall : D ⊆ P <-> forall d, d ∈ delivery_nodes self -> d ∈ drop 1 path).
  { unfold D, P. split.
    - intros Hsub d Hd. apply (elem_of_list_to_set (C := gset node)).
      apply Hsub. by apply elem_of_list_to_set.
    - intros H x Hx. apply elem_of_list_to_set. apply H.
      by apply (elem_of_list_to_set (C := gset node)). }
  split; [|split].
  - rewrite bool_decide_eq_true, nothing_remains_iff. exact Hall.
  - rewrite bool_decide_eq_true, nothing_remains_iff. intros Hsub.
    by rewrite (covered_intersection D P Hsub).
  - intros Hlt. apply bool_decide_eq_false. rewrite nothing_remains_iff. intros Hsub.
    rewrite (covered_intersection D P Hsub) in Hlt. lia.
Qed.

Lemma successful_movement_delivers_all (route path : list node) :
  (forall n, n ∈ drop 1 route <-> n ∈ delivery_nodes self) ->
  m_success (simulate_movement self route path rain) = true ->
  m_deliveries_made (simulate_movement self route path rain) = delivery_count self.
Proof.
  intros Hroute Hsucc.
  assert (Hc : completed (simulate_movement self route path rain)).
  { left. unfold simulate_movement in *. by apply move_loop_success_completed. }
  destruct (simulate_movement_completed route path Hc) as [Hs Hm].
  rewrite Hm. rewrite Hs in Hsucc. unfold delivery_count.
  assert (HSD : (list_to_set (drop 1 route) : gset node) = list_to_set (delivery_nodes self)).
  { apply set_eq. intros x. rewrite !elem_of_list_to_set. apply Hroute. }
  rewrite HSD in *. apply bool_decide_eq_true in Hsucc. apply nothing_remains_iff in Hsucc.
  by rewrite (covered_intersection _ _ Hsucc).
Qed.

End Movement.

(** X10: Every trial that reports success made as many deliveries as there
    are delivery nodes. *)
Lemma successful_trial_delivers_all (self : worker) (rain : Z) (result : gmap string pyval) :
  Worker.simulate_delivery self rain = Ok result ->
  result !! "success" = Some (VBool true) ->
  result !! "deliveries_made" = Some (VInt (delivery_count self)).
Proof.
  unfold Worker.simulate_delivery.
  destruct (Worker.find_disaster_aware_route self (start_node self) (delivery_nodes self) rain)
    as [[[route total] ps]|e] eqn:E; [|discriminate].
  cbn [mbind res_bind].
  destruct (Worker.truthy_list route) eqn:T; cbn [negb].
  2:{ intros [= <-] H. vm_compute in H. discriminate H. }
  destruct route as [route|]; [|discriminate].
  apply route_stops_are_deliveries in E as [Hstops _].
  change (default [] (Some route)) with route.
  pose proof (successful_movement_delivers_all self rain route (default [] ps) Hstops) as Hmade.
  destruct (Worker.simulate_movement self route (default [] ps) rain)
    as [[[[[success distance] time] made] enc] reason].
  unfold m_success, m_deliveries_made in Hmade. cbn [fst snd] in Hmade.
  intros [= <-]. rewrite lookup_insert_ne by discriminate. rewrite lookup_insert_eq.
  intros [= ->]. rewrite !lookup_insert_ne by discriminate. rewrite lookup_insert_eq.
  by rewrite Hmade.
Qed.

Lemma success_iff_every_delivery_reached_witness :
  completed (Worker.simulate_movement Cases.two_stop_run [1; 2; 3] [1; 2; 3] 2)
  /\ m_success (Worker.simulate_movement Cases.two_stop_run [1; 2; 3] [1; 2; 3] 2) = true
  /\ m_deliveries_made (Worker.simulate_movement Cases.two_stop_run [1; 2; 3] [1; 2; 3] 2)
     = 2
  /\ completed (Worker.simulate_movement Cases.two_stop_run [1; 2; 3] [1; 2] 2)
  /\ m_deliveries_made (Worker.simulate_movement Cases.two_stop_run [1; 2; 3] [1; 2] 2)
     < delivery_count Cases.two_stop_run
  /\ m_success (Worker.simulate_movement Cases.two_stop_run [1; 2; 3] [1; 2] 2) = false.
Proof.
  assert (Hc : completed (Worker.simulate_movement Cases.two_stop_run [1; 2; 3] [1; 2; 3] 2))
    by (left; vm_refl).
  assert (Hc' : completed (Worker.simulate_movement Cases.two_stop_run [1; 2; 3] [1; 2] 2))
    by (right; vm_refl).
  assert (Hr : forall n, n ∈ drop 1 [1; 2; 3] <-> n ∈ delivery_nodes Cases.two_stop_run).
  { intros n. cbn [drop Cases.two_stop_run Examples.courier delivery_nodes
                   Worker.MonteCarloSimulationWorker].
    rewrite !elem_of_cons, !elem_of_nil. tauto. }
  pose proof (success_iff_every_delivery_reached Cases.two_stop_run 2 [1; 2; 3] [1; 2; 3]
                Hc Hr) as (Hiff & Hmade & _ & Hlen).
  pose proof (success_iff_every_delivery_reached Cases.two_stop_run 2 [1; 2; 3] [1; 2]
                Hc' Hr) as (_ & _ & Hfew & _).
  assert (Hs : m_success (Worker.simulate_movement Cases.two_stop_run [1; 2; 3] [1; 2; 3] 2)
               = true).
  { apply Hiff. intros d Hd. apply Hr in Hd. exact Hd. }
  assert (Hcount : delivery_count Cases.two_stop_run = 2).
  { rewrite Hlen; [reflexivity|]. apply NoDup_cons. split.
    - rewrite list_elem_of_singleton. discriminate.
    - apply NoDup_singleton. }
  assert (Hlt : m_deliveries_made
                  (Worker.simulate_movement Cases.two_stop_run [1; 2; 3] [1; 2] 2)
                < delivery_count Cases.two_stop_run).
  { rewrite Hcount. vm_compute. reflexivity. }
  split; [exact Hc|]. split; [exact Hs|].
  split; [rewrite (Hmade Hs); exact Hcount|].
  split; [exact Hc'|]. split; [exact Hlt | exact (Hfew Hlt)].
Defined.

(** ** The walk, hop by hop *)

Section MovementMore.
Import Worker.
Variable self : worker.
Variable rain : Z.
Variable dset : gset node.

Lemma move_loop_unfold (u v : node) (rest : list node) (st : move_state) :
  move_loop self rain dset (u :: v :: rest) st
  = match move_step self rain dset u v st with
    | inl m => m
    | inr st' => move_loop self rain dset (v :: rest) st'
    end.
Proof.
  unfold move_step. cbn [move_loop].
  destruct (get_edge_data (G self) u v) as [d|]; [|reflexivity].
  destruct (is_edge_blocked d rain); [reflexivity|].
  cbv zeta. destruct (Qle_bool _ 0); reflexivity.
Qed.

Lemma move_loop_end (path : list node) (st : move_state) :
  hops path = [] ->
  move_loop self rain dset path st
  = (bool_decide (size (remaining_delivery_nodes st) = 0%nat),
     total_distance st, total_time st, Z.of_nat (size (visited_delivery_nodes st)),
     disaster_encounters st,
     if bool_decide (size (remaining_delivery_nodes st) = 0%nat)
     then "All deliveries completed" else "Some deliveries missed").
Proof. destruct path as [|u [|v rest]]; [reflexivity..|discriminate]. Qed.

(** What a failure exit returns. *)
Lemma move_step_failure (u v : node) (st : move_state) (m : movement) :
  move_step self rain dset u v st = inl m ->
  m_success m = false
  /\ m_distance m = total_distance st /\ m_time m = total_time st
  /\ m_deliveries_made m = Z.of_nat (size (visited_delivery_nodes st))
  /\ floods (disaster_encounters st) <= floods (m_encounters m)
     <= floods (disaster_encounters st) + 1
  /\ landslides (disaster_encounters st) <= landslides (m_encounters m)
     <= landslides (disaster_encounters st) + 1
  /\ (4 <= rain -> landslides (m_encounters m) = landslides (disaster_encounters st))
  /\ (5 <= rain -> floods (m_encounters m) = floods (disaster_encounters st))
  /\ ~ completed m.
Proof.
  unfold move_step, is_edge_blocked.
  destruct (get_edge_data (G self) u v) as [d|].
  2:{ intros [= <-]. cbn. repeat split; try lia. intros [?|?]; discriminate. }
  destruct (is_flooded d), (is_landslide d); repeat case_bool_decide; cbn [andb];
    cbv zeta; try destruct (Qle_bool _ 0); try discriminate;
    intros [= <-]; cbn; repeat split; try lia; intros [?|?]; discriminate.
Qed.

(** What a round that goes on changes. *)
Lemma move_step_next (u v : node) (st st' : move_state) :
  move_step self rain dset u v st = inr st' ->
  exists d,
    get_edge_data (G self) u v = Some d
    /\ is_edge_blocked d rain = false
    /\ total_distance st' = (total_distance st + default 0%Q (edge_length d))%Q
    /\ floods (disaster_encounters st) <= floods (disaster_encounters st')
       <= floods (disaster_encounters st) + 1
    /\ landslides (disaster_encounters st) <= landslides (disaster_encounters st')
       <= landslides (disaster_encounters st) + 1
    /\ (4 <= rain -> landslides (disaster_encounters st') = landslides (disaster_encounters st))
    /\ (5 <= rain -> floods (disaster_encounters st') = floods (disaster_encounters st))
    /\ visited_delivery_nodes st' ⊆ visited_delivery_nodes st ∪ ({[v]} ∩ dset)
    /\ visited_delivery_nodes st ⊆ visited_delivery_nodes st'.
Proof.
  unfold move_step, is_edge_blocked.
  destruct (get_edge_data (G self) u v) as [d|]; [|discriminate].
  intros H. exists d. split; [reflexivity|]. revert H.
  destruct (is_flooded d), (is_landslide d); repeat case_bool_decide; cbn [andb];
    cbv zeta; try destruct (Qle_bool _ 0); try discriminate;
    intros [= <-]; cbn [total_distance disaster_encounters visited_delivery_nodes floods landslides];
    (split; [reflexivity|]); (split; [reflexivity|]);
    repeat split; try lia;
    intros x; rewrite ?elem_of_union, ?elem_of_intersection, ?elem_of_singleton;
    try tauto; intros [->|?]; tauto.
Qed.

Lemma hops_cons2 (u v : node) (rest : list node) :
  hops (u :: v :: rest) = (u, v) :: hops (v :: rest).
Proof. reflexivity. Qed.

Lemma move_loop_encounters (path : list node) (st : move_state) :
  floods (disaster_encounters st) <= floods (m_encounters (move_loop self rain dset path st))
    <= floods (disaster_encounters st) + Z.of_nat (length (hops path))
  /\ landslides (disaster_encounters st)
     <= landslides (m_encounters (move_loop self rain dset path st))
     <= landslides (disaster_encounters st) + Z.of_nat (length (hops path))
  /\ (4 <= rain -> landslides (m_encounters (move_loop self rain dset path st))
                   = landslides (disaster_encounters st))
  /\ (5 <= rain -> floods (m_encounters (move_loop self rain dset path st))
                   = floods (disaster_encounters st)).
Proof.
  revert st. induction path as [|u [|v rest] IH]; intros st.
  - cbn. lia.
  - cbn. lia.
  - rewrite move_loop_unfold, hops_cons2. cbn [length].
    destruct (move_step self rain dset u v st) as [m|st'] eqn:E.
    + apply move_step_failure in E. lia.
    + apply move_step_next in E as (d & _ & _ & _ & Hf & Hl & H4 & H5 & _).
      specialize (IH st'). lia.
Qed.

Lemma move_loop_visited (path : list node) (st : move_state) :
  exists V : gset node,
    m_deliveries_made (move_loop self rain dset path st) = Z.of_nat (size V)
    /\ visited_delivery_nodes st ⊆ V
    /\ V ⊆ visited_delivery_nodes st ∪ (dset ∩ list_to_set (drop 1 path)).
Proof.
  revert st. induction path as [|u [|v rest] IH]; intros st.
  - exists (visited_delivery_nodes st). split; [reflexivity|].
    split; [reflexivity|]. apply union_subseteq_l.
  - exists (visited_delivery_nodes st). split; [reflexivity|].
    split; [reflexivity|]. apply union_subseteq_l.
  - rewrite move_loop_unfold.
    destruct (move_step self rain dset u v st) as [m|st'] eqn:E.
    + apply move_step_failure in E as (_ & _ & _ & Hm & _).
      exists (visited_delivery_nodes st). split; [exact Hm|].
      split; [reflexivity|]. apply union_subseteq_l.
    + apply move_step_next in E as (d & _ & _ & _ & _ & _ & _ & _ & Hup & Hlow).
      destruct (IH st') as (V & Hm & HV1 & HV2). exists V.
      split; [exact Hm|]. split; [by etrans|].
      cbn [drop] in *. rewrite list_to_set_cons.
      intros x Hx. apply HV2 in Hx. revert Hx.
      rewrite !elem_of_union, !elem_of_intersection, elem_of_union, elem_of_singleton.
      intros [Hx|Hx]; [|tauto]. apply Hup in Hx. revert Hx.
      rewrite elem_of_union, elem_of_intersection, elem_of_singleton. tauto.
Qed.

Lemma move_loop_distance (path : list node) (st : move_state) :
  completed (move_loop self rain dset path st) ->
  m_distance (move_loop self rain dset path st)
  = fold_left Qplus (walked_length (G self) <$> hops path) (total_distance st)
  /\ Forall (fun uv => exists d, get_edge_data (G self) uv.1 uv.2 = Some d
                                 /\ is_edge_blocked d rain = false) (hops path).
Proof.
  revert st. induction path as [|u [|v rest] IH]; intros st.
  - intros _. split; [reflexivity | constructor].
  - intros _. split; [reflexivity | constructor].
  - rewrite move_loop_unfold, hops_cons2.
    destruct (move_step self rain dset u v st) as [m|st'] eqn:E.
    + apply move_step_failure in E. tauto.
    + apply move_step_next in E as (d & Hd & Hb & Hdist & _).
      intros Hc. destruct (IH st' Hc) as [-> HF]. split.
      * cbn [fmap list_fmap fold_left]. f_equal. rewrite Hdist.
        unfold walked_length. cbn [fst snd]. by rewrite Hd.
      * constructor; [|exact HF]. exists d. by split.
Qed.

Lemma move_loop_not_completed (path : list node) (st : move_state) :
  ~ completed (move_loop self rain dset path st) ->
  m_success (move_loop self rain dset path st) = false.
Proof.
  intros Hn. destruct (m_success _) eqn:E; [|reflexivity].
  exfalso. apply Hn. left. by apply move_loop_success_completed.
Qed.

End MovementMore.

Section TrialRecords.
Import Worker.

Lemma movement_record_fields (m : movement) :
  movement_record m !! "success" = Some (VBool (m_success m))
  /\ movement_record m !! "distance" = Some (VNum (m_distance m))
  /\ movement_record m !! "time" = Some (VNum (m_time m))
  /\ movement_record m !! "deliveries_made" = Some (VInt (m_deliveries_made m))
  /\ movement_record m !! "disaster_encounters" = Some (VDict (counts_dict (m_encounters m)))
  /\ movement_record m !! "reason" = Some (VStr (m_reason m)).
Proof.
  unfold movement_record.
  repeat split; repeat (rewrite lookup_insert_ne by discriminate); apply lookup_insert_eq
    || apply lookup_singleton_eq.
Qed.

(** The two ways a trial returns: the no-route record, or the record of
    the walk along a route that was built. *)
Lemma simulate_delivery_cases (self : worker) (rain : Z) (result : gmap string pyval) :
  simulate_delivery self rain = Ok result ->
  (result = no_route_result
   /\ exists total ps,
        find_disaster_aware_route self (start_node self) (delivery_nodes self) rain
        = Ok (None, total, ps))
  \/ (exists route total ps,
        find_disaster_aware_route self (start_node self) (delivery_nodes self) rain
        = Ok (Some route, total, ps)
        /\ result = movement_record (simulate_movement self route (default [] ps) rain)).
Proof.
  unfold simulate_delivery, mbind, res_bind.
  destruct (find_disaster_aware_route self (start_node self) (delivery_nodes self) rain)
    as [[[route total] ps]|e] eqn:E; [|discriminate].
  destruct route as [route|].
  - assert (Hne : truthy_list (Some route) = true).
    { unfold find_disaster_aware_route in E.
      apply route_loop_stops in E as (extra & -> & _). reflexivity. }
    rewrite Hne. cbn [negb]. change (default [] (Some route)) with route.
    destruct (simulate_movement self route (default [] ps) rain)
      as [[[[[success distance] time] made] enc] reason] eqn:Em.
    intros [= <-]. right. exists route, total, ps. split; [reflexivity|].
    rewrite Em. reflexivity.
  - cbn [truthy_list negb]. intros [= <-]. left. split; [reflexivity|]. by exists total, ps.
Qed.

End TrialRecords.

Section ExtremeRain.
Import Worker.
Variable self : worker.

Lemma zero_speed (b : Q) : Qle_bool (b * 0.0) 0 = true.
Proof. apply Qle_bool_iff. unfold Qle. cbn. lia. Qed.

Lemma move_step_extreme (dset : gset node) (u v : node) (st : move_state) :
  exists m, move_step self 5 dset u v st = inl m.
Proof.
  unfold move_step, is_edge_blocked.
  destruct (get_edge_data (G self) u v) as [d|]; [|eauto].
  change (speed_multiplier (rain_intensity_effects 5)) with 0.0%Q.
  destruct (is_flooded d), (is_landslide d); cbn [andb bool_decide decide_rel]; eauto.
  cbv zeta. rewrite zero_speed. eauto.
Qed.

Lemma move_loop_extreme (dset : gset node) (path : list node) (st : move_state) :
  remaining_delivery_nodes st <> ∅ ->
  m_success (move_loop self 5 dset path st) = false
  /\ m_distance (move_loop self 5 dset path st) = total_distance st
  /\ m_time (move_loop self 5 dset path st) = total_time st.
Proof.
  intros Hrem. destruct path as [|u [|v rest]].
  - cbn. split; [|by split]. apply bool_decide_eq_false. intros H.
    apply size_empty_inv in H. apply Hrem. by apply leibniz_equiv.
  - cbn. split; [|by split]. apply bool_decide_eq_false. intros H.
    apply size_empty_inv in H. apply Hrem. by apply leibniz_equiv.
  - rewrite move_loop_unfold. destruct (move_step_extreme dset u v st) as [m E].
    rewrite E. apply move_step_failure in E. tauto.
Qed.

End ExtremeRain.

(** X14: At rain intensity 5 the speed multiplier is 0: with a delivery to
    make, every trial that returns reports failure with zero distance
    and zero time. *)
Theorem extreme_rain_trial_fails (self : worker) (result : gmap string pyval) :
  delivery_nodes self <> [] ->
  Worker.simulate_delivery self 5 = Ok result ->
  result !! "success" = Some (VBool false)
  /\ result !! "distance" = Some (VNum 0)
  /\ result !! "time" = Some (VNum 0).
Proof.
  intros Hne H. apply simulate_delivery_cases in H as [[-> _]|(route & total & ps & _ & ->)].
  - repeat split; vm_refl.
  - destruct (movement_record_fields
                (Worker.simulate_movement self route (default [] ps) 5))
      as (Hs & Hd & Ht & _).
    rewrite Hs, Hd, Ht. unfold Worker.simulate_movement.
    destruct (move_loop_extreme self (list_to_set (drop 1 route)) (default [] ps)
                (Worker.mk_move 0 0 (mk_counts 0 0) ∅ (list_to_set (delivery_nodes self))))
      as (-> & -> & ->); [|done].
    cbn [Worker.remaining_delivery_nodes].
    destruct (delivery_nodes self) as [|d ds]; [done|].
    rewrite list_to_set_cons. intros He.
    apply (not_elem_of_empty (C := gset node) d). rewrite <- He.
    apply elem_of_union_l. by apply elem_of_singleton.
Qed.

(** X9: The number of deliveries a trial reports is never negative and never
    more than the number of delivery nodes. *)
Theorem deliveries_made_bounded (self : worker) (rain : Z) (result : gmap string pyval) (n : Z) :
  Worker.simulate_delivery self rain = Ok result ->
  result !! "deliveries_made" = Some (VInt n) ->
  0 <= n <= delivery_count self.
Proof.
  intros H. apply simulate_delivery_cases in H as [[-> _]|(route & total & ps & Hr & ->)].
  - intros Hn. exfalso. revert Hn.
    assert (Hnone : Worker.no_route_result !! "deliveries_made" = None) by vm_refl.
    rewrite Hnone. discriminate.
  - destruct (movement_record_fields
                (Worker.simulate_movement self route (default [] ps) rain))
      as (_ & _ & _ & Hm & _).
    rewrite Hm. intros [= <-]. unfold Worker.simulate_movement.
    destruct (move_loop_visited self rain (list_to_set (drop 1 route)) (default [] ps)
                (Worker.mk_move 0 0 (mk_counts 0 0) ∅ (list_to_set (delivery_nodes self))))
      as (V & -> & _ & HV).
    cbn [Worker.visited_delivery_nodes] in HV.
    apply route_stops_are_deliveries in Hr as [Hstops _].
    unfold delivery_count. split; [lia|].
    apply inj_le, subseteq_size. intros x Hx. apply HV in Hx. revert Hx.
    rewrite elem_of_union, elem_of_intersection, !elem_of_list_to_set, Hstops.
    intros [Hx|[Hx _]]; [by apply not_elem_of_empty in Hx | exact Hx].
Qed.

(** ** Activation counters and certain cases *)

Section ActivationMore.
Import Worker.

Lemma activate_loop_counts ft lt es acc r :
  floods (activate_loop ft lt es acc r).1.2
  = floods acc
    + Z.of_nat (length (filter (fun e => is_flooded (e_data e) = true)
                               (activate_loop ft lt es acc r).1.1))
  /\ landslides (activate_loop ft lt es acc r).1.2
     = landslides acc
       + Z.of_nat (length (filter (fun e => is_landslide (e_data e) = true)
                                  (activate_loop ft lt es acc r).1.1))
  /\ length (activate_loop ft lt es acc r).1.1 = length es
  /\ stream (activate_loop ft lt es acc r).2 = stream r
  /\ cursor (activate_loop ft lt es acc r).2 = (cursor r + 2 * length es)%nat.
Proof.
  revert acc r. induction es as [|[[u v] d] es IH]; intros acc r.
  - cbn. repeat split; first [reflexivity | lia].
  - cbn [activate_loop activate_edge random_random].
    match goal with
    | |- context [activate_loop ft lt es ?a ?g] =>
        specialize (IH a g); destruct (activate_loop ft lt es a g) as [[rest acc''] r'']
    end.
    cbn [fst snd floods landslides stream cursor length] in *.
    destruct IH as (Hf & Hl & Hlen & Hs & Hc).
    rewrite !filter_cons. unfold is_flooded, is_landslide in *.
    cbn [e_data snd currently_flooded currently_landslide default from_option id].
    rewrite Hf, Hl, Hlen, Hs, Hc.
    destruct (Qltb _ _), (Qltb _ _); repeat case_decide; try congruence;
      cbn [length]; repeat split; first [reflexivity | lia].
Qed.

End ActivationMore.

Lemma activate_disasters_counts (self : worker) (rain : Z) (r : rng) :
  floods (Worker.activate_disasters self rain r).1.2
  = Z.of_nat (flooded_edges (G (Worker.activate_disasters self rain r).1.1))
  /\ landslides (Worker.activate_disasters self rain r).1.2
     = Z.of_nat (landslide_edges (G (Worker.activate_disasters self rain r).1.1))
  /\ length (edges (G (Worker.activate_disasters self rain r).1.1)) = length (edges (G self))
  /\ stream (Worker.activate_disasters self rain r).2 = stream r
  /\ cursor (Worker.activate_disasters self rain r).2
     = (cursor r + 2 * length (edges (G self)))%nat.
Proof.
  unfold Worker.activate_disasters, flooded_edges, landslide_edges.
  pose proof (activate_loop_counts (Worker.flood_threshold rain)
                (Worker.landslide_threshold rain) (edges (G self)) (mk_counts 0 0) r) as H.
  destruct (Worker.activate_loop _ _ (edges (G self)) _ r) as [[es acc] r'].
  cbn [fst snd G edges floods landslides] in *. exact H.
Qed.

(** X17: The counters [activate_disasters] returns are the numbers of edges
    whose flags it has set to true, and it takes two draws per edge from
    the generator. *)
Theorem activation_counts_flagged_edges (self : worker) (rain : Z) (r : rng) :
  floods (Worker.activate_disasters self rain r).1.2
  = Z.of_nat (flooded_edges (G (Worker.activate_disasters self rain r).1.1))
  /\ landslides (Worker.activate_disasters self rain r).1.2
     = Z.of_nat (landslide_edges (G (Worker.activate_disasters self rain r).1.1))
  /\ length (edges (G (Worker.activate_disasters self rain r).1.1)) = length (edges (G self))
  /\ stream (Worker.activate_disasters self rain r).2 = stream r
  /\ cursor (Worker.activate_disasters self rain r).2
     = (cursor r + 2 * length (edges (G self)))%nat.
Proof. apply activate_disasters_counts. Qed.

Section CertainCases.
Import Worker.

Lemma Qltb_false_ge (x y : Q) : (y <= x)%Q -> Qltb x y = false.
Proof.
  intros H. destruct (Qltb x y) eqn:E; [|reflexivity].
  apply Qltb_lt in E. exfalso. apply (Qlt_not_le _ _ E H).
Qed.

Lemma draw_below (r : rng) (n : nat) (y : Q) :
  unit_draws r -> (1 <= y)%Q -> Qltb (stream r n) y = true.
Proof.
  intros Hr Hy. apply Qltb_lt. destruct (Hr n) as [_ H1].
  eapply Qlt_le_trans; [exact H1 | exact Hy].
Qed.

Lemma draw_not_below (r : rng) (n : nat) (y : Q) :
  unit_draws r -> (y <= 0)%Q -> Qltb (stream r n) y = false.
Proof.
  intros Hr Hy. apply Qltb_false_ge. destruct (Hr n) as [H0 _].
  eapply Qle_trans; [exact Hy | exact H0].
Qed.

End CertainCases.

(** X18: With draws in [[0, 1)], an edge whose proneness times the threshold
    is at most 0 is never flagged, and one for which the product is at
    least 1 always is; this holds for the flood and for the landslide
    flag. *)
Theorem activation_is_certain_at_the_ends (self : worker) (rain : Z) (r : rng)
    (i : nat) (e : edge) :
  unit_draws r ->
  edges (G self) !! i = Some e ->
  exists e',
    edges (G (Worker.activate_disasters self rain r).1.1) !! i = Some e'
    /\ ((flood_prone (e_data e) * Worker.flood_threshold rain <= 0)%Q ->
        currently_flooded (e_data e') = Some false)
    /\ ((1 <= flood_prone (e_data e) * Worker.flood_threshold rain)%Q ->
        currently_flooded (e_data e') = Some true)
    /\ ((landslide_prone (e_data e) * Worker.landslide_threshold rain <= 0)%Q ->
        currently_landslide (e_data e') = Some false)
    /\ ((1 <= landslide_prone (e_data e) * Worker.landslide_threshold rain)%Q ->
        currently_landslide (e_data e') = Some true).
Proof.
  intros Hr Hi. unfold Worker.activate_disasters.
  destruct (activate_loop_flags (Worker.flood_threshold rain) (Worker.landslide_threshold rain)
              (edges (G self)) (mk_counts 0 0) r i e Hi) as (e' & He' & Hf & Hl).
  destruct (Worker.activate_loop _ _ (edges (G self)) _ r) as [[es acc] r'].
  cbn [fst snd G edges] in *. exists e'. split; [exact He'|].
  rewrite Hf, Hl. repeat split; intros H; f_equal.
  - by apply draw_not_below.
  - by apply draw_below.
  - by apply draw_not_below.
  - by apply draw_below.
Qed.

Section Sampling.
Import Worker MonteCarlo.

Lemma rainfall_rows (severity : Z) (probs : list Q) :
  get_rainfall_probability_by_condition severity = Ok probs ->
  1 <= severity <= 5 /\ length probs = 5%nat
  /\ exists c, last (cumsum 0 probs) = Some c /\ (1 <= c)%Q.
Proof.
  unfold get_rainfall_probability_by_condition, rainfall_table, from_option.
  rewrite !lookup_insert, lookup_singleton.
  repeat case_decide; subst; try discriminate; intros [= <-];
    (split; [lia|]); (split; [reflexivity|]); eexists; (split; [reflexivity|]);
    vm_compute; discriminate.
Qed.

Lemma count_without_last (P : Q -> Prop) `{!forall x, Decision (P x)} (l : list Q) (c : Q) :
  last l = Some c -> ~ P c -> (length (filter P l) < length l)%nat.
Proof.
  intros Hl Hc. destruct (last_Some l c) as [Hsome _].
  destruct (Hsome Hl) as [l' ->].
  rewrite filter_app, !length_app, filter_cons, decide_False by exact Hc.
  cbn [filter list_filter length]. pose proof (length_filter P l'). cbn. lia.
Qed.

Lemma cumsum_length (acc : Q) (p : list Q) : length (cumsum acc p) = length p.
Proof. revert acc. induction p as [|x p IH]; intros acc; cbn; [reflexivity | by rewrite IH]. Qed.

End Sampling.

Lemma choice_in_range (severity : Z) (probs : list Q) (u : Q) :
  Worker.get_rainfall_probability_by_condition severity = Ok probs ->
  (0 <= u)%Q -> (u < 1)%Q ->
  1 <= MonteCarlo.choice probs u <= 5.
Proof.
  intros Hrow H0 H1. apply rainfall_rows in Hrow as (_ & Hlen & c & Hc & Hone).
  unfold MonteCarlo.choice.
  assert (Hlt : (length (filter (fun x => Qle_bool x u = true) (MonteCarlo.cumsum 0 probs))
                 < length (MonteCarlo.cumsum 0 probs))%nat).
  { apply (count_without_last _ _ c Hc). intros Hle. apply Qle_bool_iff in Hle.
    apply (Qlt_not_le _ _ H1). by eapply Qle_trans. }
  rewrite cumsum_length, Hlen in Hlt. lia.
Qed.

(** X19: For a weather severity with a row in the rainfall table and a
    uniform draw in [[0, 1)], the sampled rain intensity is one of 1..5:
    the fallback for an unknown intensity is never needed in a run. *)
Theorem sampled_intensity_in_range (severity : Z) (probs : list Q) (u : Q) :
  Worker.get_rainfall_probability_by_condition severity = Ok probs ->
  (0 <= u)%Q -> (u < 1)%Q ->
  1 <= MonteCarlo.choice probs u <= 5.
Proof. apply choice_in_range. Qed.

(** ** Runs of the orchestrator *)

Section Runs.
Import Worker MonteCarlo.

Lemma same_configuration_refl (s : simulation) : same_configuration s s.
Proof. by repeat split. Qed.

Lemma same_configuration_trans (s1 s2 s3 : simulation) :
  same_configuration s1 s2 -> same_configuration s2 s3 -> same_configuration s1 s3.
Proof. unfold same_configuration. intros ? ?. repeat split; intuition congruence. Qed.

Lemma simulate_delivery_has_verdict (self : worker) (rain : Z) (result : gmap string pyval) :
  simulate_delivery self rain = Ok result -> exists b, result !! "success" = Some (VBool b).
Proof.
  intros H. apply simulate_delivery_cases in H as [[-> _]|(route & total & ps & _ & ->)].
  - exists false. vm_refl.
  - eexists. apply movement_record_fields.
Qed.

Lemma counts_dict_keys (k : counts) :
  is_Some (counts_dict k !! "floods") /\ is_Some (counts_dict k !! "landslides").
Proof.
  unfold counts_dict. split.
  - rewrite lookup_insert_eq. eauto.
  - rewrite lookup_insert_ne by discriminate. rewrite lookup_singleton_eq. eauto.
Qed.

(** One trial: what it keeps, and what it records when it returns. *)
Lemma trial_effect (s : simulation) (severity i : Z) (rs : rngs) :
  same_configuration s (trial s severity i rs).1.1
  /\ weather_severity (trial s severity i rs).1.1 = weather_severity s
  /\ stream (np_random (trial s severity i rs).1.2) = stream (np_random rs)
  /\ match (trial s severity i rs).2 with
     | Ok _ =>
         1 <= severity <= 5
         /\ completed_simulations (trial s severity i rs).1.1 = i + 1
         /\ exists record,
              all_runs (trial s severity i rs).1.1 = all_runs s ++ [record]
              /\ (unit_draws (np_random rs) -> stored_record record)
     | Raise _ => all_runs (trial s severity i rs).1.1 = all_runs s
     end.
Proof.
  unfold trial.
  destruct (get_rainfall_probability_by_condition severity) as [probs|e] eqn:Hrow.
  2:{ cbn. split; [apply same_configuration_refl | by repeat split]. }
  cbn [random_random].
  pose proof (activate_disasters_counts
                (MonteCarloSimulationWorker (sim_G s) (sim_start_node s)
                   (sim_delivery_nodes s) (sim_base_speed s))
                (choice probs (stream (np_random rs) (cursor (np_random rs))))
                (py_random rs)) as (_ & _ & Hlen & _).
  assert (Hnodes : nodes (G (activate_disasters
                (MonteCarloSimulationWorker (sim_G s) (sim_start_node s)
                   (sim_delivery_nodes s) (sim_base_speed s))
                (choice probs (stream (np_random rs) (cursor (np_random rs))))
                (py_random rs)).1.1) = nodes (sim_G s)).
  { unfold activate_disasters. destruct (activate_loop _ _ _ _ _) as [[? ?] ?]. reflexivity. }
  destruct (activate_disasters _ _ (py_random rs)) as [[simulator' activated] py'].
  cbn [fst snd] in Hlen, Hnodes. cbn [MonteCarloSimulationWorker G] in Hlen.
  destruct (simulate_delivery simulator' _) as [result|e] eqn:Hres.
  - unfold same_configuration, with_trial.
    cbn [fst snd sim_base_speed num_delivery_points sim_start_node
         sim_delivery_nodes ideal_delivery_time worker_name sim_G weather_severity
         np_random stream all_runs completed_simulations].
    split; [repeat split; done|]. split; [reflexivity|]. split; [reflexivity|].
    split; [apply rainfall_rows in Hrow; tauto|]. split; [reflexivity|].
    eexists. split; [reflexivity|]. intros Hu. repeat split.
    + destruct (simulate_delivery_has_verdict _ _ _ Hres) as [b Hb]. exists b.
      by rewrite !lookup_insert_ne by discriminate.
    + eexists. split.
      * rewrite lookup_insert_ne by discriminate. apply lookup_insert_eq.
      * destruct (Hu (cursor (np_random rs))) as [H0 H1].
        by apply (choice_in_range severity).
    + eexists. split; [apply lookup_insert_eq | apply counts_dict_keys].
  - unfold same_configuration.
    cbn [fst snd sim_base_speed num_delivery_points sim_start_node
         sim_delivery_nodes ideal_delivery_time worker_name sim_G weather_severity
         np_random stream all_runs].
    split; [repeat split; done|]. by repeat split.
Qed.

Lemma trials_effect (n : nat) (s : simulation) (severity i : Z) (rs : rngs) :
  same_configuration s (trials s severity i n rs).1.1
  /\ weather_severity (trials s severity i n rs).1.1 = weather_severity s
  /\ stream (np_random (trials s severity i n rs).1.2) = stream (np_random rs)
  /\ all_runs s `prefix_of` all_runs (trials s severity i n rs).1.1
  /\ ((trials s severity i n rs).2 = Ok () ->
      exists records,
        all_runs (trials s severity i n rs).1.1 = all_runs s ++ records
        /\ length records = n
        /\ ((0 < n)%nat ->
            completed_simulations (trials s severity i n rs).1.1 = i + Z.of_nat n
            /\ 1 <= severity <= 5)
        /\ (unit_draws (np_random rs) -> Forall stored_record records)).
Proof.
  revert s i rs. induction n as [|n IH]; intros s i rs.
  - cbn [trials fst snd]. split; [apply same_configuration_refl|].
    repeat split; try reflexivity. intros _. exists []. rewrite app_nil_r.
    repeat split; try reflexivity; try lia. by constructor.
  - cbn [trials].
    pose proof (trial_effect s severity i rs) as (Hc & Hw & Hs & Ho).
    destruct (trial s severity i rs) as [[s1 rs1] [[]|e]]; cbn [fst snd] in *.
    + destruct Ho as (Hsev & Hdone & record & Hruns & Hrec).
      specialize (IH s1 (i + 1) rs1) as (Hc' & Hw' & Hs' & Hp' & Ho').
      split; [by eapply same_configuration_trans|].
      split; [congruence|]. split; [congruence|].
      split.
      { etrans; [|exact Hp']. rewrite Hruns. by apply prefix_app_r. }
      intros Hok. destruct (Ho' Hok) as (records & Hall & Hlen & Hdn & Hst).
      exists (record :: records). split.
      { rewrite Hall, Hruns, <- app_assoc. reflexivity. }
      split; [cbn; lia|]. split.
      * intros _. split; [|exact Hsev]. destruct n as [|n'].
        -- cbn [trials fst snd]. rewrite Hdone. lia.
        -- destruct Hdn as [-> _]; lia.
      * intros Hu. constructor; [by apply Hrec|]. apply Hst.
        intros k. rewrite Hs. apply Hu.
    + split; [exact Hc|]. split; [exact Hw|]. split; [exact Hs|].
      split; [by rewrite Ho|]. discriminate.
Qed.

(** [run_simulation]: what it keeps whatever the outcome, and what it
    has recorded when it returns. *)
Lemma run_simulation_effect (s : simulation) (num_simulations severity : Z) (rs : rngs) :
  same_configuration s (run_simulation s num_simulations severity rs).1.1
  /\ weather_severity (run_simulation s num_simulations severity rs).1.1 = Some severity
  /\ all_runs s `prefix_of` all_runs (run_simulation s num_simulations severity rs).1.1
  /\ ((run_simulation s num_simulations severity rs).2 = Ok () ->
      exists records,
        all_runs (run_simulation s num_simulations severity rs).1.1 = all_runs s ++ records
        /\ length records = Z.to_nat num_simulations
        /\ all_runs s ++ records <> []
        /\ (0 < num_simulations ->
            completed_simulations (run_simulation s num_simulations severity rs).1.1
            = num_simulations /\ 1 <= severity <= 5)
        /\ (unit_draws (np_random rs) -> Forall stored_record records)).
Proof.
  unfold run_simulation.
  match goal with
  | |- context [trials ?s0 severity 0 ?n rs] =>
      pose proof (trials_effect n s0 severity 0 rs) as (Hc & Hw & _ & Hp & Ho);
      destruct (trials s0 severity 0 n rs) as [[s' rs'] [[]|e]]
  end; cbn [fst snd] in *.
  - unfold same_configuration in *.
    cbn [sim_base_speed num_delivery_points sim_start_node sim_delivery_nodes
         ideal_delivery_time worker_name sim_G weather_severity all_runs] in *.
    split; [exact Hc|]. split; [exact Hw|]. split; [exact Hp|].
    case_bool_decide as He; cbn [snd]; [discriminate|]. intros _.
    destruct (Ho eq_refl) as (records & Hall & Hlen & Hdn & Hst).
    exists records. split; [exact Hall|]. split; [exact Hlen|].
    split; [by rewrite <- Hall|]. split; [|exact Hst].
    intros Hpos. destruct Hdn as [-> Hsev]; [lia|]. split; [lia | exact Hsev].
  - unfold same_configuration in *.
    cbn [sim_base_speed num_delivery_points sim_start_node sim_delivery_nodes
         ideal_delivery_time worker_name sim_G weather_severity all_runs] in *.
    split; [exact Hc|]. split; [exact Hw|]. split; [exact Hp|]. discriminate.
Qed.

End Runs.

(** X20: A run that returns has appended one record per trial to the results
    it started with; with numpy draws in [[0, 1)] every one of them has a
    verdict, a rain intensity in 1..5 and both activation counters, and
    the count of completed simulations is the number of trials. *)
Theorem run_records_every_trial (s : simulation) (num_simulations severity : Z) (rs : rngs) :
  (MonteCarlo.run_simulation s num_simulations severity rs).2 = Ok () ->
  unit_draws (np_random rs) ->
  exists records,
    all_runs (MonteCarlo.run_simulation s num_simulations severity rs).1.1
    = all_runs s ++ records
    /\ length records = Z.to_nat num_simulations
    /\ Forall stored_record records
    /\ (0 < num_simulations ->
        completed_simulations (MonteCarlo.run_simulation s num_simulations severity rs).1.1
        = num_simulations).
Proof.
  intros Hok Hu.
  destruct (run_simulation_effect s num_simulations severity rs) as (_ & _ & _ & Ho).
  destruct (Ho Hok) as (records & Hall & Hlen & _ & Hdone & Hst).
  exists records. repeat split; try assumption; [by apply Hst|].
  intros Hpos. by apply Hdone.
Qed.

(** X21: Whether a run returns or raises, it leaves the configuration of the
    orchestrator and the node set and edge count of its graph as they
    were, tags the orchestrator with the weather severity, and only ever
    appends to the recorded results. *)
Theorem run_keeps_configuration (s : simulation) (num_simulations severity : Z) (rs : rngs) :
  same_configuration s (MonteCarlo.run_simulation s num_simulations severity rs).1.1
  /\ weather_severity (MonteCarlo.run_simulation s num_simulations severity rs).1.1
     = Some severity
  /\ all_runs s `prefix_of`
       all_runs (MonteCarlo.run_simulation s num_simulations severity rs).1.1.
Proof.
  destruct (run_simulation_effect s num_simulations severity rs) as (Hc & Hw & Hp & _).
  split; [exact Hc|]. split; [exact Hw | exact Hp].
Qed.

(** X22: A run of no trial on an orchestrator without recorded results raises
    [ZeroDivisionError]: the success rate divides by the number of
    runs. *)
Theorem run_without_trials_raises (s : simulation) (num_simulations severity : Z) (rs : rngs) :
  num_simulations <= 0 ->
  all_runs s = [] ->
  (MonteCarlo.run_simulation s num_simulations severity rs).2 = Raise ZeroDivisionError.
Proof.
  intros Hn He. unfold MonteCarlo.run_simulation.
  replace (Z.to_nat num_simulations) with 0%nat by lia.
  cbn [MonteCarlo.trials all_runs snd]. rewrite He. reflexivity.
Qed.

Lemma rainfall_row_missing (severity : Z) :
  ~ (1 <= severity <= 5) ->
  Worker.get_rainfall_probability_by_condition severity = Raise KeyError.
Proof.
  intros H. unfold Worker.get_rainfall_probability_by_condition, Worker.rainfall_table.
  rewrite !lookup_insert_ne by lia. rewrite lookup_singleton_ne by lia. reflexivity.
Qed.

(** X23: A run with at least one trial for a weather severity outside 1..5
    raises [KeyError] at the first trial: nothing is sampled, activated
    or recorded. *)
Theorem unknown_severity_raises (s : simulation) (num_simulations severity : Z) (rs : rngs) :
  ~ (1 <= severity <= 5) ->
  0 < num_simulations ->
  MonteCarlo.run_simulation s num_simulations severity rs
  = (mk_simulation (sim_base_speed s) (num_delivery_points s) (sim_G s)
       (completed_simulations s) (sim_start_node s) (sim_delivery_nodes s)
       (ideal_delivery_time s) (Some severity) (all_runs s) (worker_name s),
     rs, Raise KeyError).
Proof.
  intros Hsev Hn. unfold MonteCarlo.run_simulation.
  destruct (Z.to_nat num_simulations) as [|k] eqn:Hk; [lia|].
  cbn [MonteCarlo.trials]. unfold MonteCarlo.trial.
  rewrite (rainfall_row_missing severity Hsev). reflexivity.
Qed.

(** X25: The worker process always ends normally with the simulation object
    as its last message, tagged with its weather severity and holding
    the start node, delivery nodes and graph nodes it was given; the
    object is the only message exactly when the run returned, and is
    preceded by the failure marker otherwise. *)
Theorem worker_always_queues_its_simulation (g : DiGraph) (start : node)
    (deliveries : list node) (ideal : Q) (severity num_simulations : Z) (name : string)
    (rs : rngs) :
  exists s',
    Coordinator.process_worker g start deliveries ideal severity num_simulations name rs
    = (match (MonteCarlo.run_simulation
                 (mk_simulation 500 7 g 0 start deliveries ideal None [] name)
                 num_simulations severity rs).2 with
       | Ok _ => [Some s']
       | Raise _ => [None; Some s']
       end,
       Ok ())
    /\ weather_severity s' = Some severity
    /\ sim_start_node s' = start
    /\ sim_delivery_nodes s' = deliveries
    /\ nodes (sim_G s') = nodes g.
Proof.
  unfold Coordinator.process_worker, MonteCarlo.MonteCarloSimulation.
  destruct (run_simulation_effect (mk_simulation 500 7 g 0 start deliveries ideal None [] name)
              num_simulations severity rs) as (Hc & Hw & _).
  destruct (MonteCarlo.run_simulation _ num_simulations severity rs) as [[s' rs'] o].
  cbn [fst snd] in *. destruct Hc as (_ & _ & Hs & Hd & _ & _ & Hn & _).
  exists s'. split; [|repeat split; assumption].
  destruct o as [[]|e]; reflexivity.
Qed.

(** ** The paths of the search *)

Section SearchPaths.
Import NX.
Variables source target : node.

Lemma joins_snoc (s x w : node) (p : list node) :
  joins s x p -> joins s w (p ++ [w]).
Proof.
  intros [Hh Hl]. split; [|apply last_snoc].
  apply head_Some in Hh as [q ->]. reflexivity.
Qed.

Lemma joins_meet (s t w : node) (p0 p1 : list node) :
  joins s w p0 -> joins t w p1 -> joins s t (p0 ++ drop 1 (reverse p1)).
Proof.
  intros [Hh0 Hl0] [Hh1 Hl1].
  apply head_Some in Hh0 as [q0 ->].
  apply last_Some in Hl1 as [l1 ->].
  rewrite reverse_snoc. cbn [drop]. rewrite drop_0. split; [reflexivity|].
  destruct l1 as [|y l1].
  - cbn in Hh1. injection Hh1 as ->. rewrite reverse_nil, app_nil_r. exact Hl0.
  - cbn in Hh1. injection Hh1 as ->.
    rewrite last_app, last_reverse. reflexivity.
Qed.

(** What one relaxation does to the partial paths and to the best
    path. *)
Lemma relax_paths_effect (v : node) (st st' : bd_state) (wc : node * xnum) :
  relax v st wc = Ok st' ->
  (paths st' = paths st /\ finalpath st' = finalpath st /\ finaldist st' = finaldist st)
  \/ exists pv,
       sel (dir st) (paths st) !! v = Some pv
       /\ paths st' = upd (dir st) (<[wc.1 := pv ++ [wc.1]]> (sel (dir st) (paths st))) (paths st)
       /\ ((finalpath st' = finalpath st /\ finaldist st' = finaldist st)
           \/ exists p0 p1 td,
                (paths st').1 !! wc.1 = Some p0 /\ (paths st').2 !! wc.1 = Some p1
                /\ finalpath st' = p0 ++ drop 1 (reverse p1)
                /\ finaldist st' = Some td).
Proof.
  intros H. unfold relax, mbind, res_bind, from_option in H.
  destruct wc as [w cost]. cbn [fst].
  destruct (sel (dir st) (dists st) !! v) as [dv|]; [|discriminate].
  destruct (sel (dir st) (dists st) !! w) as [dw|].
  { destruct (xltb _ dw); [discriminate|]. injection H as <-. by left. }
  destruct (match sel (dir st) (seen st) !! w with Some sw => _ | None => true end).
  2:{ injection H as <-. by left. }
  destruct (sel (dir st) (paths st) !! v) as [pv|]; [|discriminate].
  right. exists pv. split; [reflexivity|].
  destruct (_.1 !! w) as [s0|]; [|injection H as <-; split; [reflexivity | by left]].
  destruct (_.2 !! w) as [s1|]; [|injection H as <-; split; [reflexivity | by left]].
  destruct (match finalpath st with [] => _ | _ :: _ => _ end) as [[|]|]; [| |discriminate].
  - destruct (_.1 !! w) as [p0|] eqn:E0; [|discriminate].
    destruct (_.2 !! w) as [p1|] eqn:E1; [|discriminate].
    injection H as <-. cbn [paths finalpath finaldist]. split; [reflexivity|].
    right. by exists p0, p1, (xadd s0 s1).
  - injection H as <-. split; [reflexivity | by left].
Qed.

Lemma relax_paths_ok (v : node) (st st' : bd_state) (wc : node * xnum) :
  paths_ok source target st -> relax v st wc = Ok st' -> paths_ok source target st'.
Proof.
  intros (H1 & H2 & H3 & H4) H.
  apply relax_paths_effect in H as [(Hp & Hf & Hd)|(pv & Hpv & Hp & Hfin)].
  { unfold paths_ok. rewrite Hp, Hf, Hd. exact (conj H1 (conj H2 (conj H3 H4))). }
  assert (H1' : forall x p, (paths st').1 !! x = Some p -> joins source x p).
  { rewrite Hp. destruct (dir st); cbn [sel upd fst snd] in *; [exact H1|].
    intros x p. rewrite lookup_insert. case_decide as Hx; [|apply H1].
    subst x. intros [= <-]. eapply joins_snoc. eauto. }
  assert (H2' : forall x p, (paths st').2 !! x = Some p -> joins target x p).
  { rewrite Hp. destruct (dir st); cbn [sel upd fst snd] in *; [|exact H2].
    intros x p. rewrite lookup_insert. case_decide as Hx; [|apply H2].
    subst x. intros [= <-]. eapply joins_snoc. eauto. }
  split; [exact H1'|]. split; [exact H2'|].
  destruct Hfin as [[-> ->]|(p0 & p1 & td & E0 & E1 & -> & ->)]; [by split|].
  pose proof (joins_meet _ _ _ _ _ (H1' _ _ E0) (H2' _ _ E1)) as Hj.
  split; [by right|]. intros _ Hnil. rewrite Hnil in Hj. destruct Hj as [Hj _]. discriminate.
Qed.

Lemma relax_all_paths_ok (v : node) (ns : list (node * xnum)) (st st' : bd_state) :
  paths_ok source target st -> relax_all v st ns = Ok st' -> paths_ok source target st'.
Proof.
  revert st. induction ns as [|wc ns IH]; intros st Hok H.
  - by injection H as <-.
  - cbn [relax_all] in H. unfold mbind, res_bind in H.
    destruct (relax v st wc) as [st1|] eqn:E; [|discriminate].
    eapply IH; [|exact H]. by eapply relax_paths_ok.
Qed.

Lemma bd_loop_joins (es : list wedge) (fuel : nat) (st : bd_state) (d : xnum) (p : list node) :
  paths_ok source target st ->
  bd_loop es fuel st = Ok (d, p) ->
  joins source target p.
Proof.
  revert st. induction fuel as [|fuel IH]; intros st Hok H; [discriminate|].
  cbn [bd_loop] in H.
  destruct (fringe st).1 as [|x0 f0]; [discriminate|].
  destruct (fringe st).2 as [|x1 f1]; [discriminate|].
  destruct (heappop _) as [[[[dist cnt] v] rest]|]; [|discriminate].
  destruct (sel (negb (dir st)) (dists st) !! v).
  - eapply IH; [|exact H]. exact Hok.
  - destruct (sel (negb (negb (dir st))) _ !! v).
    + unfold mbind, res_bind, from_option in H.
      destruct (finaldist st) as [fd|] eqn:Hfd; [|discriminate].
      injection H as <- <-. destruct Hok as (_ & _ & [Hnil|Hj] & Hne); [|exact Hj].
      exfalso. apply Hne; [rewrite Hfd; eauto | exact Hnil].
    + unfold mbind, res_bind in H.
      destruct (relax_all v _ _) as [st2|] eqn:Er; [|discriminate].
      eapply IH; [|exact H]. eapply relax_all_paths_ok; [|exact Er]. exact Hok.
Qed.

Lemma bd_init_paths_ok : paths_ok source target (bd_init source target).
Proof.
  unfold paths_ok, bd_init. cbn [paths finalpath finaldist fst snd].
  split; [|split; [|split]].
  - intros x p. rewrite lookup_singleton. case_decide; [|discriminate].
    subst. intros [= <-]. by split.
  - intros x p. rewrite lookup_singleton. case_decide; [|discriminate].
    subst. intros [= <-]. by split.
  - by left.
  - intros [? ?]. discriminate.
Qed.

End SearchPaths.

(** The path [nx.shortest_path] returns starts at the source and ends at
    the target. *)
Lemma shortest_path_joins (ns : list node) (es : list NX.wedge) (s t : node) (p : list node) :
  NX.shortest_path ns es s t = Ok p -> joins s t p.
Proof.
  unfold NX.shortest_path, NX.bidirectional_dijkstra, mbind, res_bind.
  destruct (negb _); [discriminate|]. destruct (negb _); [discriminate|].
  case_bool_decide as Hst.
  - subst t. intros [= <-]. by split.
  - destruct (NX.bd_loop _ _ _) as [[d q]|] eqn:E; [|discriminate].
    intros [= <-]. eapply bd_loop_joins; [|exact E]. apply bd_init_paths_ok.
Qed.

(** X1: A path the pathfinder returns is a walk of the graph from the source
    to the target, both nodes of the graph: no route is ever reported to
    a node that cannot be reached along edges. *)
Theorem found_path_is_a_walk (self : worker) (s t : node) (rain : Z)
    (path : list node) (len : xnum) :
  Worker.find_danger_aware_shortest_path self s t rain = Ok (Some path, len) ->
  walk (G self) s t path /\ s ∈ nodes (G self) /\ t ∈ nodes (G self).
Proof.
  intros H.
  destruct (find_path_needs_endpoints self rain s t (Some path) len H) as [Hs Ht].
  { apply find_path_inv in H as (Hsp & _). apply shortest_path_joins in Hsp as [Hh _].
    apply head_Some in Hh as [q ->]. reflexivity. }
  apply find_path_inv in H as (Hsp & total & Hloop & _).
  split; [|by split]. split; [by eapply shortest_path_joins|].
  by apply path_length_loop_sum in Hloop as [_ HF].
Qed.

(** ** The plan handed to the walk *)

Section RouteWalk.
Import Worker.
Variable self : worker.
Variable rain : Z.

Lemma found_path_walk (s t : node) (path : list node) (len : xnum) :
  find_danger_aware_shortest_path self s t rain = Ok (Some path, len) ->
  walk (G self) s t path.
Proof.
  intros H. apply find_path_inv in H as (Hsp & total & Hloop & _).
  split; [by eapply shortest_path_joins|].
  by apply path_length_loop_sum in Hloop as [_ HF].
Qed.

(** What the scan returns with a selected node: the path found to it. *)
Lemma nearest_path (current : node) (cands : list node)
    (best best' : option node * xnum * option (list node)) :
  nearest self current rain cands best = Ok best' ->
  (forall n, best.1.1 = Some n ->
     exists path, best.2 = Some path
       /\ find_danger_aware_shortest_path self current n rain = Ok (Some path, best.1.2)) ->
  forall n, best'.1.1 = Some n ->
    exists path, best'.2 = Some path
      /\ find_danger_aware_shortest_path self current n rain = Ok (Some path, best'.1.2).
Proof.
  revert best. induction cands as [|c cands IH]; intros best H Hb.
  - by injection H as <-.
  - cbn [nearest] in H. unfold mbind, res_bind in H.
    destruct (find_danger_aware_shortest_path self current c rain) as [[p d]|e] eqn:E;
      [|discriminate].
    destruct best as [[bn bd] bp].
    destruct (truthy_list p && xltb d bd) eqn:T.
    + apply (IH _ H). cbn [fst snd]. intros n [= <-].
      apply andb_true_iff in T as [Tp _]. destruct p as [[|x p]|]; try discriminate.
      by eexists.
    + by apply (IH _ H).
Qed.

Lemma hops_join (ps l : list node) (c : node) :
  last ps = Some c -> hops (ps ++ l) = hops ps ++ hops (c :: l).
Proof.
  intros Hl. apply last_Some in Hl as [q ->]. rewrite <- app_assoc. cbn [app].
  induction q as [|x [|y q] IH]; [reflexivity| |].
  - cbn [app]. destruct l; reflexivity.
  - change (hops ((x :: y :: q) ++ c :: l)) with ((x, y) :: hops ((y :: q) ++ c :: l)).
    change (hops ((x :: y :: q) ++ [c])) with ((x, y) :: hops ((y :: q) ++ [c])).
    rewrite IH. reflexivity.
Qed.

Lemma walk_extend (s c n : node) (ps path : list node) :
  walk (G self) s c ps -> walk (G self) c n path ->
  walk (G self) s n (ps ++ drop 1 path).
Proof.
  intros [[Hh Hl] HF] [[Hh' Hl'] HF'].
  apply head_Some in Hh' as [q ->]. cbn [drop]. rewrite drop_0.
  split; [split|].
  - apply head_Some in Hh as [q0 ->]. reflexivity.
  - rewrite last_app. destruct q as [|y q]; [cbn in *; congruence|].
    rewrite last_cons in Hl'. destruct (last (y :: q)) eqn:E; [exact Hl'|].
    apply last_None in E. discriminate.
  - rewrite (hops_join ps q c Hl). by apply Forall_app.
Qed.

End RouteWalk.

Section RoutePlan.
Import Worker.
Variable self : worker.
Variable rain : Z.
Variable start : node.

Lemma nearest_leg (current : node) (cands : list node) (n : node) (sd : xnum)
    (sp : option (list node)) :
  nearest self current rain cands (None, PInf, None) = Ok (Some n, sd, sp) ->
  exists path, sp = Some path
    /\ walk (G self) current n path /\ sd = Fin (sum_original (G self) path).
Proof.
  intros H.
  destruct (nearest_path self rain current cands _ _ H) with (n := n)
    as (path & Hsp & Hfind); [discriminate | reflexivity |].
  cbn [fst snd] in Hsp, Hfind. exists path. split; [exact Hsp|].
  split; [by eapply found_path_walk|].
  apply find_path_inv in Hfind as (_ & total & Hloop & ->).
  by apply path_length_loop_sum in Hloop as [-> _].
Qed.

Lemma route_loop_plan (fuel : nat) (unvisited : gset node) (current : node)
    (route ps : list node) (total : xnum)
    (route' : list node) (total' : xnum) (ps'' : option (list node)) :
  route_loop self rain fuel unvisited current route ps total = Ok (Some route', total', ps'') ->
  last route = Some current -> walk (G self) start current ps ->
  exists ps' c' stops legs,
    ps'' = Some ps' /\ last route' = Some c' /\ walk (G self) start c' ps'
    /\ route' = route ++ stops /\ legs_between (G self) current stops legs
    /\ ps' = extend_path ps legs /\ total' = add_legs (G self) total legs.
Proof.
  revert unvisited current route ps total.
  induction fuel as [|fuel IH]; intros unvisited current route ps total H Hl Hw.
  - cbn [route_loop] in H. case_bool_decide as Hu; [|discriminate].
    injection H as <- <- <-. exists ps, current, [], []. rewrite app_nil_r.
    split; [reflexivity|]. split; [exact Hl|]. split; [exact Hw|].
    split; [reflexivity|]. split; [exact I|]. split; reflexivity.
  - cbn [route_loop] in H. case_bool_decide as Hu.
    { injection H as <- <- <-. exists ps, current, [], []. rewrite app_nil_r.
      split; [reflexivity|]. split; [exact Hl|]. split; [exact Hw|].
      split; [reflexivity|]. split; [exact I|]. split; reflexivity. }
    destruct (nearest self current rain (elements unvisited) (None, PInf, None))
      as [[[nn sd] sp]|e] eqn:En; [|discriminate].
    cbn [mbind res_bind] in H.
    destruct nn as [n|]; [|discriminate].
    destruct (truthy_node (Some n)); [|discriminate].
    apply nearest_leg in En as (path & -> & Hleg & ->).
    change (default [] (Some path)) with path in H.
    apply IH in H as (ps' & c' & stops & legs & Hps & Hl' & Hw' & Hr & Hlegs & Hext & Htot);
      [|by rewrite last_snoc | by eapply walk_extend].
    exists ps', c', (n :: stops), (path :: legs).
    split; [exact Hps|]. split; [exact Hl'|]. split; [exact Hw'|].
    split; [by rewrite Hr, <- app_assoc|]. split; [by split|].
    split; [exact Hext | exact Htot].
Qed.

Lemma route_plan (deliveries route : list node) (total : xnum) (ps : option (list node)) :
  find_disaster_aware_route self start deliveries rain = Ok (Some route, total, ps) ->
  exists ps', ps = Some ps' /\ planned (G self) start route ps' total.
Proof.
  unfold find_disaster_aware_route. intros H.
  apply route_loop_plan in H as (ps' & c' & stops & legs & -> & Hl & Hw & -> & Hlegs & -> & ->).
  - eexists. split; [reflexivity|]. split; [reflexivity|]. split; [by exists c'|].
    by exists legs.
  - reflexivity.
  - split; [by split | constructor].
Qed.

(** The stops appended are arrived at along the path sequence when the
    current node is not among the nodes still to visit. *)
Lemma route_loop_arrives (fuel : nat) (unvisited : gset node) (current : node)
    (route ps : list node) (total : xnum)
    (route' : list node) (total' : xnum) (ps' : list node) :
  route_loop self rain fuel unvisited current route ps total = Ok (Some route', total', Some ps') ->
  current ∉ unvisited ->
  exists extra more, route' = route ++ extra /\ ps' = ps ++ more
    /\ forall n, n ∈ extra -> n ∈ more.
Proof.
  revert unvisited current route ps total.
  induction fuel as [|fuel IH]; intros unvisited current route ps total H Hout.
  - cbn [route_loop] in H. case_bool_decide as Hu; [|discriminate].
    injection H as <- <- <-. exists [], []. rewrite !app_nil_r. by repeat split.
  - cbn [route_loop] in H. case_bool_decide as Hu.
    { injection H as <- <- <-. exists [], []. rewrite !app_nil_r. by repeat split. }
    destruct (nearest self current rain (elements unvisited) (None, PInf, None))
      as [[[nn sd] sp]|e] eqn:En; [|discriminate].
    cbn [mbind res_bind] in H.
    destruct nn as [n|]; [|discriminate].
    destruct (truthy_node (Some n)); [|discriminate].
    destruct (nearest_from_nothing self rain _ _ _ n En eq_refl) as (_ & _ & Hin).
    apply elem_of_elements in Hin.
    apply nearest_leg in En as (path & -> & [[Hhead Hlast] _] & _).
    change (default [] (Some path)) with path in H.
    apply IH in H as (extra & more & -> & -> & Hall).
    2:{ rewrite elem_of_difference, elem_of_singleton. tauto. }
    exists (n :: extra), (drop 1 path ++ more).
    split; [by rewrite <- app_assoc|]. split; [by rewrite <- app_assoc|].
    intros x Hx. apply elem_of_app. apply elem_of_cons in Hx as [->|Hx]; [left | right; by apply Hall].
    apply head_Some in Hhead as [q ->]. cbn [drop]. rewrite drop_0.
    destruct q as [|y q].
    + cbn in Hlast. injection Hlast as <-. contradiction.
    + rewrite last_cons in Hlast. destruct (last (y :: q)) as [z|] eqn:E.
      * injection Hlast as ->. apply last_Some in E as [q' ->].
        apply elem_of_app. right. by apply list_elem_of_singleton.
      * apply last_None in E. discriminate.
Qed.

Lemma route_arrives (deliveries route ps : list node) (total : xnum) :
  find_disaster_aware_route self start deliveries rain = Ok (Some route, total, Some ps) ->
  start ∉ deliveries ->
  forall n, n ∈ drop 1 route -> n ∈ drop 1 ps.
Proof.
  unfold find_disaster_aware_route. intros H Hout.
  apply route_loop_arrives in H as (extra & more & -> & -> & Hall).
  - exact Hall.
  - by rewrite elem_of_list_to_set.
Qed.

(** Stop 0 is never appended: [if next_node:] takes it for no node. *)
Lemma route_loop_nonzero (fuel : nat) (unvisited : gset node) (current : node)
    (route ps : list node) (total : xnum)
    (route' : list node) (total' : xnum) (ps' : option (list node)) :
  route_loop self rain fuel unvisited current route ps total = Ok (Some route', total', ps') ->
  0 ∉ unvisited.
Proof.
  revert unvisited current route ps total.
  induction fuel as [|fuel IH]; intros unvisited current route ps total H.
  - cbn [route_loop] in H. case_bool_decide as Hu; [|discriminate].
    rewrite Hu. apply not_elem_of_empty.
  - cbn [route_loop] in H. case_bool_decide as Hu.
    { rewrite Hu. apply not_elem_of_empty. }
    destruct (nearest self current rain (elements unvisited) (None, PInf, None))
      as [[[nn sd] sp]|e] eqn:En; [|discriminate].
    cbn [mbind res_bind] in H.
    destruct nn as [n|]; [|discriminate].
    destruct (truthy_node (Some n)) eqn:T; [|discriminate].
    cbn [truthy_node] in T. apply negb_true_iff, bool_decide_eq_false in T.
    apply IH in H. rewrite elem_of_difference, elem_of_singleton in H.
    intros H0. apply H. split; [exact H0 | congruence].
Qed.

End RoutePlan.

Section PlannedWalk.
Import Worker.
Variable self : worker.
Variable rain : Z.

Lemma move_step_reason (dset : gset node) (u v : node) (st : move_state) (m : movement) :
  move_step self rain dset u v st = inl m ->
  has_edge (G self) u v = true ->
  m_reason m = "Encountered blocked road" \/ m_reason m = "Speed dropped to zero".
Proof.
  unfold move_step, has_edge.
  destruct (get_edge_data (G self) u v) as [d|]; [|discriminate].
  destruct (is_edge_blocked d rain); [intros [= <-] _; by left|].
  cbv zeta. destruct (Qle_bool _ 0); [|discriminate].
  intros [= <-] _. by right.
Qed.

Lemma move_loop_reasons (dset : gset node) (path : list node) (st : move_state) :
  Forall (fun uv => has_edge (G self) uv.1 uv.2 = true) (hops path) ->
  m_reason (move_loop self rain dset path st) ∈ drop 1 trial_reasons.
Proof.
  revert st. induction path as [|u [|v rest] IH]; intros st HF.
  - cbn. destruct (bool_decide _); rewrite !elem_of_cons; tauto.
  - cbn. destruct (bool_decide _); rewrite !elem_of_cons; tauto.
  - rewrite move_loop_unfold. rewrite hops_cons2 in HF.
    apply Forall_cons in HF as [Huv HF]. cbn [fst snd] in Huv.
    destruct (move_step self rain dset u v st) as [m|st'] eqn:E.
    + cbn [drop trial_reasons]. rewrite !elem_of_cons.
      destruct (move_step_reason _ _ _ _ _ E Huv) as [-> | ->]; tauto.
    + by apply IH.
Qed.




(** A walk that reaches the end of a path arriving at every stop of the
    router's route is a success. *)
Lemma covering_walk_succeeds (route path : list node) :
  (forall n, n ∈ drop 1 route <-> n ∈ delivery_nodes self) ->
  (forall n, n ∈ drop 1 route -> n ∈ drop 1 path) ->
  completed (simulate_movement self route path rain) ->
  m_success (simulate_movement self route path rain) = true.
Proof.
  intros Hstops Harr Hc.
  destruct (simulate_movement_completed self rain route path Hc) as [-> _].
  apply bool_decide_eq_true.
  assert (HSD : (list_to_set (drop 1 route) : gset node) = list_to_set (delivery_nodes self)).
  { apply set_eq. intros x. rewrite !elem_of_list_to_set. apply Hstops. }
  rewrite HSD. apply nothing_remains_iff. intros x Hx.
  apply elem_of_list_to_set. apply Harr, Hstops. by apply elem_of_list_to_set in Hx.
Qed.

End PlannedWalk.

(** The trial hands the router's plan to the walk. *)
Lemma trial_of_plan (self : worker) (rain : Z) (result : gmap string pyval) :
  Worker.simulate_delivery self rain = Ok result ->
  result = Worker.no_route_result
  \/ exists route total ps,
       Worker.find_disaster_aware_route self (start_node self) (delivery_nodes self) rain
       = Ok (Some route, total, Some ps)
       /\ planned (G self) (start_node self) route ps total
       /\ (forall n, n ∈ drop 1 route <-> n ∈ delivery_nodes self)
       /\ result = movement_record (Worker.simulate_movement self route ps rain).
Proof.
  intros H. apply simulate_delivery_cases in H as [[-> _]|(route & total & ps & Hr & ->)];
    [by left | right].
  destruct (route_plan self rain _ _ _ _ _ Hr) as (ps' & -> & Hplan).
  exists route, total, ps'. split; [exact Hr|]. split; [exact Hplan|].
  split; [|reflexivity]. by apply route_stops_are_deliveries in Hr as [Hstops _].
Qed.

(** X5: Whenever the router builds a route, it also returns a path
    sequence: a walk along edges of the graph from the start node to the
    last stop of the route.  It is the legs between consecutive stops,
    each a walk of the graph, joined in the order of the route, and the
    total returned is the lengths of the legs added in that order from
    0, the length of a leg being the sum of the stored lengths of its
    hops from first to last. *)
Theorem built_route_is_planned (self : worker) (rain : Z) (start : node)
    (deliveries route : list node) (total : xnum) (ps : option (list node)) :
  Worker.find_disaster_aware_route self start deliveries rain = Ok (Some route, total, ps) ->
  exists ps', ps = Some ps' /\ planned (G self) start route ps' total.
Proof. apply route_plan. Qed.

(** X11: A trial reports one of five reasons; the walk never finds an edge
    of the planned path missing. *)
Theorem trial_reason_is_known (self : worker) (rain : Z) (result : gmap string pyval) :
  Worker.simulate_delivery self rain = Ok result ->
  exists r, result !! "reason" = Some (VStr r) /\ r ∈ trial_reasons
            /\ r <> "Edge no longer exists".
Proof.
  intros H. apply trial_of_plan in H as [->|(route & total & ps & _ & Hplan & _ & ->)].
  - exists "No valid route found initially". split; [vm_refl|].
    split; [apply list_elem_of_here | done].
  - destruct (movement_record_fields (Worker.simulate_movement self route ps rain))
      as (_ & _ & _ & _ & _ & Hreason).
    eexists. split; [exact Hreason|].
    destruct Hplan as (_ & (c & _ & _ & HF) & _).
    pose proof (move_loop_reasons self rain (list_to_set (drop 1 route)) ps
                  (Worker.mk_move 0 0 (mk_counts 0 0) ∅ (list_to_set (delivery_nodes self))) HF)
      as Hr.
    fold (Worker.simulate_movement self route ps rain) in Hr.
    split; [by apply list_elem_of_further|]. intros Heq. rewrite Heq in Hr.
    cbn [drop trial_reasons] in Hr. rewrite !elem_of_cons, elem_of_nil in Hr.
    destruct Hr as [Hr|[Hr|[Hr|[Hr|[]]]]]; discriminate Hr.
Qed.

(** X12: With the start node not among the delivery nodes, a trial whose walk
    reaches the end of the planned path is a success: no trial reports
    missed deliveries. *)
Theorem completed_trial_succeeds (self : worker) (rain : Z) (result : gmap string pyval) :
  start_node self ∉ delivery_nodes self ->
  Worker.simulate_delivery self rain = Ok result ->
  result !! "reason" <> Some (VStr "Some deliveries missed").
Proof.
  intros Hout H.
  apply trial_of_plan in H as [->|(route & total & ps & Hr & _ & Hstops & ->)].
  - assert (Hno : Worker.no_route_result !! "reason"
                  = Some (VStr "No valid route found initially")) by vm_refl.
    rewrite Hno. discriminate.
  - destruct (movement_record_fields (Worker.simulate_movement self route ps rain))
      as (_ & _ & _ & _ & _ & ->).
    intros [= Hm].
    pose proof (route_arrives self rain _ _ _ _ _ Hr Hout) as Harr.
    assert (Hs : m_success (Worker.simulate_movement self route ps rain) = true).
    { apply covering_walk_succeeds; [exact Hstops | exact Harr | by right]. }
    unfold Worker.simulate_movement in Hs, Hm.
    apply move_loop_success_completed in Hs. congruence.
Qed.


(** X6: [if next_node:] takes node 0 for no node: with 0 among the delivery
    nodes no route is ever built, and every trial that returns reports
    that no route was found. *)
Theorem node_zero_is_never_routed (self : worker) (rain : Z) (result : gmap string pyval) :
  0 ∈ delivery_nodes self ->
  Worker.simulate_delivery self rain = Ok result ->
  result = Worker.no_route_result.
Proof.
  intros H0 H. apply trial_of_plan in H as [->|(route & total & ps & Hr & _)]; [reflexivity|].
  unfold Worker.find_disaster_aware_route in Hr. apply route_loop_nonzero in Hr.
  exfalso. apply Hr. by apply elem_of_list_to_set.
Qed.

(** X7: The walk counts at most one flood and one landslide per hop, and
    never a disaster that blocks: no landslide from rain intensity 4,
    no flood at 5. *)
Theorem encounters_are_bounded (self : worker) (rain : Z) (route path : list node) :
  0 <= floods (m_encounters (Worker.simulate_movement self route path rain))
    <= Z.of_nat (length (hops path))
  /\ 0 <= landslides (m_encounters (Worker.simulate_movement self route path rain))
     <= Z.of_nat (length (hops path))
  /\ (4 <= rain -> landslides (m_encounters (Worker.simulate_movement self route path rain)) = 0)
  /\ (5 <= rain -> floods (m_encounters (Worker.simulate_movement self route path rain)) = 0).
Proof.
  unfold Worker.simulate_movement.
  pose proof (move_loop_encounters self rain (list_to_set (drop 1 route)) path
                (Worker.mk_move 0 0 (mk_counts 0 0) ∅ (list_to_set (delivery_nodes self)))) as H.
  cbn [Worker.disaster_encounters floods landslides] in H. lia.
Qed.

(** X8: A walk that reaches the end of its path covered the stored length
    of every hop (0 for an edge without the attribute), over edges that
    exist and are not blocked. *)
Theorem completed_walk_distance (self : worker) (rain : Z) (route path : list node) :
  completed (Worker.simulate_movement self route path rain) ->
  m_distance (Worker.simulate_movement self route path rain)
  = fold_left Qplus (walked_length (G self) <$> hops path) 0%Q
  /\ Forall (fun uv => exists d, get_edge_data (G self) uv.1 uv.2 = Some d
                                 /\ Worker.is_edge_blocked d rain = false) (hops path).
Proof. unfold Worker.simulate_movement. apply move_loop_distance. Qed.

(** X15: The distance a successful trial reports is the sum, hop by
    hop from the first, of the stored lengths (0 when missing) along
    the path sequence the router built, every hop an edge that is not
    blocked. *)
Theorem successful_trial_walks_the_plan (self : worker) (rain : Z)
    (route : list node) (total : xnum) (ps : list node)
    (result : gmap string pyval) :
  Worker.find_disaster_aware_route self (start_node self) (delivery_nodes self) rain
  = Ok (Some route, total, Some ps) ->
  Worker.simulate_delivery self rain = Ok result ->
  result !! "success" = Some (VBool true) ->
  result !! "distance"
  = Some (VNum (fold_left Qplus (walked_length (G self) <$> hops ps) 0%Q))
  /\ Forall (fun uv => exists d, get_edge_data (G self) uv.1 uv.2 = Some d
                                 /\ Worker.is_edge_blocked d rain = false) (hops ps).
Proof.
  intros Hr H.
  apply simulate_delivery_cases in H as [[-> _]|(route' & total' & ps' & Hr' & ->)].
  - intros Hs. exfalso. revert Hs.
    assert (Hno : Worker.no_route_result !! "success" = Some (VBool false)) by vm_refl.
    rewrite Hno. discriminate.
  - rewrite Hr in Hr'. injection Hr' as <- <- <-.
    change (default [] (Some ps)) with ps in *.
    destruct (movement_record_fields (Worker.simulate_movement self route ps rain))
      as (-> & -> & _).
    intros [= Hs].
    assert (Hc : completed (Worker.simulate_movement self route ps rain)).
    { left. unfold Worker.simulate_movement in *. by apply move_loop_success_completed. }
    unfold Worker.simulate_movement in *.
    apply move_loop_distance in Hc as [-> HF]. by split.
Qed.

Section RouteStops.
Import Worker.
Variable self : worker.
Variable rain : Z.

Lemma route_loop_once (fuel : nat) (unvisited : gset node) (current : node)
    (route ps : list node) (total : xnum)
    (route' : list node) (total' : xnum) (ps' : option (list node)) :
  route_loop self rain fuel unvisited current route ps total = Ok (Some route', total', ps') ->
  exists extra, route' = route ++ extra /\ NoDup extra
    /\ forall n, n ∈ extra <-> n ∈ unvisited.
Proof.
  revert unvisited current route ps total.
  induction fuel as [|fuel IH]; intros unvisited current route ps total H.
  - cbn [route_loop] in H. case_bool_decide as Hu; [|discriminate].
    injection H as <- <- <-. exists []. rewrite app_nil_r. split; [reflexivity|].
    split; [constructor|]. intros n. rewrite Hu, elem_of_nil. split; [done|].
    apply not_elem_of_empty.
  - cbn [route_loop] in H. case_bool_decide as Hu.
    { injection H as <- <- <-. exists []. rewrite app_nil_r. split; [reflexivity|].
      split; [constructor|]. intros n. rewrite Hu, elem_of_nil. split; [done|].
      apply not_elem_of_empty. }
    destruct (nearest self current rain (elements unvisited) (None, PInf, None))
      as [[[nn sd] sp]|e] eqn:En; [|discriminate].
    cbn [mbind res_bind] in H.
    destruct nn as [n|]; [|discriminate].
    destruct (truthy_node (Some n)); [|discriminate].
    destruct (nearest_from_nothing self rain _ _ _ n En eq_refl) as (_ & _ & Hin).
    apply elem_of_elements in Hin.
    apply IH in H as (extra & -> & Hnd & Hiff).
    exists (n :: extra). split; [by rewrite <- app_assoc|]. split.
    + apply NoDup_cons. split; [|exact Hnd]. rewrite Hiff, elem_of_difference, elem_of_singleton.
      tauto.
    + intros x. rewrite elem_of_cons, Hiff, elem_of_difference, elem_of_singleton.
      destruct (decide (x = n)) as [->|Hne]; tauto.
Qed.

(** X4: A route that is built is the start node followed by every delivery
    node exactly once, each a node of the graph other than node 0. *)
Theorem route_visits_each_delivery_once (start : node) (deliveries route : list node)
    (total : xnum) (ps : option (list node)) :
  find_disaster_aware_route self start deliveries rain = Ok (Some route, total, ps) ->
  exists stops, route = start :: stops /\ NoDup stops
    /\ (forall n, n ∈ stops <-> n ∈ deliveries)
    /\ Forall (fun n => n ∈ nodes (G self) /\ n <> 0) stops.
Proof.
  unfold find_disaster_aware_route. intros H.
  pose proof (route_loop_nonzero self rain _ _ _ _ _ _ _ _ _ H) as Hz.
  pose proof (route_loop_stops self rain _ _ _ _ _ _ _ _ _ H) as (extra' & He' & _ & Hnodes).
  apply route_loop_once in H as (extra & -> & Hnd & Hiff).
  apply app_inv_head in He' as <-.
  exists extra. split; [reflexivity|]. split; [exact Hnd|]. split.
  - intros n. rewrite Hiff. apply elem_of_list_to_set.
  - rewrite Forall_forall in Hnodes |- *. intros n Hn. split; [by apply Hnodes|].
    intros ->. apply Hz. by apply Hiff.
Qed.

End RouteStops.

(** ** No exception with positive lengths *)

Section Order.

Lemma Qltb_irrefl (a : Q) : Qltb a a = false.
Proof. unfold Qltb. apply negb_false_iff, Qle_bool_iff. apply Qle_refl. Qed.

Lemma Qltb_false (a b : Q) : Qltb a b = false <-> (b <= a)%Q.
Proof. unfold Qltb. rewrite negb_false_iff. apply Qle_bool_iff. Qed.

Lemma xle_refl (x : xnum) : good x -> xle x x.
Proof. destruct x; cbn; try done. intros _. apply Qltb_irrefl. Qed.

Lemma xle_trans (x y z : xnum) :
  good x -> good y -> good z -> xle x y -> xle y z -> xle x z.
Proof.
  unfold xle. destruct x, y, z; cbn; try done.
  rewrite !Qltb_false. intros _ _ _. apply Qle_trans.
Qed.

Lemma xle_add (x c : xnum) : good x -> good c -> good (xadd x c) /\ xle x (xadd x c).
Proof.
  unfold xle. destruct x, c; cbn; try done.
  intros Hx Hc. split; [lra|]. apply Qltb_false. lra.
Qed.

Lemma xeqb_le (x y : xnum) : xeqb x y = true -> xle x y /\ xle y x.
Proof.
  unfold xle. destruct x, y; cbn; try done.
  intros H. apply Qeq_bool_iff in H. rewrite !Qltb_false. split; lra.
Qed.

Lemma xltb_le (x y : xnum) : xltb x y = true -> xle x y.
Proof.
  unfold xle. destruct x, y; cbn; try done.
  intros H. apply Qltb_lt in H. apply Qltb_false. lra.
Qed.

End Order.

Section Heap.
Import NX.

Lemma heappop_none (h : list entry) : heappop h = None -> h = [].
Proof.
  destruct h as [|x t]; [reflexivity|]. cbn [heappop].
  destruct (heappop t) as [[m rest]|]; [|discriminate].
  destruct (entry_lt m x); discriminate.
Qed.

Lemma entry_lt_le (a b : entry) : entry_lt a b = true -> xle a.1.1 b.1.1.
Proof.
  destruct a as [[d1 c1] v1], b as [[d2 c2] v2]. cbn [entry_lt fst snd].
  destruct (xeqb d1 d2) eqn:E; [intros _; exact (proj1 (xeqb_le _ _ E)) | apply xltb_le].
Qed.

Lemma entry_lt_ge (a b : entry) : entry_lt a b = false -> xle b.1.1 a.1.1.
Proof.
  destruct a as [[d1 c1] v1], b as [[d2 c2] v2]. cbn [entry_lt fst snd].
  destruct (xeqb d1 d2) eqn:E; [intros _; exact (proj2 (xeqb_le _ _ E)) | done].
Qed.

(** [heappop] returns an entry of the heap with the least distance and
    leaves the others. *)
Lemma heappop_min (h rest : list entry) (m : entry) :
  heappop h = Some (m, rest) ->
  (forall e, e ∈ h -> good e.1.1) ->
  (forall e, e ∈ h <-> e = m \/ e ∈ rest)
  /\ forall e, e ∈ rest -> xle m.1.1 e.1.1.
Proof.
  revert rest m. induction h as [|x t IH]; intros rest m H Hg; [discriminate|].
  cbn [heappop] in H.
  destruct (heappop t) as [[m' rest']|] eqn:E.
  - destruct (IH rest' m' eq_refl) as [Hmem Hmin].
    { intros e He. apply Hg. by apply list_elem_of_further. }
    destruct (entry_lt m' x) eqn:L; injection H as <- <-.
    + split.
      * intros e. rewrite !elem_of_cons, Hmem. tauto.
      * intros e. rewrite elem_of_cons. intros [->|He]; [by apply entry_lt_le | by apply Hmin].
    + split.
      * intros e. rewrite elem_of_cons. tauto.
      * intros e He. apply entry_lt_ge in L.
        apply Hmem in He as [->|He]; [exact L|].
        apply (xle_trans _ m'.1.1).
        -- apply Hg. apply list_elem_of_here.
        -- apply Hg. apply list_elem_of_further, Hmem. by left.
        -- apply Hg. apply list_elem_of_further, Hmem. by right.
        -- exact L.
        -- by apply Hmin.
  - apply heappop_none in E. subst t. injection H as <- <-. split.
    + intros e. rewrite elem_of_cons. tauto.
    + intros e He. by apply elem_of_nil in He.
Qed.

Lemma side_ok_pop (D : gmap node xnum) (F rest : list entry) (S : gmap node xnum)
    (P : gmap node (list node)) (x : xnum) (k : nat) (v : node) :
  side_ok D F S P -> heappop F = Some ((x, k, v), rest) ->
  side_ok D rest S P /\ good x /\ is_Some (S !! v)
  /\ (forall w y, D !! w = Some y -> xle y x)
  /\ side_ok (<[v := x]> D) rest S P.
Proof.
  intros (Hg1 & Hg2 & Hb & Hs & Hk) Hpop.
  destruct (heappop_min _ _ _ Hpop) as [Hmem Hmin]; [intros e He; by apply Hg2|].
  assert (Hin : (x, k, v) ∈ F) by (apply Hmem; by left).
  assert (Hsub : forall e, e ∈ rest -> e ∈ F) by (intros e He; apply Hmem; by right).
  destruct (Hg2 _ Hin) as [Hgx Hsv]. cbn [fst snd] in Hgx, Hsv.
  split; [|split; [exact Hgx|split; [exact Hsv|split]]].
  - split; [exact Hg1|]. split; [intros e He; by apply Hg2, Hsub|].
    split; [intros w y e Hw He; eapply Hb; [exact Hw | by apply Hsub]|]. by split.
  - intros w y Hw. by apply (Hb w y (x, k, v)).
  - split; [|split; [|split; [|split]]].
    + intros w y. rewrite lookup_insert. case_decide; [intros [= <-]; exact Hgx | apply Hg1].
    + intros e He. by apply Hg2, Hsub.
    + intros w y e. rewrite lookup_insert. case_decide.
      * intros [= <-] He. by apply (Hmin e).
      * intros Hw He. eapply Hb; [exact Hw | by apply Hsub].
    + exact Hs.
    + intros w. rewrite lookup_insert. case_decide; [subst w; intros _; exact Hsv | apply Hk].
Qed.

Lemma side_ok_push (D : gmap node xnum) (F : list entry) (S : gmap node xnum)
    (P : gmap node (list node)) (x dv : xnum) (k : nat) (v w : node) (p : list node) :
  side_ok D F S P -> D !! v = Some dv -> (forall u y, D !! u = Some y -> xle y dv) ->
  good x -> xle dv x ->
  side_ok D (heappush F (x, k, w)) (<[w := x]> S) (<[w := p]> P).
Proof.
  intros (Hg1 & Hg2 & Hb & Hs & Hk) Hv Hle Hgx Hdx. unfold heappush.
  split; [exact Hg1|]. split; [|split; [|split]].
  - intros e. rewrite elem_of_app, list_elem_of_singleton. intros [He| ->].
    + destruct (Hg2 e He) as [? Hse]. split; [assumption|].
      rewrite lookup_insert. case_decide; [eauto | exact Hse].
    + cbn [fst snd]. split; [exact Hgx|]. rewrite lookup_insert_eq. eauto.
  - intros u y e Hu. rewrite elem_of_app, list_elem_of_singleton. intros [He| ->].
    + by eapply Hb.
    + cbn [fst]. apply (xle_trans _ dv); eauto.
  - intros u. rewrite !lookup_insert. case_decide; [eauto | apply Hs].
  - intros u Hu. rewrite lookup_insert. case_decide; [eauto | by apply Hk].
Qed.

End Heap.

Section NoContradiction.
Import NX.

Lemma meet_after_insert_l (S0 S1 : gmap node xnum) (w : node) (x : xnum) (fd fd' : option xnum) :
  (forall u, is_Some (S0 !! u) -> is_Some (S1 !! u) -> is_Some fd) ->
  (is_Some (S1 !! w) -> is_Some fd') -> (is_Some fd -> is_Some fd') ->
  forall u, is_Some (<[w := x]> S0 !! u) -> is_Some (S1 !! u) -> is_Some fd'.
Proof.
  intros Hm Hw Hfd u. rewrite lookup_insert. case_decide; [subst u; intros _; exact Hw|].
  intros ? ?. apply Hfd. by apply (Hm u).
Qed.

Lemma meet_after_insert_r (S0 S1 : gmap node xnum) (w : node) (x : xnum) (fd fd' : option xnum) :
  (forall u, is_Some (S0 !! u) -> is_Some (S1 !! u) -> is_Some fd) ->
  (is_Some (S0 !! w) -> is_Some fd') -> (is_Some fd -> is_Some fd') ->
  forall u, is_Some (S0 !! u) -> is_Some (<[w := x]> S1 !! u) -> is_Some fd'.
Proof.
  intros Hm Hw Hfd u Hu. rewrite lookup_insert. case_decide; [subst u; intros _; by apply Hw|].
  intros ?. apply Hfd. by apply (Hm u).
Qed.

Lemma relax_ok (v : node) (st : bd_state) (wc : node * xnum) :
  search_ok st -> ready v st -> good wc.2 ->
  exists st', relax v st wc = Ok st' /\ search_ok st' /\ dir st' = dir st
              /\ dists st' = dists st.
Proof.
  intros Hok (dv & Hdv & Hle) Hc.
  pose proof Hok as (H0 & H1 & Hf & Hm).
  destruct wc as [w cost]. cbn [snd] in Hc.
  unfold relax. rewrite Hdv. unfold mbind, res_bind, from_option.
  destruct (dir st) eqn:Hd; cbn [sel upd fst snd] in *.
  - pose proof H1 as (Hg1 & Hg2 & Hb & Hs & Hk).
    assert (Hgdv : good dv) by (by eapply Hg1).
    destruct (xle_add dv cost Hgdv Hc) as [Hgv Hlv].
    destruct ((dists st).2 !! w) as [dw|] eqn:Ew.
    { assert (Hx : xltb (xadd dv cost) dw = false).
      { apply (xle_trans dw dv); eauto. }
      rewrite Hx. exists st. exact (conj eq_refl (conj Hok (conj Hd eq_refl))). }
    destruct (match (seen st).2 !! w with Some sw => _ | None => true end).
    2:{ exists st. exact (conj eq_refl (conj Hok (conj Hd eq_refl))). }
    destruct (Hs v) as [pv Hpv]; [apply Hk; eauto|]. rewrite Hpv.
    rewrite !lookup_insert_eq.
    pose proof (side_ok_push _ _ _ _ (xadd dv cost) dv (c st) v w (pv ++ [w])
                  H1 Hdv Hle Hgv Hlv) as Hpush.
    destruct ((seen st).1 !! w) as [s0|] eqn:Es0.
    2:{ eexists. split; [reflexivity|]. split; [|by split].
        split; [exact H0|]. split; [exact Hpush|]. split; [exact Hf|].
        cbn [seen finaldist fst snd].
        apply (meet_after_insert_r _ _ _ _ _ _ Hm); [|done].
        rewrite Es0. by intros [? ?]. }
    destruct (proj1 (proj2 (proj2 (proj2 H0))) w) as [p0 Hp0]; [rewrite Es0; eauto|].
    destruct (finalpath st) as [|y fp] eqn:Efp.
    + rewrite Hp0. eexists. split; [reflexivity|]. split; [|by split].
      split; [exact H0|]. split; [exact Hpush|]. cbn [finaldist]. split; eauto.
    + destruct Hf as [fd Hfd]; [done|]. rewrite Hfd.
      destruct (xltb (xadd s0 (xadd dv cost)) fd).
      * rewrite Hp0. eexists. split; [reflexivity|]. split; [|by split].
        split; [exact H0|]. split; [exact Hpush|]. cbn [finaldist]. split; eauto.
      * eexists. split; [reflexivity|]. split; [|by split].
        split; [exact H0|]. split; [exact Hpush|]. cbn [finaldist]. split; eauto.
  - pose proof H0 as (Hg1 & Hg2 & Hb & Hs & Hk).
    assert (Hgdv : good dv) by (by eapply Hg1).
    destruct (xle_add dv cost Hgdv Hc) as [Hgv Hlv].
    destruct ((dists st).1 !! w) as [dw|] eqn:Ew.
    { assert (Hx : xltb (xadd dv cost) dw = false).
      { apply (xle_trans dw dv); eauto. }
      rewrite Hx. exists st. exact (conj eq_refl (conj Hok (conj Hd eq_refl))). }
    destruct (match (seen st).1 !! w with Some sw => _ | None => true end).
    2:{ exists st. exact (conj eq_refl (conj Hok (conj Hd eq_refl))). }
    destruct (Hs v) as [pv Hpv]; [apply Hk; eauto|]. rewrite Hpv.
    rewrite !lookup_insert_eq.
    pose proof (side_ok_push _ _ _ _ (xadd dv cost) dv (c st) v w (pv ++ [w])
                  H0 Hdv Hle Hgv Hlv) as Hpush.
    destruct ((seen st).2 !! w) as [s1|] eqn:Es1.
    2:{ eexists. split; [reflexivity|]. split; [|by split].
        split; [exact Hpush|]. split; [exact H1|]. split; [exact Hf|].
        cbn [seen finaldist fst snd].
        apply (meet_after_insert_l _ _ _ _ _ _ Hm); [|done].
        rewrite Es1. by intros [? ?]. }
    destruct (proj1 (proj2 (proj2 (proj2 H1))) w) as [p1 Hp1]; [rewrite Es1; eauto|].
    destruct (finalpath st) as [|y fp] eqn:Efp.
    + rewrite Hp1. eexists. split; [reflexivity|]. split; [|by split].
      split; [exact Hpush|]. split; [exact H1|]. cbn [finaldist]. split; eauto.
    + destruct Hf as [fd Hfd]; [done|]. rewrite Hfd.
      destruct (xltb (xadd (xadd dv cost) s1) fd).
      * rewrite Hp1. eexists. split; [reflexivity|]. split; [|by split].
        split; [exact Hpush|]. split; [exact H1|]. cbn [finaldist]. split; eauto.
      * eexists. split; [reflexivity|]. split; [|by split].
        split; [exact Hpush|]. split; [exact H1|]. cbn [finaldist]. split; eauto.
Qed.

Lemma relax_all_ok (v : node) (ns : list (node * xnum)) (st : bd_state) :
  search_ok st -> ready v st -> Forall (fun wc => good wc.2) ns ->
  exists st', relax_all v st ns = Ok st' /\ search_ok st'.
Proof.
  revert st. induction ns as [|wc ns IH]; intros st Hok Hr HF.
  - exists st. by split.
  - apply Forall_cons in HF as [Hc HF]. cbn [relax_all]. unfold mbind, res_bind.
    destruct (relax_ok v st wc Hok Hr Hc) as (st1 & -> & Hok1 & Hd1 & HD1).
    apply IH; [exact Hok1 | | exact HF].
    unfold ready. rewrite Hd1, HD1. exact Hr.
Qed.

Lemma neighs_good (es : list wedge) (d : bool) (v : node) :
  Forall (fun e : wedge => good e.2) es -> Forall (fun wc => good wc.2) (neighs es d v).
Proof.
  intros HF. unfold neighs. destruct d.
  - induction HF as [|[[u w] k] es Hk HF IH]; [constructor|].
    cbn [omap list_omap]. case_bool_decide; [constructor; assumption | exact IH].
  - induction HF as [|[[u w] k] es Hk HF IH]; [constructor|].
    cbn [omap list_omap]. case_bool_decide; [constructor; assumption | exact IH].
Qed.

(** With weights that can be ordered, the loop of the search ends with
    a path, with no path, or at the iteration bound: it raises neither
    [ValueError] (contradictory paths) nor a lookup error. *)
Lemma bd_loop_ok (es : list wedge) (fuel : nat) (st : bd_state) (e : exn) :
  Forall (fun e : wedge => good e.2) es -> search_ok st ->
  bd_loop es fuel st = Raise e -> e = NetworkXNoPath \/ e = LoopBound.
Proof.
  intros Hes. revert st. induction fuel as [|fuel IH]; intros st Hok H.
  { injection H as <-. by right. }
  cbn [bd_loop] in H.
  destruct (fringe st).1 as [|x0 f0] eqn:F0; [injection H as <-; by left|].
  destruct (fringe st).2 as [|x1 f1] eqn:F1; [injection H as <-; by left|].
  destruct (heappop _) as [[[[dist cnt] v] rest]|] eqn:Hpop; [|injection H as <-; by left].
  pose proof Hok as (H0 & H1 & Hf & Hm).
  destruct (dir st) eqn:Hd; cbn [negb sel upd fst snd] in *.
  - destruct (side_ok_pop _ _ _ _ _ _ _ _ H0 Hpop) as (Hrest & Hgd & Hsv & Hle & Hins).
    destruct ((dists st).1 !! v) as [dv|] eqn:Ev.
    { apply IH in H; [exact H|]. by split. }
    destruct ((dists st).2 !! v) as [dv'|] eqn:Ev'.
    { destruct (Hm v) as [fd Hfd]; [exact Hsv | |].
      - apply H1. rewrite Ev'. eauto.
      - rewrite Hfd in H. discriminate H. }
    unfold mbind, res_bind in H.
    match type of H with
    | context [relax_all v ?s1 ?ns] =>
        destruct (relax_all_ok v ns s1) as (st2 & Hst2 & Hok2)
    end.
    + by split.
    + exists dist. cbn [dir dists sel fst snd]. split; [apply lookup_insert_eq|].
      intros w x. rewrite lookup_insert. case_decide; [|apply Hle].
      intros [= <-]. by apply xle_refl.
    + by apply neighs_good.
    + rewrite Hst2 in H. by apply IH in H.
  - destruct (side_ok_pop _ _ _ _ _ _ _ _ H1 Hpop) as (Hrest & Hgd & Hsv & Hle & Hins).
    destruct ((dists st).2 !! v) as [dv|] eqn:Ev.
    { apply IH in H; [exact H|]. by split. }
    destruct ((dists st).1 !! v) as [dv'|] eqn:Ev'.
    { destruct (Hm v) as [fd Hfd]; [| exact Hsv |].
      - apply H0. rewrite Ev'. eauto.
      - rewrite Hfd in H. discriminate H. }
    unfold mbind, res_bind in H.
    match type of H with
    | context [relax_all v ?s1 ?ns] =>
        destruct (relax_all_ok v ns s1) as (st2 & Hst2 & Hok2)
    end.
    + by split.
    + exists dist. cbn [dir dists sel fst snd]. split; [apply lookup_insert_eq|].
      intros w x. rewrite lookup_insert. case_decide; [|apply Hle].
      intros [= <-]. by apply xle_refl.
    + by apply neighs_good.
    + rewrite Hst2 in H. by apply IH in H.
Qed.

Lemma bd_init_ok (source target : node) :
  source <> target -> search_ok (bd_init source target).
Proof.
  intros Hne. unfold search_ok, side_ok, bd_init.
  cbn [dists fringe seen paths finalpath finaldist fst snd].
  split; [|split; [|split]].
  - split; [intros w x; by rewrite lookup_empty|].
    split. { intros e He. apply list_elem_of_singleton in He as ->. cbn [fst snd].
             split; [done|]. rewrite lookup_singleton_eq. eauto. }
    split; [intros w x e; by rewrite lookup_empty|].
    split; [|intros w; rewrite lookup_empty; by intros [? ?]].
    intros w. rewrite !lookup_singleton. case_decide; [eauto | done].
  - split; [intros w x; by rewrite lookup_empty|].
    split. { intros e He. apply list_elem_of_singleton in He as ->. cbn [fst snd].
             split; [done|]. rewrite lookup_singleton_eq. eauto. }
    split; [intros w x e; by rewrite lookup_empty|].
    split; [|intros w; rewrite lookup_empty; by intros [? ?]].
    intros w. rewrite !lookup_singleton. case_decide; [eauto | done].
  - done.
  - intros w. rewrite !lookup_singleton. repeat case_decide; try congruence;
      intros [? ?] [? ?]; discriminate.
Qed.

End NoContradiction.

(** With weights that can be ordered, [nx.shortest_path] returns a path
    or raises one of the two exceptions the pathfinder catches. *)
Lemma shortest_path_raises (ns : list node) (es : list NX.wedge) (s t : node) (e : exn) :
  Forall (fun e : NX.wedge => good e.2) es ->
  NX.shortest_path ns es s t = Raise e -> e = NetworkXNoPath \/ e = NodeNotFound.
Proof.
  intros Hes H.
  assert (Hnb : e <> LoopBound).
  { intros ->. by apply shortest_path_terminates in H. }
  unfold NX.shortest_path, NX.bidirectional_dijkstra, mbind, res_bind in H.
  destruct (negb _); [injection H as <-; by right|].
  destruct (negb _); [injection H as <-; by right|].
  case_bool_decide as Hst; [discriminate|].
  destruct (NX.bd_loop _ _ _) as [[d p]|e'] eqn:E; [discriminate|].
  injection H as ->.
  destruct (bd_loop_ok _ _ _ _ Hes (bd_init_ok s t Hst) E) as [->| ->]; [by left | done].
Qed.

Section Returns.
Import Worker.

Lemma Qsign_pos (q : Q) : (0 < q)%Q -> Qsign q = Lt.
Proof. unfold Qsign. intros H. by apply Qlt_alt. Qed.

Lemma adjusted_weight_good (data : edge_attrs) (rain : Z) :
  (forall l, edge_length data = Some l -> (0 < l)%Q) -> good (adjusted_weight data rain).
Proof.
  intros Hl. unfold adjusted_weight.
  set (m := Qmax 0.1 (speed_multiplier (rain_intensity_effects rain))).
  assert (Hm : (0 < m)%Q).
  { eapply Qlt_le_trans; [|apply Q.le_max_l]. reflexivity. }
  set (w := default 1%Q (edge_length data)).
  assert (Hw : (0 < w)%Q).
  { unfold w. destruct (edge_length data) as [l|]; [by apply Hl | reflexivity]. }
  unfold xdivq. rewrite (Qsign_pos m Hm).
  destruct (is_flooded data), (is_landslide data),
    (bool_decide (5 <= rain)), (bool_decide (4 <= rain));
    cbn [xmul]; rewrite ?(Qsign_pos w Hw); cbn [good]; try done;
    (apply Qmult_le_0_compat; [lra|]; apply Qle_shift_div_l; [exact Hm | lra]).
Qed.

Lemma weights_good (g : DiGraph) (rain : Z) :
  positive_lengths g -> Forall (fun e : NX.wedge => good e.2) (G_temp_weights g rain).
Proof.
  intros Hp. unfold G_temp_weights. apply Forall_fmap.
  eapply Forall_impl; [exact Hp|]. intros e He. cbn. by apply adjusted_weight_good.
Qed.

Variable self : worker.
Variable rain : Z.
Hypothesis Hpos : positive_lengths (G self).

Lemma find_path_returns (s t : node) :
  exists r, find_danger_aware_shortest_path self s t rain = Ok r.
Proof.
  unfold find_danger_aware_shortest_path.
  destruct (_ || _); [eauto|].
  destruct (NX.shortest_path _ _ s t) as [p|e] eqn:E.
  - destruct (path_length_loop _ _ _); eauto.
  - apply shortest_path_raises in E as [-> | ->]; [eauto | eauto | by apply weights_good].
Qed.

Lemma nearest_returns (current : node) (cands : list node)
    (best : option node * xnum * option (list node)) :
  exists b, nearest self current rain cands best = Ok b.
Proof.
  revert best. induction cands as [|c cands IH]; intros best; [by eexists|].
  cbn [nearest]. unfold mbind, res_bind.
  destruct (find_path_returns current c) as [[p d] ->].
  destruct best as [[bn bd] bp]. destruct (_ && _); apply IH.
Qed.

Lemma route_loop_returns (fuel : nat) (unvisited : gset node) (current : node)
    (route path_sequence : list node) (total : xnum) :
  (size unvisited <= fuel)%nat ->
  exists r, route_loop self rain fuel unvisited current route path_sequence total = Ok r.
Proof.
  intros Hsize.
  destruct (route_loop self rain fuel unvisited current route path_sequence total)
    as [r|e] eqn:E; [by eexists|].
  exfalso. revert unvisited current route path_sequence total Hsize E.
  induction fuel as [|fuel IH]; intros unvisited current route ps total Hsize E.
  - cbn [route_loop] in E. case_bool_decide as Hu; [discriminate|].
    apply Hu. apply leibniz_equiv, size_empty_inv. lia.
  - cbn [route_loop] in E. case_bool_decide as Hu; [discriminate|].
    unfold mbind, res_bind in E.
    destruct (nearest_returns current (elements unvisited) (None, PInf, None))
      as [[[nn sd] sp] En]. rewrite En in E.
    destruct nn as [n|]; [|discriminate].
    destruct (truthy_node (Some n)); [|discriminate].
    destruct (nearest_from_nothing self rain _ _ _ n En eq_refl) as (_ & _ & Hin).
    apply elem_of_elements in Hin. apply IH in E; [exact E|].
    assert (Hs : size unvisited = S (size (unvisited ∖ {[n]}))).
    { rewrite (union_difference_L {[n]} unvisited) at 1
        by (by apply singleton_subseteq_l).
      rewrite size_union by (apply disjoint_difference_r1; reflexivity).
      by rewrite size_singleton. }
    lia.
Qed.

Lemma simulate_delivery_returns : exists result, simulate_delivery self rain = Ok result.
Proof.
  unfold simulate_delivery, find_disaster_aware_route, mbind, res_bind.
  match goal with
  | |- context [route_loop self rain ?f ?u ?c ?r ?p ?t] =>
      destruct (route_loop_returns f u c r p t) as [[[route total] ps] ->]; [reflexivity|]
  end.
  destruct (negb _); [eauto|].
  destruct (simulate_movement _ _ _ _) as [[[[[? ?] ?] ?] ?] ?]. eauto.
Qed.

End Returns.

Section CompleteRuns.
Import Worker MonteCarlo.

Lemma activate_keeps_positive (self : worker) (rain : Z) (r : rng) :
  positive_lengths (G self) -> positive_lengths (G (activate_disasters self rain r).1.1).
Proof.
  unfold positive_lengths, activate_disasters.
  pose proof (activate_loop_static (flood_threshold rain) (landslide_threshold rain)
                (edges (G self)) (mk_counts 0 0) r) as Hst.
  destruct (activate_loop _ _ (edges (G self)) _ r) as [[es acc] r'].
  cbn [fst snd G edges] in *. intros Hp.
  induction Hst as [|e e' l l' [(_ & _ & Hlen & _) _] _ IH]; [constructor|].
  apply Forall_cons in Hp as [He Hp]. constructor; [|by apply IH].
  intros x. rewrite <- Hlen. apply He.
Qed.

Lemma rainfall_row_exists (severity : Z) :
  1 <= severity <= 5 -> exists probs, get_rainfall_probability_by_condition severity = Ok probs.
Proof.
  intros H.
  assert (Hs : severity = 1 \/ severity = 2 \/ severity = 3 \/ severity = 4 \/ severity = 5)
    by lia.
  destruct Hs as [->|[->|[->|[->| ->]]]]; eexists; reflexivity.
Qed.

Lemma trial_completes (s : simulation) (severity i : Z) (rs : rngs) :
  positive_lengths (sim_G s) -> 1 <= severity <= 5 ->
  (trial s severity i rs).2 = Ok ()
  /\ positive_lengths (sim_G (trial s severity i rs).1.1).
Proof.
  intros Hp Hsev. unfold trial.
  destruct (rainfall_row_exists severity Hsev) as [probs ->].
  cbn [random_random].
  match goal with
  | |- context [activate_disasters ?w ?k ?g] =>
      pose proof (activate_keeps_positive w k g Hp) as Hp';
      destruct (activate_disasters w k g) as [[simulator' activated] py']
  end.
  cbn [fst snd] in Hp'.
  match goal with
  | |- context [simulate_delivery simulator' ?k] =>
      destruct (simulate_delivery_returns simulator' k Hp') as [result ->]
  end.
  by split.
Qed.

Lemma trials_complete (n : nat) (s : simulation) (severity i : Z) (rs : rngs) :
  positive_lengths (sim_G s) -> 1 <= severity <= 5 ->
  (trials s severity i n rs).2 = Ok ().
Proof.
  revert s i rs. induction n as [|n IH]; intros s i rs Hp Hsev; [reflexivity|].
  cbn [trials]. destruct (trial_completes s severity i rs Hp Hsev) as [Ho Hp'].
  destruct (trial s severity i rs) as [[s1 rs1] [[]|e]]; cbn [fst snd] in *; [|discriminate].
  by apply IH.
Qed.

End CompleteRuns.

Lemma find_path_shape (self : worker) (s t : node) (rain : Z)
    (path : option (list node)) (len : xnum) :
  Worker.find_danger_aware_shortest_path self s t rain = Ok (path, len) ->
  (path = None /\ len = PInf)
  \/ exists p, path = Some p /\ len = Fin (sum_original (G self) p).
Proof.
  destruct path as [p|].
  - intros H. right. exists p. split; [reflexivity|].
    apply find_path_inv in H as (_ & total & Hloop & ->).
    by apply path_length_loop_sum in Hloop as [-> _].
  - unfold Worker.find_danger_aware_shortest_path.
    destruct (_ || _); [intros [= <-]; by left|].
    destruct (NX.shortest_path _ _ s t) as [p|e].
    + destruct (Worker.path_length_loop _ _ _); [discriminate|]. intros [= <-]. by left.
    + destruct e; try discriminate; intros [= <-]; by left.
Qed.

(** X3: With every stored length positive the pathfinder never raises: it
    returns no path with length [inf], or a path with the finite sum of
    its stored lengths. *)
Theorem pathfinder_always_returns (self : worker) (s t : node) (rain : Z) :
  positive_lengths (G self) ->
  Worker.find_danger_aware_shortest_path self s t rain = Ok (None, PInf)
  \/ exists p, Worker.find_danger_aware_shortest_path self s t rain
               = Ok (Some p, Fin (sum_original (G self) p)).
Proof.
  intros Hp. destruct (find_path_returns self rain Hp s t) as [[path len] H].
  destruct (find_path_shape _ _ _ _ _ _ H) as [[-> ->]|(p & -> & ->)];
    [by left | right; by exists p].
Qed.

(** X16: With every stored length positive a trial always returns a record:
    neither the search nor the walk raises. *)
Theorem trial_always_returns (self : worker) (rain : Z) :
  positive_lengths (G self) ->
  exists result, Worker.simulate_delivery self rain = Ok result.
Proof. intros Hp. by apply simulate_delivery_returns. Qed.

Lemma run_simulation_completes (s : simulation) (num_simulations severity : Z) (rs : rngs) :
  positive_lengths (sim_G s) -> 1 <= severity <= 5 -> 0 < num_simulations ->
  (MonteCarlo.run_simulation s num_simulations severity rs).2 = Ok ()
  /\ length (all_runs (MonteCarlo.run_simulation s num_simulations severity rs).1.1)
     = (length (all_runs s) + Z.to_nat num_simulations)%nat.
Proof.
  intros Hp Hsev Hn.
  assert (Hok : (MonteCarlo.run_simulation s num_simulations severity rs).2 = Ok ()).
  { unfold MonteCarlo.run_simulation.
    match goal with
    | |- context [MonteCarlo.trials ?s0 severity 0 ?n rs] =>
        pose proof (trials_complete n s0 severity 0 rs Hp Hsev) as Ht;
        pose proof (trials_effect n s0 severity 0 rs) as (_ & _ & _ & _ & Ho);
        destruct (MonteCarlo.trials s0 severity 0 n rs) as [[s' rs'] o]
    end.
    cbn [fst snd] in *. subst o. destruct (Ho eq_refl) as (records & Hall & Hlen & _).
    cbn [snd]. case_bool_decide as He; [|reflexivity].
    exfalso. rewrite He in Hall. cbn [all_runs] in Hall.
    destruct records as [|r records]; [cbn in Hlen; lia|].
    by apply app_cons_not_nil in Hall. }
  split; [exact Hok|].
  destruct (run_simulation_effect s num_simulations severity rs) as (_ & _ & _ & Ho).
  destruct (Ho Hok) as (records & -> & <- & _). by rewrite length_app.
Qed.

(** X24: On a graph whose edges carry both proneness attributes (the edge
    record of the model), with every stored length positive, a weather
    severity in 1..5 and at least one trial, a run returns normally,
    having appended one record per trial. *)
Theorem run_completes (s : simulation) (num_simulations severity : Z) (rs : rngs) :
  positive_lengths (sim_G s) -> 1 <= severity <= 5 -> 0 < num_simulations ->
  (MonteCarlo.run_simulation s num_simulations severity rs).2 = Ok ()
  /\ length (all_runs (MonteCarlo.run_simulation s num_simulations severity rs).1.1)
     = (length (all_runs s) + Z.to_nat num_simulations)%nat.
Proof. apply run_simulation_completes. Qed.

(** X26: A worker process started on a graph whose stored lengths are
    positive, for a weather severity in 1..5 and at least one trial,
    queues exactly one message: its simulation object, holding one
    record per trial. *)
Theorem healthy_worker_queues_one_message (g : DiGraph) (start : node)
    (deliveries : list node) (ideal : Q) (severity num_simulations : Z) (name : string)
    (rs : rngs) :
  positive_lengths g -> 1 <= severity <= 5 -> 0 < num_simulations ->
  exists s',
    Coordinator.process_worker g start deliveries ideal severity num_simulations name rs
    = ([Some s'], Ok ())
    /\ length (all_runs s') = Z.to_nat num_simulations
    /\ weather_severity s' = Some severity.
Proof.
  intros Hp Hsev Hn.
  unfold Coordinator.process_worker, MonteCarlo.MonteCarloSimulation.
  destruct (run_simulation_completes (mk_simulation 500 7 g 0 start deliveries ideal None [] name)
              num_simulations severity rs Hp Hsev Hn) as [Hok Hlen].
  destruct (run_simulation_effect (mk_simulation 500 7 g 0 start deliveries ideal None [] name)
              num_simulations severity rs) as (_ & Hw & _).
  destruct (MonteCarlo.run_simulation _ num_simulations severity rs) as [[s' rs'] o].
  cbn [fst snd all_runs length] in *. subst o. exists s'. by repeat split.
Qed.


(** ** Fixed points and the collection loop *)

Section FixedPoints.
Import NetworkMap.

Lemma omap_all_some {A B} (f : A -> option B) (h : A -> B) (l : list A) :
  (forall x, x ∈ l -> f x = Some (h x)) -> omap f l = h <$> l.
Proof.
  induction l as [|x l IH]; intros H; [reflexivity|].
  cbn [omap list_omap fmap list_fmap]. rewrite (H x) by apply list_elem_of_here.
  f_equal. apply IH. intros y Hy. apply H. by apply list_elem_of_further.
Qed.

Lemma sorted_nodes (g : DiGraph) :
  merge_sort Z.le (nodes g) ≡ₚ nodes g
  /\ StronglySorted Z.le (merge_sort Z.le (nodes g)).
Proof.
  split; [apply merge_sort_Permutation|].
  apply StronglySorted_merge_sort.
  - intros x y z. apply Z.le_trans.
  - intros x y. lia.
Qed.

(** With at least [num_delivery_points + 1] nodes every index is
    accepted. *)
Lemma selection_enough (l : list Z) (k : Z) (start : Z) (rest : list Z) :
  l = start :: rest -> 0 <= k -> k + 1 <= Z.of_nat (length l) ->
  let q := Z.of_nat (length l) `div` (k + 1) in
  1 <= q
  /\ (forall i, 1 <= i <= k -> 0 < i * q < Z.of_nat (length l))
  /\ omap (fun i => if bool_decide (i * q < Z.of_nat (length l))
                    then l !! Z.to_nat (i * q) else None) (seqZ 1 k)
     = (fun i => default 0 (l !! Z.to_nat (i * q))) <$> seqZ 1 k.
Proof.
  intros Hl Hk Hn q.
  assert (Hq : 1 <= q).
  { unfold q. clear q. apply Z.div_le_lower_bound; lia. }
  assert (Hqn : q * (k + 1) <= Z.of_nat (length l)).
  { unfold q. clear q Hq. rewrite Z.mul_comm. apply Z.mul_div_le. lia. }
  clearbody q.
  assert (Hidx : forall i, 1 <= i <= k -> 0 < i * q < Z.of_nat (length l)) by (intros i Hi; nia).
  split; [exact Hq|]. split; [exact Hidx|].
  apply omap_all_some. intros i Hi. apply elem_of_seqZ in Hi.
  destruct (Hidx i) as [H0 H1]; [lia|]. cbv zeta.
  rewrite bool_decide_eq_true_2 by exact H1.
  destruct (l !! Z.to_nat (i * q)) as [x|] eqn:E; [reflexivity|].
  exfalso. apply lookup_ge_None in E. unfold node in *. lia.
Qed.

(** X28: On a map with distinct node identifiers and more nodes than
    delivery points, [select_fixed_points] returns the node with the
    least identifier as start node and exactly [num_delivery_points]
    delivery nodes, all nodes of the map, pairwise distinct and
    different from the start node. *)
Theorem fixed_points_are_distinct (g : DiGraph) (k : Z) :
  NoDup (nodes g) -> 0 <= k -> k + 1 <= Z.of_nat (length (nodes g)) ->
  exists start deliveries,
    select_fixed_points g k = Points start deliveries
    /\ length deliveries = Z.to_nat k
    /\ NoDup (start :: deliveries)
    /\ start ∈ nodes g
    /\ (forall d, d ∈ deliveries -> d ∈ nodes g /\ start < d)
    /\ (forall x, x ∈ nodes g -> start <= x).
Proof.
  intros Hnd Hk Hn. destruct (sorted_nodes g) as [Hperm Hsort].
  unfold select_fixed_points.
  rewrite bool_decide_eq_false_2 by lia.
  assert (Hlen : length (merge_sort Z.le (nodes g)) = length (nodes g))
    by (by rewrite Hperm).
  assert (Hnd' : NoDup (merge_sort Z.le (nodes g))) by (by rewrite Hperm).
  assert (Hin : forall x, x ∈ merge_sort Z.le (nodes g) <-> x ∈ nodes g)
    by (intros x; by rewrite Hperm).
  destruct (merge_sort Z.le (nodes g)) as [|start rest]; [cbn in Hlen; lia|].
  clear Hperm. cbv zeta. unfold node in *.
  destruct (selection_enough (start :: rest) k start rest eq_refl Hk) as (Hq & Hidx & ->);
    [rewrite Hlen; lia|].
  set (l := start :: rest) in *.
  set (q := Z.of_nat (length l) `div` (k + 1)) in *. clearbody q.
  assert (Hmin : forall x, x ∈ l -> start <= x).
  { intros x Hx. apply StronglySorted_inv in Hsort as [_ HF].
    apply elem_of_cons in Hx as [->|Hx]; [lia|]. rewrite Forall_forall in HF. by apply HF. }
  assert (Hpick : forall i, 1 <= i <= k ->
            l !! Z.to_nat (i * q) = Some (default 0 (l !! Z.to_nat (i * q)))).
  { intros i Hi. destruct (l !! Z.to_nat (i * q)) as [x|] eqn:E; [reflexivity|].
    exfalso. apply lookup_ge_None in E. specialize (Hidx i Hi). unfold node in *. lia. }
  assert (Hstart : l !! 0%nat = Some start) by reflexivity.
  eexists _, _. split; [reflexivity|].
  split; [by rewrite length_fmap, length_seqZ|].
  assert (Hne : forall d, d ∈ (fun i => default 0 (l !! Z.to_nat (i * q))) <$> seqZ 1 k ->
                  d ∈ l /\ start <> d).
  { intros d Hd. apply list_elem_of_fmap in Hd as (i & -> & Hi). apply elem_of_seqZ in Hi.
    assert (Hi' : 1 <= i <= k) by lia. specialize (Hpick i Hi').
    split; [by eapply list_elem_of_lookup_2|]. intros Heq. rewrite <- Heq in Hpick.
    pose proof (NoDup_lookup _ _ _ _ Hnd' Hstart Hpick) as H0.
    specialize (Hidx i Hi'). lia. }
  split; [|split; [|split]].
  - apply NoDup_cons. split; [intros Hd; by apply Hne in Hd as [_ ?]|].
    apply NoDup_fmap_2_strong; [|apply NoDup_seqZ].
    intros i j Hi Hj Heq. apply elem_of_seqZ in Hi, Hj.
    assert (Hi' : 1 <= i <= k) by lia. assert (Hj' : 1 <= j <= k) by lia.
    pose proof (Hpick i Hi') as Ei. pose proof (Hpick j Hj') as Ej. rewrite Heq in Ei.
    pose proof (NoDup_lookup _ _ _ _ Hnd' Ei Ej) as H0.
    pose proof (Hidx i Hi'). pose proof (Hidx j Hj'). nia.
  - apply Hin. apply list_elem_of_here.
  - intros d Hd. apply Hne in Hd as [Hd Hneq]. split; [by apply Hin|].
    specialize (Hmin d Hd). lia.
  - intros x Hx. apply Hmin. by apply Hin.
Qed.

Lemma seqZ_constant (x : node) (m : Z) (n : nat) :
  (fun _ : Z => x) <$> seqZ m (Z.of_nat n) = replicate n x.
Proof.
  revert m. induction n as [|n IH]; intros m; [reflexivity|].
  rewrite seqZ_cons by lia. cbn [fmap list_fmap replicate]. f_equal.
  replace (Z.pred (Z.of_nat (S n))) with (Z.of_nat n) by lia. apply IH.
Qed.

(** X29: On a map with fewer nodes than [num_delivery_points + 1] the
    interval is 0: every delivery node selected is the start node
    itself. *)
Theorem small_map_repeats_the_start (g : DiGraph) (k : Z) :
  nodes g <> [] -> Z.of_nat (length (nodes g)) < k + 1 ->
  exists start,
    select_fixed_points g k = Points start (replicate (Z.to_nat k) start)
    /\ start ∈ nodes g /\ forall x, x ∈ nodes g -> start <= x.
Proof.
  intros Hne Hn. destruct (sorted_nodes g) as [Hperm Hsort].
  unfold select_fixed_points.
  rewrite bool_decide_eq_false_2 by lia.
  assert (Hlen : length (merge_sort Z.le (nodes g)) = length (nodes g))
    by (by rewrite Hperm).
  assert (Hin : forall x, x ∈ merge_sort Z.le (nodes g) <-> x ∈ nodes g)
    by (intros x; by rewrite Hperm).
  destruct (merge_sort Z.le (nodes g)) as [|start rest].
  { destruct (nodes g); [done | discriminate Hlen]. }
  clear Hperm. cbv zeta. unfold node in *. rewrite Hlen, Z.div_small by lia.
  exists start. split; [|split].
  - f_equal. rewrite (omap_all_some _ (fun _ => start)).
    + rewrite <- (Z2Nat.id k) at 1 by lia. apply seqZ_constant.
    + intros i _. cbv zeta. rewrite Z.mul_0_r.
      rewrite bool_decide_eq_true_2; [reflexivity|].
      destruct (nodes g); [done | cbn [length]; lia].
  - apply Hin. apply list_elem_of_here.
  - intros x Hx. apply Hin in Hx.
    apply StronglySorted_inv in Hsort as [_ HF].
    apply elem_of_cons in Hx as [->|Hx]; [lia|]. rewrite Forall_forall in HF. by apply HF.
Qed.

Lemma select_errors (g : DiGraph) (k : Z) :
  (k = -1 -> select_fixed_points g k = RaisesZeroDivisionError)
  /\ (k <> -1 -> nodes g = [] -> select_fixed_points g k = RaisesIndexError).
Proof.
  unfold select_fixed_points. split.
  - intros ->. reflexivity.
  - intros Hk He. rewrite bool_decide_eq_false_2 by lia. rewrite He. reflexivity.
Qed.

End FixedPoints.

(** X30: On a map without nodes [select_fixed_points] raises: [IndexError]
    at [all_nodes[0]], or [ZeroDivisionError] before it when
    [num_delivery_points] is -1. *)
Theorem empty_map_has_no_fixed_points (g : DiGraph) (k : Z) :
  nodes g = [] ->
  NetworkMap.select_fixed_points g k
  = if bool_decide (k = -1) then NetworkMap.RaisesZeroDivisionError
    else NetworkMap.RaisesIndexError.
Proof.
  intros He. destruct (select_errors g k) as [Hz Hi].
  case_bool_decide as Hk; [by apply Hz | by apply Hi].
Qed.

Lemma collect_count (msgs : list (option simulation)) :
  (length (omap id msgs) + markers msgs = length msgs)%nat.
Proof.
  unfold markers. induction msgs as [|[s|] msgs IH]; [reflexivity| |];
    cbn [omap list_omap id length] in *; lia.
Qed.

(** X27: The collection loop reads one message per started process: every
    failure marker it reads takes the place of a simulation object, and
    what it collects are the objects among the first messages, in
    arrival order. *)
Theorem markers_cost_results (processes : nat) (arrivals : list (option simulation)) :
  (processes <= length arrivals)%nat ->
  (length (Coordinator.collect processes arrivals) + markers (take processes arrivals)
   = processes)%nat
  /\ Coordinator.collect processes arrivals `prefix_of` omap id arrivals.
Proof.
  intros Hk. unfold Coordinator.collect. split.
  - rewrite collect_count, length_take. lia.
  - exists (omap id (drop processes arrivals)).
    rewrite <- (take_drop processes arrivals) at 1. apply omap_app.
Qed.

(** ** Worked cases *)

Section WorkedCases.

Import Examples Scenarios Cases.









Lemma extreme_rain_trial_fails_witness :
  delivery_nodes dry_run <> []
  /\ Worker.simulate_delivery dry_run 5 = Ok (dry_trial 5)
  /\ dry_trial 5 !! "success" = Some (VBool false)
  /\ dry_trial 5 !! "distance" = Some (VNum 0)
  /\ dry_trial 5 !! "time" = Some (VNum 0).
Proof.
  assert (H1 : delivery_nodes dry_run <> []) by discriminate.
  assert (H2 : Worker.simulate_delivery dry_run 5 = Ok (dry_trial 5)) by vm_refl.
  split; [exact H1|]. split; [exact H2|].
  exact (extreme_rain_trial_fails dry_run (dry_trial 5) H1 H2).
Defined.

Lemma deliveries_made_bounded_witness :
  Worker.simulate_delivery dry_run 1 = Ok (dry_trial 1)
  /\ dry_trial 1 !! "deliveries_made" = Some (VInt 1)
  /\ 0 <= 1 <= delivery_count dry_run.
Proof.
  assert (H1 : Worker.simulate_delivery dry_run 1 = Ok (dry_trial 1)) by vm_refl.
  assert (H2 : dry_trial 1 !! "deliveries_made" = Some (VInt 1)) by vm_refl.
  split; [exact H1|]. split; [exact H2|].
  exact (deliveries_made_bounded dry_run 1 (dry_trial 1) 1 H1 H2).
Defined.

Lemma activation_is_certain_at_the_ends_witness :
  unit_draws (constant 0.5)
  /\ edges (G fresh_run) !! 0%nat = Some (road 1 0 None None)
  /\ exists e',
       edges (G (Worker.activate_disasters fresh_run 5 (constant 0.5)).1.1) !! 0%nat = Some e'
       /\ currently_flooded (e_data e') = Some true
       /\ currently_landslide (e_data e') = Some false.
Proof.
  assert (H1 : unit_draws (constant 0.5)).
  { intros n. split; vm_compute; [discriminate | reflexivity]. }
  assert (H2 : edges (G fresh_run) !! 0%nat = Some (road 1 0 None None)) by reflexivity.
  split; [exact H1|]. split; [exact H2|].
  destruct (activation_is_certain_at_the_ends fresh_run 5 (constant 0.5) 0
              (road 1 0 None None) H1 H2) as (e' & He' & _ & Hf & Hl & _).
  exists e'. split; [exact He'|]. split.
  - apply Hf. vm_compute. discriminate.
  - apply Hl. vm_compute. discriminate.
Defined.

Lemma sampled_intensity_in_range_witness :
  Worker.get_rainfall_probability_by_condition 3 = Ok [0.25; 0.25; 0.25; 0.15; 0.10]%Q
  /\ (0 <= 0.5)%Q /\ (0.5 < 1)%Q
  /\ 1 <= MonteCarlo.choice [0.25; 0.25; 0.25; 0.15; 0.10]%Q 0.5 <= 5.
Proof.
  assert (H1 : Worker.get_rainfall_probability_by_condition 3
               = Ok [0.25; 0.25; 0.25; 0.15; 0.10]%Q) by reflexivity.
  assert (H2 : (0 <= 0.5)%Q) by (vm_compute; discriminate).
  assert (H3 : (0.5 < 1)%Q) by reflexivity.
  split; [exact H1|]. split; [exact H2|]. split; [exact H3|].
  exact (sampled_intensity_in_range 3 _ 0.5 H1 H2 H3).
Defined.

Lemma run_records_every_trial_witness :
  (MonteCarlo.run_simulation dry_simulation 2 3 half).2 = Ok ()
  /\ unit_draws (np_random half)
  /\ exists records,
       all_runs (MonteCarlo.run_simulation dry_simulation 2 3 half).1.1 = records
       /\ length records = 2%nat
       /\ Forall stored_record records.
Proof.
  assert (H1 : (MonteCarlo.run_simulation dry_simulation 2 3 half).2 = Ok ()) by vm_refl.
  assert (H2 : unit_draws (np_random half)).
  { intros n. split; vm_compute; [discriminate | reflexivity]. }
  split; [exact H1|]. split; [exact H2|].
  destruct (run_records_every_trial dry_simulation 2 3 half H1 H2)
    as (records & Ha & Hl & Hs & _).
  exists records. split; [exact Ha|]. split; [exact Hl | exact Hs].
Defined.

Lemma run_without_trials_raises_witness :
  0 <= 0 /\ all_runs idle = []
  /\ (MonteCarlo.run_simulation idle 0 3 half).2 = Raise ZeroDivisionError.
Proof.
  assert (H1 : 0 <= 0) by lia.
  assert (H2 : all_runs idle = []) by reflexivity.
  split; [exact H1|]. split; [exact H2|].
  exact (run_without_trials_raises idle 0 3 half H1 H2).
Defined.

Lemma unknown_severity_raises_witness :
  ~ (1 <= 6 <= 5) /\ 0 < 1
  /\ (MonteCarlo.run_simulation stranded 1 6 half).2 = Raise KeyError.
Proof.
  assert (H1 : ~ (1 <= 6 <= 5)) by lia.
  assert (H2 : 0 < 1) by lia.
  split; [exact H1|]. split; [exact H2|].
  exact (f_equal snd (unknown_severity_raises stranded 1 6 half H1 H2)).
Defined.

Lemma found_path_is_a_walk_witness :
  Worker.find_danger_aware_shortest_path flooded_run 1 2 3 = Ok (Some [1; 2], Fin 1000)
  /\ walk (G flooded_run) 1 2 [1; 2].
Proof.
  assert (H : Worker.find_danger_aware_shortest_path flooded_run 1 2 3
              = Ok (Some [1; 2], Fin 1000)) by vm_refl.
  split; [exact H|].
  exact (proj1 (found_path_is_a_walk flooded_run 1 2 3 [1; 2] (Fin 1000) H)).
Defined.

Lemma built_route_is_planned_witness :
  Worker.find_disaster_aware_route two_stop_run 1 [3; 2] 2
  = Ok (Some [1; 2; 3], Fin (0 + (0 + 1000) + (0 + 1000)), Some [1; 2; 3])
  /\ exists ps, Some [1; 2; 3] = Some ps
       /\ planned (G two_stop_run) 1 [1; 2; 3] ps (Fin (0 + (0 + 1000) + (0 + 1000))).
Proof.
  assert (H : Worker.find_disaster_aware_route two_stop_run 1 [3; 2] 2
              = Ok (Some [1; 2; 3], Fin (0 + (0 + 1000) + (0 + 1000)), Some [1; 2; 3]))
    by vm_refl.
  split; [exact H|].
  exact (built_route_is_planned two_stop_run 2 1 [3; 2] [1; 2; 3]
           (Fin (0 + (0 + 1000) + (0 + 1000))) (Some [1; 2; 3]) H).
Defined.

Lemma route_visits_each_delivery_once_witness :
  Worker.find_disaster_aware_route dry_run 1 [2] 1
  = Ok (Some [1; 2], Fin (0 + 1000), Some [1; 2])
  /\ exists stops, [1; 2] = 1 :: stops /\ NoDup stops.
Proof.
  assert (H : Worker.find_disaster_aware_route dry_run 1 [2] 1
              = Ok (Some [1; 2], Fin (0 + 1000), Some [1; 2])) by vm_refl.
  split; [exact H|].
  destruct (route_visits_each_delivery_once dry_run 1 1 [2] [1; 2] (Fin (0 + 1000))
              (Some [1; 2]) H) as (stops & Hr & Hnd & _).
  exists stops. split; [exact Hr | exact Hnd].
Defined.

Lemma trial_reason_is_known_witness :
  Worker.simulate_delivery dry_run 1 = Ok (dry_trial 1)
  /\ exists r, dry_trial 1 !! "reason" = Some (VStr r) /\ r ∈ trial_reasons
               /\ r <> "Edge no longer exists".
Proof.
  assert (H : Worker.simulate_delivery dry_run 1 = Ok (dry_trial 1)) by vm_refl.
  split; [exact H | exact (trial_reason_is_known dry_run 1 (dry_trial 1) H)].
Defined.

Lemma completed_trial_succeeds_witness :
  (start_node two_stop_run ∉ delivery_nodes two_stop_run)
  /\ Worker.simulate_delivery two_stop_run 2 = Ok (two_stop_trial 2)
  /\ two_stop_trial 2 !! "reason" = Some (VStr "All deliveries completed")
  /\ two_stop_trial 2 !! "reason" <> Some (VStr "Some deliveries missed").
Proof.
  assert (H1 : start_node two_stop_run ∉ delivery_nodes two_stop_run).
  { intros H. apply elem_of_cons in H as [H|H]; [discriminate H|].
    apply list_elem_of_singleton in H. discriminate H. }
  assert (H2 : Worker.simulate_delivery two_stop_run 2 = Ok (two_stop_trial 2)) by vm_refl.
  split; [exact H1|]. split; [exact H2|]. split; [vm_refl|].
  exact (completed_trial_succeeds two_stop_run 2 (two_stop_trial 2) H1 H2).
Defined.


Lemma node_zero_is_never_routed_witness :
  0 ∈ delivery_nodes zero_run
  /\ has_edge (G zero_run) (start_node zero_run) 0 = true
  /\ Worker.simulate_delivery zero_run 1 = Ok Worker.no_route_result.
Proof.
  assert (H1 : 0 ∈ delivery_nodes zero_run) by apply list_elem_of_here.
  split; [exact H1|]. split; [reflexivity|].
  destruct (simulate_delivery_returns zero_run 1) as [result H2].
  { constructor; [|constructor]. intros l [= <-]. reflexivity. }
  rewrite H2. f_equal. exact (node_zero_is_never_routed zero_run 1 result H1 H2).
Defined.

Lemma completed_walk_distance_witness :
  completed (Worker.simulate_movement long_run [1; 3] [1; 2; 3] 2)
  /\ m_distance (Worker.simulate_movement long_run [1; 3] [1; 2; 3] 2)
     = fold_left Qplus (walked_length (G long_run) <$> hops [1; 2; 3]) 0%Q.
Proof.
  assert (H : completed (Worker.simulate_movement long_run [1; 3] [1; 2; 3] 2))
    by (right; vm_refl).
  split; [exact H|].
  exact (proj1 (completed_walk_distance long_run 2 [1; 3] [1; 2; 3] H)).
Defined.

Lemma successful_trial_walks_the_plan_witness :
  Worker.find_disaster_aware_route two_stop_run (start_node two_stop_run)
    (delivery_nodes two_stop_run) 2
  = Ok (Some [1; 2; 3], Fin (0 + (0 + 1000) + (0 + 1000)), Some [1; 2; 3])
  /\ Worker.simulate_delivery two_stop_run 2 = Ok (two_stop_trial 2)
  /\ two_stop_trial 2 !! "success" = Some (VBool true)
  /\ two_stop_trial 2 !! "distance"
     = Some (VNum (fold_left Qplus
                     (walked_length (G two_stop_run) <$> hops [1; 2; 3]) 0%Q)).
Proof.
  assert (H1 : Worker.find_disaster_aware_route two_stop_run (start_node two_stop_run)
                 (delivery_nodes two_stop_run) 2
               = Ok (Some [1; 2; 3], Fin (0 + (0 + 1000) + (0 + 1000)), Some [1; 2; 3]))
    by vm_refl.
  assert (H2 : Worker.simulate_delivery two_stop_run 2 = Ok (two_stop_trial 2)) by vm_refl.
  assert (H3 : two_stop_trial 2 !! "success" = Some (VBool true)) by vm_refl.
  split; [exact H1|]. split; [exact H2|]. split; [exact H3|].
  exact (proj1 (successful_trial_walks_the_plan two_stop_run 2 [1; 2; 3]
                  (Fin (0 + (0 + 1000) + (0 + 1000))) [1; 2; 3] (two_stop_trial 2)
                  H1 H2 H3)).
Defined.

Lemma pathfinder_always_returns_witness :
  positive_lengths (G dry_run)
  /\ (Worker.find_danger_aware_shortest_path dry_run 2 1 5 = Ok (None, PInf)
      \/ exists p, Worker.find_danger_aware_shortest_path dry_run 2 1 5
                   = Ok (Some p, Fin (sum_original (G dry_run) p))).
Proof.
  assert (H : positive_lengths (G dry_run)).
  { constructor; [|constructor]. intros l [= <-]. reflexivity. }
  split; [exact H | exact (pathfinder_always_returns dry_run 2 1 5 H)].
Defined.

Lemma trial_always_returns_witness :
  positive_lengths (G long_run)
  /\ exists result, Worker.simulate_delivery long_run 4 = Ok result.
Proof.
  assert (H : positive_lengths (G long_run)).
  { constructor; [|constructor; [|constructor]]; intros l [= <-]; reflexivity. }
  split; [exact H | exact (trial_always_returns long_run 4 H)].
Defined.

Lemma run_completes_witness :
  positive_lengths (sim_G dry_simulation) /\ 1 <= 3 <= 5 /\ 0 < 2
  /\ (MonteCarlo.run_simulation dry_simulation 2 3 half).2 = Ok ()
  /\ length (all_runs (MonteCarlo.run_simulation dry_simulation 2 3 half).1.1) = 2%nat.
Proof.
  assert (H1 : positive_lengths (sim_G dry_simulation)).
  { constructor; [|constructor]. intros l [= <-]. reflexivity. }
  assert (H2 : 1 <= 3 <= 5) by lia.
  assert (H3 : 0 < 2) by lia.
  split; [exact H1|]. split; [exact H2|]. split; [exact H3|].
  exact (run_completes dry_simulation 2 3 half H1 H2 H3).
Defined.

Lemma healthy_worker_queues_one_message_witness :
  positive_lengths (two_nodes 0 0 None None) /\ 1 <= 3 <= 5 /\ 0 < 2
  /\ exists s',
       Coordinator.process_worker (two_nodes 0 0 None None) 1 [2] 2 3 2 "Process-3" half
       = ([Some s'], Ok ())
       /\ length (all_runs s') = 2%nat
       /\ weather_severity s' = Some 3.
Proof.
  assert (H1 : positive_lengths (two_nodes 0 0 None None)).
  { constructor; [|constructor]. intros l [= <-]. reflexivity. }
  assert (H2 : 1 <= 3 <= 5) by lia.
  assert (H3 : 0 < 2) by lia.
  split; [exact H1|]. split; [exact H2|]. split; [exact H3|].
  exact (healthy_worker_queues_one_message (two_nodes 0 0 None None) 1 [2] 2 3 2
           "Process-3" half H1 H2 H3).
Defined.


Lemma fixed_points_are_distinct_witness :
  NoDup (nodes three_nodes) /\ 0 <= 2 /\ 2 + 1 <= Z.of_nat (length (nodes three_nodes))
  /\ exists start deliveries,
       NetworkMap.select_fixed_points three_nodes 2 = NetworkMap.Points start deliveries
       /\ length deliveries = 2%nat
       /\ NoDup (start :: deliveries).
Proof.
  assert (H1 : NoDup (nodes three_nodes)).
  { cbn [three_nodes nodes]. repeat (apply NoDup_cons; split);
      rewrite ?not_elem_of_cons; repeat split; try discriminate;
      try apply not_elem_of_nil. constructor. }
  assert (H2 : 0 <= 2) by lia.
  assert (H3 : 2 + 1 <= Z.of_nat (length (nodes three_nodes))) by (cbn; lia).
  split; [exact H1|]. split; [exact H2|]. split; [exact H3|].
  destruct (fixed_points_are_distinct three_nodes 2 H1 H2 H3)
    as (start & deliveries & Hs & Hl & Hnd & _).
  exists start, deliveries. split; [exact Hs|]. split; [exact Hl | exact Hnd].
Defined.

Lemma small_map_repeats_the_start_witness :
  nodes (two_nodes 0 0 None None) <> []
  /\ Z.of_nat (length (nodes (two_nodes 0 0 None None))) < 20 + 1
  /\ exists start,
       NetworkMap.select_fixed_points (two_nodes 0 0 None None) 20
       = NetworkMap.Points start (replicate 20 start).
Proof.
  assert (H1 : nodes (two_nodes 0 0 None None) <> []) by discriminate.
  assert (H2 : Z.of_nat (length (nodes (two_nodes 0 0 None None))) < 20 + 1) by (cbn; lia).
  split; [exact H1|]. split; [exact H2|].
  destruct (small_map_repeats_the_start (two_nodes 0 0 None None) 20 H1 H2)
    as (start & Hs & _).
  exists start. exact Hs.
Defined.

Lemma empty_map_has_no_fixed_points_witness :
  nodes empty_map = []
  /\ NetworkMap.select_fixed_points empty_map 20 = NetworkMap.RaisesIndexError.
Proof.
  assert (H : nodes empty_map = []) by reflexivity.
  split; [exact H | exact (empty_map_has_no_fixed_points empty_map 20 H)].
Defined.

Lemma markers_cost_results_witness :
  (2 <= length [None; Some stranded; Some idle])%nat
  /\ (length (Coordinator.collect 2 [None; Some stranded; Some idle])
      + markers (take 2 [None; Some stranded; Some idle]) = 2)%nat.
Proof.
  assert (H : (2 <= length [None; Some stranded; Some idle])%nat) by (cbn; lia).
  split; [exact H|].
  exact (proj1 (markers_cost_results 2 [None; Some stranded; Some idle] H)).
Defined.

Lemma successful_trial_delivers_all_witness :
  Worker.simulate_delivery dry_run 1 = Ok (dry_trial 1)
  /\ dry_trial 1 !! "success" = Some (VBool true)
  /\ dry_trial 1 !! "deliveries_made" = Some (VInt (delivery_count dry_run)).
Proof.
  assert (H1 : Worker.simulate_delivery dry_run 1 = Ok (dry_trial 1)) by vm_refl.
  assert (H2 : dry_trial 1 !! "success" = Some (VBool true)) by vm_refl.
  split; [exact H1|]. split; [exact H2|].
  exact (successful_trial_delivers_all dry_run 1 (dry_trial 1) H1 H2).
Defined.

End WorkedCases.
